(** * Asset optimizer: policy predicates, file classification and tree walk

    Shallow embedding of the two walkers of the repository:
    - [Basic]: [optimize.js] (images only; excluded folders are skipped,
      resize has no enable flag);
    - [Video]: the video-capable walker (excluded folders are raw-copied,
      [image.enableResize], [processVideo]).
    The four policy predicates are textually the same in both files and are
    embedded once. *)

From Stdlib Require Import ZArith String Ascii List Bool.
From stdpp Require Import base list strings gmap.

Local Open Scope Z_scope.

(** ** JavaScript strings and the parts of Node's [path] module in use *)

(** Node's [path] is a library of the platform, not code of the repository:
    the POSIX functions the scripts call are written here after Node's
    implementation, as scans from the last character of the path to its
    first.  Strings are [string]; the scans work on the list of characters
    of a string. *)
Definition chars (s : string) : list ascii := list_ascii_of_string s.
Definition str (l : list ascii) : string := string_of_list_ascii l.

Definition is_slash (c : ascii) : bool := Ascii.eqb c "/"%char.
Definition is_dot (c : ascii) : bool := Ascii.eqb c "."%char.

(** [path.basename(path)] (POSIX, no suffix argument).  Node scans the path
    from its last character to its first: trailing separators are skipped
    ([matchedSlash] still true, [end === -1]); the first other character
    fixes [end]; the scan stops at the first separator met after that.
    [rp] is the path reversed, [seen_end] is [end !== -1] and [part] is
    [path.slice(i + 1, end)]. *)
Fixpoint basename_scan (rp : list ascii) (seen_end : bool) (part : list ascii)
  : list ascii :=
  match rp with
  | [] => part
  | c :: rp' =>
      if is_slash c then
        if seen_end then part else basename_scan rp' false part
      else basename_scan rp' true (c :: part)
  end.

Definition path_basename (p : string) : string :=
  str (basename_scan (rev (chars p)) false []).

(** [path.extname(path)] (POSIX): the same right-to-left scan, which also
    records the right-most dot of the last portion ([startDot]; here [dot] is
    [path.slice(startDot, end)]) and [preDotState]:
    0 until a character left of that dot is seen, then 1 after a dot and -1
    after any other character. *)
Record ext_state := {
  seen_end : bool;
  part : list ascii;
  dot : option (list ascii);
  preDotState : Z
}.

Definition ext_init : ext_state :=
  {| seen_end := false; part := []; dot := None; preDotState := 0 |}.

Definition ext_step (c : ascii) (st : ext_state) : ext_state :=
  if is_dot c then
    match dot st with
    | None => {| seen_end := true; part := c :: part st;
                 dot := Some (c :: part st); preDotState := preDotState st |}
    | Some d => {| seen_end := true; part := c :: part st;
                   dot := Some d; preDotState := 1 |}
    end
  else
    match dot st with
    | Some d => {| seen_end := true; part := c :: part st;
                   dot := Some d; preDotState := -1 |}
    | None => {| seen_end := true; part := c :: part st;
                 dot := None; preDotState := preDotState st |}
    end.

Fixpoint extname_scan (rp : list ascii) (st : ext_state) : ext_state :=
  match rp with
  | [] => st
  | c :: rp' =>
      if is_slash c then
        if seen_end st then st else extname_scan rp' st
      else extname_scan rp' (ext_step c st)
  end.

(** The final test of [path.extname]: no dot, no portion, a dot that is the
    first character of the portion, or a portion that is exactly [..] give
    the empty extension. *)
Definition ext_result (st : ext_state) : list ascii :=
  match dot st with
  | None => []
  | Some d =>
      if negb (seen_end st) then []
      else if preDotState st =? 0 then []
      else if (preDotState st =? 1)
                && (length d =? 1)%nat && (length (part st) =? 2)%nat then []
      else d
  end.

Definition path_extname (p : string) : string :=
  str (ext_result (extname_scan (rev (chars p)) ext_init)).

(** [path.join(dir, name)] for a normalised directory path [dir] (no
    trailing separator, as produced by [path.resolve] and by earlier joins)
    and a directory entry [name] (no separator, neither [.] nor [..]), the
    only way the walkers call it. *)
Definition path_join (dir name : string) : string := dir +:+ "/" +:+ name.

(** [String.prototype.toLowerCase], on the ASCII letters. *)
Definition lower_ascii (c : ascii) : ascii :=
  let n := nat_of_ascii c in
  if ((65 <=? n) && (n <=? 90))%nat then ascii_of_nat (n + 32) else c.

Definition toLowerCase (s : string) : string := str (map lower_ascii (chars s)).

(** [file.startsWith('.')] *)
Definition startsWith_dot (s : string) : bool :=
  match s with
  | String c _ => is_dot c
  | EmptyString => false
  end.

(** [Array.prototype.includes] on an array of strings. *)
Definition includes (l : list string) (x : string) : bool :=
  existsb (String.eqb x) l.

(** ** Configuration ([config.json]) *)

(** An include/exclude pair.  The code guards every [include] with
    [x.include && x.include.length > 0], so the key may be absent ([None]);
    [exclude] is read unguarded and is an array. *)
Record policy := {
  include : option (list string);
  exclude : list string
}.

Record extensions_config := {
  processable : list string;
  videoProcessable : list string;
  copyOnly : list string;
  ext_exclude : list string
}.

Record image_config := {
  image_enableResize : bool;
  image_maxWidth : Z;
  quality_jpeg : Z;
  quality_png : Z;
  quality_webp : Z
}.

Record video_config := {
  enableProcessing : bool;
  video_enableResize : bool;
  preserveFormat : bool;
  video_maxWidth : Z;
  video_maxHeight : Z;
  quality_crf : Z;
  quality_preset : string;
  quality_bitrate : string;
  formats_outputFormat : string;
  formats_codec : string
}.

Record blur_config := {
  strength : Z;
  blur_folders : policy;
  blur_files : policy
}.

Record config := {
  folders : policy;
  files : policy;
  extensions : extensions_config;
  image : image_config;
  video : video_config;
  blur : blur_config
}.

(** [p.include && p.include.length > 0] *)
Definition has_items (p : policy) : bool :=
  match include p with
  | Some (_ :: _) => true
  | _ => false
  end.

(** The include list read after that guard. *)
Definition include_items (p : policy) : list string :=
  match include p with
  | Some l => l
  | None => []
  end.

(** ** The four policy predicates and the classifier *)

Definition shouldProcessFolder (cfg : config) (folderPath : string) : bool :=
  let folderName := path_basename folderPath in
  if has_items (folders cfg) then includes (include_items (folders cfg)) folderName
  else negb (includes (exclude (folders cfg)) folderName).

Definition shouldProcessFile (cfg : config) (filePath : string) : bool :=
  let fileName := path_basename filePath in
  let fileExt := toLowerCase (path_extname filePath) in
  if includes (exclude (files cfg)) fileName then false
  else if includes (ext_exclude (extensions cfg)) fileExt then false
  else if has_items (files cfg) then includes (include_items (files cfg)) fileName
  else true.

Definition shouldBlurFolder (cfg : config) (folderPath : string) : bool :=
  let folderName := path_basename folderPath in
  if has_items (blur_folders (blur cfg))
  then includes (include_items (blur_folders (blur cfg))) folderName
  else negb (includes (exclude (blur_folders (blur cfg))) folderName).

Definition shouldBlurFile (cfg : config) (filePath : string) : bool :=
  let fileName := path_basename filePath in
  if includes (exclude (blur_files (blur cfg))) fileName then false
  else if has_items (blur_files (blur cfg))
  then includes (include_items (blur_files (blur cfg))) fileName
  else true.

Inductive file_type := Processable | VideoType | CopyOnly | Other.

(** ** Source tree, external services and observable effects *)

Definition bytes := list Byte.byte.

(** A snapshot of the source tree below [assets]: what [fs.readdirSync] and
    [fs.lstatSync(..).isDirectory()] report, entries in [readdirSync] order. *)
#[warnings="-register-all"]
Inductive node :=
| File (data : bytes)
| Dir (entries : list (string * node)).

(** The pipeline handed to [sharp]: [.resize({ width })] and [.blur(..)] when
    present, then the three encoder settings and [.toFile(job_output)]. *)
Record sharp_job := {
  job_input : string;
  job_output : string;
  job_resize : option Z;
  job_blur : option Z;
  job_jpeg : Z;
  job_png : Z;
  job_webp : Z
}.

Inductive ffmpeg_option :=
| OptCrf (crf : Z)          (* -crf <crf> *)
| OptBitrateZero            (* -b:v 0 *)
| OptRowMt                  (* -row-mt 1 *)
| OptPreset (preset : string). (* -preset <preset> *)

(** The [fluent-ffmpeg] command built by [processVideo]. *)
Record ffmpeg_command := {
  cmd_input : string;
  cmd_output : string;
  cmd_videoCodec : string;
  cmd_outputOptions : list ffmpeg_option;
  cmd_size : option (Z * Z);
  cmd_videoBitrate : option string
}.

(** [ffmpeg.ffprobe]: an error, or the width and height of the first stream
    with [codec_type === 'video'] when there is one. *)
Inductive probe_result :=
| ProbeError
| ProbeStreams (videoStream : option (Z * Z)).

(** The collaborators the walkers call.  A [None] or [false] answer is a
    rejected promise, an [err] argument or an [error] event for the media
    calls, and a thrown exception for the two filesystem primitives. *)
Record services := {
  sharp_metadata : string -> option Z;
  sharp_toFile : sharp_job -> bool;
  ffprobe : string -> probe_result;
  ffmpeg_run : ffmpeg_command -> bool;
  mkdirp_sync : string -> bool;
  fs_copyFileSync : string -> string -> bool
}.

Inductive error_message :=
| ErrProcessing (filePath : string)        (* Error processing <filePath> *)
| ErrVideoMetadata                         (* Error getting video metadata *)
| ErrNoVideoStream (inputPath : string)    (* No video stream found in *)
| ErrProcessingVideo (inputPath : string)  (* Error processing video *)
| ErrCopyVideo                             (* Failed to copy video *)
| ErrBuild.                                (* Build error *)

(** Observable effects, in the order the calls are made.  ([console.log]
    lines are left out; the image pipeline of [optimize.js] is started where
    its event stands and completes asynchronously.) *)
Inductive event :=
| Mkdir (p : string)
| Copied (src dst : string) (data : bytes)
| ImageWritten (job : sharp_job)
| VideoWritten (cmd : ffmpeg_command)
| ConsoleError (msg : error_message).

Inductive exn :=
| MkdirpFailed (p : string)
| CopyFailed (src dst : string)
| NotADirectory (p : string).

(** How a piece of the walk ends: normally, with an exception propagating to
    the caller (up to the [try]/[catch] of [build]), or with an exception
    thrown inside a callback nobody catches (the process dies). *)
Inductive status :=
| Completed
| Thrown (e : exn)
| Crashed (e : exn).

Definition run : Type := list event * status.

Definition done : run := ([], Completed).
Definition emit (e : event) : run := ([e], Completed).
Definition throw (e : exn) : run := ([], Thrown e).

Definition seq (a b : run) : run :=
  match a with
  | (t, Completed) => (t ++ fst b, snd b)
  | _ => a
  end.

Infix ";;;" := seq (at level 62, right associativity).

(** [for (const x of l)] / [l.forEach]: an exception ends the loop. *)
Definition forEach {A : Type} (f : A -> run) : list A -> run :=
  fix go (l : list A) : run :=
    match l with
    | [] => done
    | x :: l' => f x ;;; go l'
    end.

Definition mkdirp (w : services) (p : string) : run :=
  if mkdirp_sync w p then emit (Mkdir p) else throw (MkdirpFailed p).

Definition copyFile (w : services) (src dst : string) (data : bytes) : run :=
  if fs_copyFileSync w src dst then emit (Copied src dst data)
  else throw (CopyFailed src dst).

(** An exception leaving a callback of [ffprobe] is not caught by anyone. *)
Definition in_callback (r : run) : run :=
  match r with
  | (t, Thrown e) => (t, Crashed e)
  | _ => r
  end.

(** The output tree, read off the effects: what each written path holds. *)
Inductive out_entry :=
| ODir
| OFile (data : bytes)
| OImage (job : sharp_job)
| OVideo (cmd : ffmpeg_command).

Definition apply_event (o : gmap string out_entry) (e : event)
  : gmap string out_entry :=
  match e with
  | Mkdir p => <[p := ODir]> o
  | Copied _ dst data => <[dst := OFile data]> o
  | ImageWritten job => <[job_output job := OImage job]> o
  | VideoWritten cmd => <[cmd_output cmd := OVideo cmd]> o
  | ConsoleError _ => o
  end.

Definition output_after (t : list event) (o : gmap string out_entry)
  : gmap string out_entry := foldl apply_event o t.

(** Process exit code after [build()]: the [catch] of [build] logs and
    swallows a propagated exception; an uncaught one ends the process with
    code 1. *)
Definition exit_code (s : status) : Z :=
  match s with
  | Completed => 0
  | Thrown _ => 0
  | Crashed _ => 1
  end.

(** ** More of Node's [path], used by [processVideo] *)

(** [path.dirname] (POSIX): the scan runs from the last character down to
    index 1 and stops at the first separator that follows another
    character; [Some r] is the reversed [path.slice(0, end)]. *)
Fixpoint dirname_scan (rp : list ascii) (matchedSlash : bool)
  : option (list ascii) :=
  match rp with
  | [] => None
  | c :: rp' =>
      match rp' with
      | [] => None
      | _ :: _ =>
          if is_slash c then
            if negb matchedSlash then Some rp' else dirname_scan rp' matchedSlash
          else dirname_scan rp' false
      end
  end.

Definition path_dirname (p : string) : string :=
  match chars p with
  | [] => "."
  | c0 :: _ =>
      match dirname_scan (rev (chars p)) true with
      | None => if is_slash c0 then "/" else "."
      | Some r => if is_slash c0 && (length r =? 1)%nat then "//" else str (rev r)
      end
  end.

Fixpoint strip_prefix (pre l : list ascii) : option (list ascii) :=
  match pre, l with
  | [], _ => Some l
  | a :: pre', b :: l' => if Ascii.eqb a b then strip_prefix pre' l' else None
  | _ :: _, [] => None
  end.

(** [path.basename(path, suffix)]: empty when the whole path is the suffix;
    otherwise the suffix is removed from the last portion when the portion
    ends with it and is not the suffix itself. *)
Definition path_basename_suffix (p suffix : string) : string :=
  let b := chars (path_basename p) in
  match chars suffix with
  | [] => str b
  | _ :: _ =>
      if String.eqb suffix p then EmptyString
      else
        match strip_prefix (rev (chars suffix)) (rev b) with
        | Some (c :: r) => str (rev (c :: r))
        | _ => str b
        end
  end.

(** ** The image pipeline, shared shape *)

(** The pipeline built in the [.then] of [sharp(filePath).metadata()]:
    [resize] is the outcome of the walker's resize test on the width read. *)
Definition image_job (cfg : config) (filePath outputFilePath : string)
    (resize shouldBlurThisFile : bool) : sharp_job :=
  {| job_input := filePath;
     job_output := outputFilePath;
     job_resize := if resize then Some (image_maxWidth (image cfg)) else None;
     job_blur := if shouldBlurThisFile then Some (strength (blur cfg)) else None;
     job_jpeg := quality_jpeg (image cfg);
     job_png := quality_png (image cfg);
     job_webp := quality_webp (image cfg) |}.

(** The whole chain [sharp(..).metadata().then(..).catch(..)]: every
    rejection ends in the [.catch], which logs and resolves. *)
Definition sharp_pipeline (cfg : config) (w : services)
    (filePath outputFilePath : string) (resize : Z -> bool)
    (shouldBlurThisFile : bool) : run :=
  match sharp_metadata w filePath with
  | None => emit (ConsoleError (ErrProcessing filePath))
  | Some width =>
      let job :=
        image_job cfg filePath outputFilePath (resize width) shouldBlurThisFile in
      if sharp_toFile w job then emit (ImageWritten job)
      else emit (ConsoleError (ErrProcessing filePath))
  end.

(** ** The video-capable walker *)

Module Video.

Definition getFileType (cfg : config) (filePath : string) : file_type :=
  let fileExt := toLowerCase (path_extname filePath) in
  if includes (processable (extensions cfg)) fileExt then Processable
  else if includes (videoProcessable (extensions cfg)) fileExt then VideoType
  else if includes (copyOnly (extensions cfg)) fileExt then CopyOnly
  else Other.

Definition video_codec (cfg : config) (inputFormat : string) : string :=
  if preserveFormat (video cfg) then
    if String.eqb inputFormat ".webm" then "libvpx-vp9"
    else if String.eqb inputFormat ".mp4" then "libx264"
    else formats_codec (video cfg)
  else formats_codec (video cfg).

Definition video_outputFile (cfg : config) (outputPath : string) : string :=
  if preserveFormat (video cfg) then outputPath
  else
    let outputDir := path_dirname outputPath in
    let outputName := path_basename_suffix outputPath (path_extname outputPath) in
    path_join outputDir
      (outputName +:+ "." +:+ formats_outputFormat (video cfg)).

Definition needsResize (cfg : config) (originalWidth originalHeight : Z) : bool :=
  (video_maxWidth (video cfg) <? originalWidth)
  || (video_maxHeight (video cfg) <? originalHeight).

(** A non-empty [quality.bitrate] is truthy. *)
Definition bitrate_set (cfg : config) : bool :=
  negb (String.eqb (quality_bitrate (video cfg)) EmptyString).

Definition video_command (cfg : config) (inputPath outputPath : string)
    (originalWidth originalHeight : Z) : ffmpeg_command :=
  let inputFormat := toLowerCase (path_extname inputPath) in
  let codec := video_codec cfg inputFormat in
  {| cmd_input := inputPath;
     cmd_output := video_outputFile cfg outputPath;
     cmd_videoCodec := codec;
     cmd_outputOptions :=
       if String.eqb codec "libvpx-vp9"
       then [OptCrf (quality_crf (video cfg)); OptBitrateZero; OptRowMt]
       else [OptCrf (quality_crf (video cfg));
             OptPreset (quality_preset (video cfg))];
     cmd_size :=
       if video_enableResize (video cfg) then
         if needsResize cfg originalWidth originalHeight
         then Some (video_maxWidth (video cfg), video_maxHeight (video cfg))
         else None
       else None;
     cmd_videoBitrate :=
       if bitrate_set cfg && negb (String.eqb codec "libvpx-vp9")
       then Some (quality_bitrate (video cfg)) else None |}.

(** [processVideo]: the promise it returns is awaited by the walker.  The
    copy of the first branch runs in the promise executor (an exception
    rejects the promise); the two copies after a failed probe run in the
    [ffprobe] callback; the copy of the [error] handler sits in its own
    [try]/[catch].  The command is built in that callback as well, and its
    construction is taken to succeed: [command.size] throws on a size
    string [fluent-ffmpeg] cannot parse, such as one with a negative
    height. *)
Definition processVideo (cfg : config) (w : services)
    (inputPath outputPath : string) (data : bytes) : run :=
  if negb (enableProcessing (video cfg)) then copyFile w inputPath outputPath data
  else
    match ffprobe w inputPath with
    | ProbeError =>
        in_callback (emit (ConsoleError ErrVideoMetadata) ;;;
                     copyFile w inputPath outputPath data)
    | ProbeStreams None =>
        in_callback (emit (ConsoleError (ErrNoVideoStream inputPath)) ;;;
                     copyFile w inputPath outputPath data)
    | ProbeStreams (Some (originalWidth, originalHeight)) =>
        let command :=
          video_command cfg inputPath outputPath originalWidth originalHeight in
        if ffmpeg_run w command then emit (VideoWritten command)
        else
          emit (ConsoleError (ErrProcessingVideo inputPath)) ;;;
          (if fs_copyFileSync w inputPath outputPath
           then emit (Copied inputPath outputPath data)
           else emit (ConsoleError ErrCopyVideo))
    end.

(** [copyFolderContentsDirectly], on the directory [n] found at [source]. *)
Fixpoint copyFolderContentsDirectly (w : services) (n : node)
    (source target : string) {struct n} : run :=
  match n with
  | File _ => throw (NotADirectory source)
  | Dir entries =>
      forEach (fun '(file, child) =>
        if startsWith_dot file then done
        else
          let filePath := path_join source file in
          let outputFilePath := path_join target file in
          match child with
          | Dir _ =>
              mkdirp w outputFilePath ;;;
              copyFolderContentsDirectly w child filePath outputFilePath
          | File data => copyFile w filePath outputFilePath data
          end) entries
  end.

(** One turn of the loop of [copyFolderContentsDirectly]. *)
Definition copy_entry (w : services) (source target : string)
    (file : string) (child : node) : run :=
  if startsWith_dot file then done
  else
    let filePath := path_join source file in
    let outputFilePath := path_join target file in
    match child with
    | Dir _ =>
        mkdirp w outputFilePath ;;;
        copyFolderContentsDirectly w child filePath outputFilePath
    | File data => copyFile w filePath outputFilePath data
    end.

(** [metadata.width >= config.image.maxWidth], behind the enable flag. *)
Definition image_resize (cfg : config) (width : Z) : bool :=
  image_enableResize (image cfg) && (image_maxWidth (image cfg) <=? width).

(** The file branch of the loop body. *)
Definition walk_file (cfg : config) (w : services)
    (filePath outputFilePath : string) (data : bytes)
    (applyBlur parentBlurAllowed : bool) : run :=
  if negb (shouldProcessFile cfg filePath) then done
  else
    match getFileType cfg filePath with
    | Processable =>
        let fileAllowsBlur := shouldBlurFile cfg filePath in
        let shouldBlurThisFile := applyBlur && parentBlurAllowed && fileAllowsBlur in
        sharp_pipeline cfg w filePath outputFilePath (image_resize cfg)
          shouldBlurThisFile
    | VideoType => processVideo cfg w filePath outputFilePath data
    | CopyOnly => copyFile w filePath outputFilePath data
    | Other => copyFile w filePath outputFilePath data
    end.

(** The directory branch; [recur] is the recursive call on the entry. *)
Definition walk_dir (cfg : config) (w : services)
    (recur : string -> string -> bool -> bool -> run)
    (raw : string -> string -> run)
    (filePath outputFilePath : string)
    (applyBlur parentBlurAllowed : bool) : run :=
  let shouldProcess := shouldProcessFolder cfg filePath in
  mkdirp w outputFilePath ;;;
  if negb shouldProcess then raw filePath outputFilePath
  else
    let folderAllowsBlur := shouldBlurFolder cfg filePath in
    let blurForThisFolder := applyBlur && parentBlurAllowed && folderAllowsBlur in
    recur filePath outputFilePath applyBlur blurForThisFolder.

(** [optimizeAndBlurImages], on the directory [n] found at [source]. *)
Fixpoint optimizeAndBlurImages (cfg : config) (w : services) (n : node)
    (source target : string) (applyBlur parentBlurAllowed : bool)
    {struct n} : run :=
  match n with
  | File _ => throw (NotADirectory source)
  | Dir entries =>
      forEach (fun '(file, child) =>
        if startsWith_dot file then done
        else
          let filePath := path_join source file in
          let outputFilePath := path_join target file in
          match child with
          | Dir _ =>
              walk_dir cfg w (optimizeAndBlurImages cfg w child)
                (copyFolderContentsDirectly w child)
                filePath outputFilePath applyBlur parentBlurAllowed
          | File data =>
              walk_file cfg w filePath outputFilePath data
                applyBlur parentBlurAllowed
          end) entries
  end.

(** One turn of the loop of [optimizeAndBlurImages] on the entry [file],
    which is [child] in the source tree. *)
Definition walk_entry (cfg : config) (w : services) (source target : string)
    (applyBlur parentBlurAllowed : bool) (file : string) (child : node) : run :=
  if startsWith_dot file then done
  else
    let filePath := path_join source file in
    let outputFilePath := path_join target file in
    match child with
    | Dir _ =>
        walk_dir cfg w (optimizeAndBlurImages cfg w child)
          (copyFolderContentsDirectly w child)
          filePath outputFilePath applyBlur parentBlurAllowed
    | File data =>
        walk_file cfg w filePath outputFilePath data applyBlur parentBlurAllowed
    end.

(** [build()] after the configuration is loaded: the events and the exit
    code of the process. *)
Definition build (cfg : config) (w : services) (shouldBlur : bool)
    (sourceDir targetDir : string) (assets : node) : list event * Z :=
  let r :=
    mkdirp w targetDir ;;;
    optimizeAndBlurImages cfg w assets (path_join sourceDir "assets")
      (path_join targetDir "assets") shouldBlur true in
  match r with
  | (t, Thrown e) => (t ++ [ConsoleError ErrBuild], exit_code (Thrown e))
  | (t, s) => (t, exit_code s)
  end.

End Video.

(** ** The walker of [optimize.js] *)

Module Basic.

Definition getFileType (cfg : config) (filePath : string) : file_type :=
  let fileExt := toLowerCase (path_extname filePath) in
  if includes (processable (extensions cfg)) fileExt then Processable
  else if includes (copyOnly (extensions cfg)) fileExt then CopyOnly
  else Other.

(** [metadata.width >= config.image.maxWidth]: no enable flag here. *)
Definition image_resize (cfg : config) (width : Z) : bool :=
  image_maxWidth (image cfg) <=? width.

(** The file branch of the callback.  The image pipeline is not awaited:
    its effect stands where the pipeline is started, and happens once the
    synchronous walk is over. *)
Definition walk_file (cfg : config) (w : services)
    (filePath outputFilePath : string) (data : bytes)
    (applyBlur parentBlurAllowed : bool) : run :=
  if negb (shouldProcessFile cfg filePath) then done
  else
    match getFileType cfg filePath with
    | Processable =>
        let fileAllowsBlur := shouldBlurFile cfg filePath in
        let shouldBlurThisFile := applyBlur && parentBlurAllowed && fileAllowsBlur in
        sharp_pipeline cfg w filePath outputFilePath (image_resize cfg)
          shouldBlurThisFile
    | CopyOnly => copyFile w filePath outputFilePath data
    | _ => copyFile w filePath outputFilePath data
    end.

Definition walk_dir (cfg : config) (w : services)
    (recur : string -> string -> bool -> bool -> run)
    (filePath outputFilePath : string)
    (applyBlur parentBlurAllowed : bool) : run :=
  if negb (shouldProcessFolder cfg filePath) then done
  else
    mkdirp w outputFilePath ;;;
    let folderAllowsBlur := shouldBlurFolder cfg filePath in
    let blurForThisFolder := applyBlur && parentBlurAllowed && folderAllowsBlur in
    recur filePath outputFilePath applyBlur blurForThisFolder.

Fixpoint optimizeAndBlurImages (cfg : config) (w : services) (n : node)
    (source target : string) (applyBlur parentBlurAllowed : bool)
    {struct n} : run :=
  match n with
  | File _ => throw (NotADirectory source)
  | Dir entries =>
      forEach (fun '(file, child) =>
        if startsWith_dot file then done
        else
          let filePath := path_join source file in
          let outputFilePath := path_join target file in
          match child with
          | Dir _ =>
              walk_dir cfg w (optimizeAndBlurImages cfg w child)
                filePath outputFilePath applyBlur parentBlurAllowed
          | File data =>
              walk_file cfg w filePath outputFilePath data
                applyBlur parentBlurAllowed
          end) entries
  end.

Definition walk_entry (cfg : config) (w : services) (source target : string)
    (applyBlur parentBlurAllowed : bool) (file : string) (child : node) : run :=
  if startsWith_dot file then done
  else
    let filePath := path_join source file in
    let outputFilePath := path_join target file in
    match child with
    | Dir _ =>
        walk_dir cfg w (optimizeAndBlurImages cfg w child)
          filePath outputFilePath applyBlur parentBlurAllowed
    | File data =>
        walk_file cfg w filePath outputFilePath data applyBlur parentBlurAllowed
    end.

Definition build (cfg : config) (w : services) (shouldBlur : bool)
    (sourceDir targetDir : string) (assets : node) : list event * Z :=
  let r :=
    mkdirp w targetDir ;;;
    optimizeAndBlurImages cfg w assets (path_join sourceDir "assets")
      (path_join targetDir "assets") shouldBlur true in
  match r with
  | (t, Thrown e) => (t ++ [ConsoleError ErrBuild], exit_code (Thrown e))
  | (t, s) => (t, exit_code s)
  end.

End Basic.

(** ** Vocabulary of the statements *)

(** A directory entry name: not empty, no separator. *)
Definition no_slash (l : list ascii) : bool :=
  forallb (fun c => negb (is_slash c)) l.

Definition valid_name (s : string) : bool :=
  negb (String.eqb s EmptyString) && no_slash (chars s).

(** The last portion of a reversed path: separators at the front are
    dropped, then characters are taken up to the next separator. *)
Fixpoint take_portion (rp : list ascii) : list ascii :=
  match rp with
  | [] => []
  | c :: rp' => if is_slash c then [] else c :: take_portion rp'
  end.

Fixpoint portion_rev (rp : list ascii) : list ascii :=
  match rp with
  | [] => []
  | c :: rp' => if is_slash c then portion_rev rp' else c :: take_portion rp'
  end.

(** [path.join] iterated along a relative path. *)
Definition joins (base : string) (rel : list string) : string :=
  foldl path_join base rel.

Fixpoint lookup_entry (name : string) (entries : list (string * node))
  : option node :=
  match entries with
  | [] => None
  | (n, child) :: rest =>
      if String.eqb name n then Some child else lookup_entry name rest
  end.

(** The node reached from [n] along [rel] through entries that are not
    hidden. *)
Fixpoint resolve (n : node) (rel : list string) : option node :=
  match rel with
  | [] => Some n
  | name :: rel' =>
      if startsWith_dot name then None
      else
        match n with
        | Dir entries =>
            match lookup_entry name entries with
            | Some child => resolve child rel'
            | None => None
            end
        | File _ => None
        end
  end.

Fixpoint distinct (l : list string) : bool :=
  match l with
  | [] => true
  | x :: l' => negb (includes l' x) && distinct l'
  end.

(** A tree as a filesystem holds it: in every directory the names are
    entry names and differ from one another. *)
Fixpoint well_formed (n : node) : bool :=
  match n with
  | File _ => true
  | Dir entries =>
      distinct (map fst entries)
      && forallb (fun e => valid_name (fst e) && well_formed (snd e)) entries
  end.

(** The two filesystem primitives never throw. *)
Definition fs_total (w : services) : Prop :=
  (forall p, mkdirp_sync w p = true)
  /\ (forall src dst, fs_copyFileSync w src dst = true).

(** A raw effect: a directory creation or a byte-for-byte copy. *)
Definition is_raw (e : event) : bool :=
  match e with
  | Mkdir _ | Copied _ _ _ => true
  | _ => false
  end.

(** The blur an effect applies, if any. *)
Definition blur_of (e : event) : option Z :=
  match e with
  | ImageWritten job => job_blur job
  | _ => None
  end.

Definition completed (r : run) : Prop := snd r = Completed.

(** The path an effect writes. *)
Definition event_target (e : event) : option string :=
  match e with
  | Mkdir p => Some p
  | Copied _ dst _ => Some dst
  | ImageWritten job => Some (job_output job)
  | VideoWritten cmd => Some (cmd_output cmd)
  | ConsoleError _ => None
  end.

(** The characters [joins] appends to its base. *)
Definition flat (rel : list string) : list ascii :=
  concat (map (fun name => "/"%char :: chars name) rel).

(** The loop body of a walker, as both files have it. *)
Definition loop_body : Type :=
  config -> services -> string -> string -> bool -> bool ->
  string -> node -> run.

(** The sentence on excluded folders, read on a loop body: with working
    filesystem primitives, a visible directory entry that fails the
    folder-process policy gets its mirrored directory first, then every
    file below it reached through visible entries is copied to the mirrored
    path, and nothing but directory creations and copies happens. *)
Definition excluded_folder_is_raw_copied (walk_entry : loop_body) : Prop :=
  forall cfg w source target applyBlur parentBlurAllowed file sub,
    fs_total w ->
    startsWith_dot file = false ->
    shouldProcessFolder cfg (path_join source file) = false ->
    let filePath := path_join source file in
    let outputFilePath := path_join target file in
    let r :=
      walk_entry cfg w source target applyBlur parentBlurAllowed file (Dir sub) in
    completed r
    /\ (exists t, fst r = Mkdir outputFilePath :: t)
    /\ (forall rel data,
          resolve (Dir sub) rel = Some (File data) ->
          Copied (joins filePath rel) (joins outputFilePath rel) data ∈ fst r)
    /\ (forall e, e ∈ fst r -> is_raw e = true).

(** What the walk with flag [applyBlur] and blur state [parentBlurAllowed]
    may do to an image classified by [classify]: only a file classified
    [Processable] goes through [sharp], and it is blurred only when the
    flag, the blur state and its own blur rule all allow it. *)
Definition image_effect_allowed (cfg : config)
    (classify : config -> string -> file_type)
    (applyBlur parentBlurAllowed : bool) (e : event) : Prop :=
  match e with
  | ImageWritten job =>
      classify cfg (job_input job) = Processable
      /\ (job_blur job <> None ->
          applyBlur = true /\ parentBlurAllowed = true
          /\ shouldBlurFile cfg (job_input job) = true)
  | _ => True
  end.

(** What happens to a file that is not an image: a copy of the file, an
    [ffmpeg] output made from it, or an error line. *)
Definition copy_or_transcode (filePath outputFilePath : string) (data : bytes)
    (e : event) : Prop :=
  e = Copied filePath outputFilePath data
  \/ (exists cmd, e = VideoWritten cmd /\ cmd_input cmd = filePath)
  \/ (exists msg, e = ConsoleError msg).

(** The file branch of a walker, as both files have it. *)
Definition file_body : Type :=
  config -> services -> string -> string -> bytes -> bool -> bool -> run.

(** The sentence on image resizing, read on a classifier and a file
    branch: the pipeline run for an optimizable image of width [width]
    resizes to [image.maxWidth] when [image.enableResize] is set and
    [width >= image.maxWidth], and does not resize otherwise. *)
Definition resize_iff_enabled_and_wide
    (classify : config -> string -> file_type) (walk_file : file_body) : Prop :=
  forall cfg w filePath outputFilePath data applyBlur parentBlurAllowed width,
    shouldProcessFile cfg filePath = true ->
    classify cfg filePath = Processable ->
    sharp_metadata w filePath = Some width ->
    exists job,
      walk_file cfg w filePath outputFilePath data applyBlur parentBlurAllowed
      = (if sharp_toFile w job then emit (ImageWritten job)
         else emit (ConsoleError (ErrProcessing filePath)))
      /\ job_input job = filePath
      /\ job_output job = outputFilePath
      /\ (image_enableResize (image cfg) = true
          /\ image_maxWidth (image cfg) <= width ->
          job_resize job = Some (image_maxWidth (image cfg)))
      /\ (image_enableResize (image cfg) = false
          \/ width < image_maxWidth (image cfg) ->
          job_resize job = None).

(** The image transform of a file fails: the metadata read is rejected, or
    the pipeline built from the width read is. *)
Definition transform_fails (cfg : config) (w : services)
    (filePath outputFilePath : string) (resize : Z -> bool)
    (shouldBlurThisFile : bool) : Prop :=
  match sharp_metadata w filePath with
  | None => True
  | Some width =>
      sharp_toFile w
        (image_job cfg filePath outputFilePath (resize width) shouldBlurThisFile)
      = false
  end.

(** ** Concrete inputs: the scenarios of the specification *)

Definition no_policy : policy := {| include := Some []; exclude := [] |}.

Definition sample_config : config :=
  {| folders := {| include := Some []; exclude := ["raw"] |};
     files := no_policy;
     extensions :=
       {| processable := [".jpg"; ".jpeg"; ".png"; ".gif"; ".webp"];
          videoProcessable := [".mp4"; ".webm"; ".mov"; ".avi"; ".mkv"];
          copyOnly := [".svg"];
          ext_exclude := [".tmp"] |};
     image :=
       {| image_enableResize := true; image_maxWidth := 800;
          quality_jpeg := 80; quality_png := 9; quality_webp := 80 |};
     video :=
       {| enableProcessing := true; video_enableResize := true;
          preserveFormat := true; video_maxWidth := 1920;
          video_maxHeight := 1080; quality_crf := 28;
          quality_preset := "medium"; quality_bitrate := "1000k";
          formats_outputFormat := "mp4"; formats_codec := "libx264" |};
     blur :=
       {| strength := 5;
          blur_folders := {| include := Some []; exclude := ["team"] |};
          blur_files := no_policy |} |}.

(** A world where every service answers: images are 4000 pixels wide,
    videos are 3840x2160. *)
Definition sample_world : services :=
  {| sharp_metadata := fun _ => Some 4000;
     sharp_toFile := fun _ => true;
     ffprobe := fun _ => ProbeStreams (Some (3840, 2160));
     ffmpeg_run := fun _ => true;
     mkdirp_sync := fun _ => true;
     fs_copyFileSync := fun _ _ => true |}.

(** A configuration where [photo.jpg] is both excluded and included. *)
Definition clash_config : config :=
  {| folders := folders sample_config;
     files := {| include := Some ["photo.jpg"]; exclude := ["photo.jpg"] |};
     extensions := extensions sample_config;
     image := image sample_config;
     video := video sample_config;
     blur := blur sample_config |}.

(** The tree of the first scenario: a photo below [raw]. *)
Definition raw_folder : list (string * node) :=
  [("photo.jpg", File [Byte.xff; Byte.xd8])].

(** [sample_config] with [image.enableResize] off. *)
Definition keep_size_config : config :=
  {| folders := folders sample_config;
     files := files sample_config;
     extensions := extensions sample_config;
     image :=
       {| image_enableResize := false; image_maxWidth := 800;
          quality_jpeg := 80; quality_png := 9; quality_webp := 80 |};
     video := video sample_config;
     blur := blur sample_config |}.

(** Worlds where a media service fails. *)
Definition no_probe_world : services :=
  {| sharp_metadata := sharp_metadata sample_world;
     sharp_toFile := sharp_toFile sample_world;
     ffprobe := fun _ => ProbeError;
     ffmpeg_run := ffmpeg_run sample_world;
     mkdirp_sync := mkdirp_sync sample_world;
     fs_copyFileSync := fs_copyFileSync sample_world |}.

Definition no_sharp_world : services :=
  {| sharp_metadata := fun _ => None;
     sharp_toFile := sharp_toFile sample_world;
     ffprobe := ffprobe sample_world;
     ffmpeg_run := ffmpeg_run sample_world;
     mkdirp_sync := mkdirp_sync sample_world;
     fs_copyFileSync := fs_copyFileSync sample_world |}.

(** The tree of the second scenario below [team], one level deeper. *)
Definition team_folder : list (string * node) :=
  [("ceo.jpg", File [Byte.xff; Byte.xd8]);
   ("board", Dir [("chair.jpg", File [Byte.xff; Byte.xd8])])].


Definition jpeg_bytes : bytes := [Byte.xff; Byte.xd8; Byte.xff].
Definition webm_bytes : bytes := [Byte.x1a; Byte.x45; Byte.xdf; Byte.xa3].

(** Scenarios 1, 2, 3 and 5 in one tree below [assets]. *)
Definition scenario_assets : node :=
  Dir [("raw", Dir [("photo.jpg", File jpeg_bytes)]);
       ("web", Dir [("photo.jpg", File jpeg_bytes)]);
       ("team", Dir [("ceo.jpg", File jpeg_bytes)]);
       ("gallery", Dir [("art.jpg", File jpeg_bytes)]);
       ("clip.webm", File webm_bytes);
       ("cache.tmp", File []);
       (".DS_Store", File [])].

(** Scenario 4: [blur.files.include] names [hero.jpg]. *)
Definition hero_config : config :=
  {| folders := folders sample_config;
     files := files sample_config;
     extensions := extensions sample_config;
     image := image sample_config;
     video := video sample_config;
     blur :=
       {| strength := 5;
          blur_folders := {| include := Some []; exclude := [] |};
          blur_files := {| include := Some ["hero.jpg"]; exclude := [] |} |} |}.

Definition hero_assets : node :=
  Dir [("home", Dir [("hero.jpg", File jpeg_bytes);
                     ("other.jpg", File jpeg_bytes)])].

(** A fresh checkout: [dist/assets] does not exist yet, so a copy to an
    entry directly below it throws; the video is corrupt and the probe
    rejects it. *)
Definition fresh_checkout_world : services :=
  {| sharp_metadata := sharp_metadata sample_world;
     sharp_toFile := sharp_toFile sample_world;
     ffprobe := fun _ => ProbeError;
     ffmpeg_run := ffmpeg_run sample_world;
     mkdirp_sync := mkdirp_sync sample_world;
     fs_copyFileSync :=
       fun _ dst => negb (String.eqb (path_dirname dst) "/site/dist/assets") |}.

(** The same checkout with a video that is probed and then fails in
    [ffmpeg]. *)
Definition failed_transcode_world : services :=
  {| sharp_metadata := sharp_metadata sample_world;
     sharp_toFile := sharp_toFile sample_world;
     ffprobe := ffprobe sample_world;
     ffmpeg_run := fun _ => false;
     mkdirp_sync := mkdirp_sync sample_world;
     fs_copyFileSync := fs_copyFileSync fresh_checkout_world |}.

Definition fresh_checkout_assets : node :=
  Dir [("clip.webm", File webm_bytes);
       ("web", Dir [("photo.jpg", File jpeg_bytes)])].

(** A world where the fallback copy of a video throws. *)
Definition no_probe_no_copy_world : services :=
  {| sharp_metadata := sharp_metadata sample_world;
     sharp_toFile := sharp_toFile sample_world;
     ffprobe := fun _ => ProbeError;
     ffmpeg_run := ffmpeg_run sample_world;
     mkdirp_sync := mkdirp_sync sample_world;
     fs_copyFileSync := fun _ _ => false |}.

(** ** The rest of the scripts: command line and entry point *)

(** [args.includes('--blur') || args.includes('--with-blur')], on
    [process.argv.slice(2)]. *)
Definition shouldBlur (args : list string) : bool :=
  includes args "--blur" || includes args "--with-blur".

(** The configuration with every [include] key written out: an absent key
    becomes the empty array. *)
Definition explicit_policy (p : policy) : policy :=
  {| include := Some (include_items p); exclude := exclude p |}.

Definition explicit_includes (cfg : config) : config :=
  {| folders := explicit_policy (folders cfg);
     files := explicit_policy (files cfg);
     extensions := extensions cfg;
     image := image cfg;
     video := video cfg;
     blur :=
       {| strength := strength (blur cfg);
          blur_folders := explicit_policy (blur_folders (blur cfg));
          blur_files := explicit_policy (blur_files (blur cfg)) |} |}.

(** A configuration whose [include] keys are all absent. *)
Definition bare_config : config :=
  {| folders := {| include := None; exclude := ["raw"] |};
     files := {| include := None; exclude := [] |};
     extensions := extensions sample_config;
     image := image sample_config;
     video := video sample_config;
     blur :=
       {| strength := 5;
          blur_folders := {| include := None; exclude := ["team"] |};
          blur_files := {| include := None; exclude := ["logo.png"] |} |} |}.

(** The state of the [path.extname] scan of a lowercased path. *)
Definition lower_state (st : ext_state) : ext_state :=
  {| seen_end := seen_end st;
     part := map lower_ascii (part st);
     dot := option_map (map lower_ascii) (dot st);
     preDotState := preDotState st |}.

(** [sample_config] converting every video to [formats.outputFormat]. *)
Definition convert_config : config :=
  {| folders := folders sample_config;
     files := files sample_config;
     extensions := extensions sample_config;
     image := image sample_config;
     video :=
       {| enableProcessing := true; video_enableResize := true;
          preserveFormat := false; video_maxWidth := 1920;
          video_maxHeight := 1080; quality_crf := 28;
          quality_preset := "medium"; quality_bitrate := "1000k";
          formats_outputFormat := "mp4"; formats_codec := "libx264" |};
     blur := blur sample_config |}.

(** The scan of [path.extname] keeps the extension as a tail of the portion
    read so far, with something before it once [preDotState] has moved. *)
Definition ext_invariant (st : ext_state) : Prop :=
  match dot st with
  | Some d => exists pre, part st = pre ++ d /\ (preDotState st <> 0 -> pre <> [])
  | None => preDotState st = 0
  end.

(** ** Node's [path.join] in full *)

(** [normalizeString(path, allowAboveRoot, '/', isPosixPathSeparator)] of
    Node's [path]: a left-to-right scan that keeps the normalised path so
    far ([res]), the length of its last segment, the characters read since
    the last separator ([path.slice(lastSlash + 1, i)]) and [dots], the
    number of dots when only dots were read since then and -1 otherwise. *)
Record norm_state := {
  norm_res : list ascii;
  norm_lastSegmentLength : Z;
  norm_segment : list ascii;
  norm_dots : Z
}.

Definition norm_init : norm_state :=
  {| norm_res := []; norm_lastSegmentLength := 0; norm_segment := [];
     norm_dots := 0 |}.

(** A character that is no separator. *)
Definition norm_char (c : ascii) (st : norm_state) : norm_state :=
  {| norm_res := norm_res st;
     norm_lastSegmentLength := norm_lastSegmentLength st;
     norm_segment := norm_segment st ++ [c];
     norm_dots :=
       if is_dot c && negb (norm_dots st =? -1) then norm_dots st + 1
       else -1 |}.

(** [res.slice(0, res.lastIndexOf('/'))], on the reversed [res]: [None]
    when [res] holds no separator. *)
Fixpoint before_last_slash (rres : list ascii) : option (list ascii) :=
  match rres with
  | [] => None
  | c :: rres' => if is_slash c then Some (rev rres') else before_last_slash rres'
  end.

Definition ends_with_two_dots (l : list ascii) : bool :=
  match rev l with
  | c1 :: c2 :: _ => is_dot c1 && is_dot c2
  | _ => false
  end.

(** A separator, or the end of a path that does not end with one. *)
Definition norm_separator (allowAboveRoot : bool) (st : norm_state)
  : norm_state :=
  let res := norm_res st in
  let next r len :=
    {| norm_res := r; norm_lastSegmentLength := len; norm_segment := [];
       norm_dots := 0 |} in
  let above :=
    if allowAboveRoot then
      next (match res with
            | [] => [".";"."]
            | _ :: _ => res ++ ["/";".";"."]
            end)%char 2
    else next res (norm_lastSegmentLength st) in
  match norm_segment st with
  | [] => next res (norm_lastSegmentLength st)
  | _ :: _ =>
      if norm_dots st =? 1 then next res (norm_lastSegmentLength st)
      else if norm_dots st =? 2 then
        if (length res <? 2)%nat
           || negb (norm_lastSegmentLength st =? 2)
           || negb (ends_with_two_dots res)
        then
          if (2 <? length res)%nat then
            match before_last_slash (rev res) with
            | None => next [] 0
            | Some r => next r (Z.of_nat (length (take_portion (rev r))))
            end
          else
            match res with
            | _ :: _ => next [] 0
            | [] => above
            end
        else above
      else
        next (match res with
              | [] => norm_segment st
              | _ :: _ => res ++ "/"%char :: norm_segment st
              end)
             (Z.of_nat (length (norm_segment st)))
  end.

Fixpoint normalize_scan (allowAboveRoot : bool) (l : list ascii)
    (st : norm_state) : norm_state :=
  match l with
  | [] => st
  | c :: l' =>
      normalize_scan allowAboveRoot l'
        (if is_slash c then norm_separator allowAboveRoot st
         else norm_char c st)
  end.

Definition ends_with_slash (l : list ascii) : bool :=
  match rev l with
  | c :: _ => is_slash c
  | [] => false
  end.

Definition normalizeString (path : list ascii) (allowAboveRoot : bool)
  : list ascii :=
  let st := normalize_scan allowAboveRoot path norm_init in
  norm_res (if ends_with_slash path then st
            else norm_separator allowAboveRoot st).

(** [path.normalize] (POSIX). *)
Definition posix_normalize (path : string) : string :=
  match chars path with
  | [] => "."
  | c0 :: _ =>
      let isAbsolute := is_slash c0 in
      let trailingSeparator := ends_with_slash (chars path) in
      match normalizeString (chars path) (negb isAbsolute) with
      | [] =>
          if isAbsolute then "/" else if trailingSeparator then "./" else "."
      | normalized =>
          let normalized :=
            if trailingSeparator then normalized ++ ["/"%char]
            else normalized in
          str (if isAbsolute then "/"%char :: normalized else normalized)
      end
  end.

(** [path.join(...args)] (POSIX): the non-empty arguments are put together
    with separators and the result is normalised. *)
Definition posix_join (args : list string) : string :=
  match List.filter (fun arg => negb (String.eqb arg EmptyString)) args with
  | [] => "."
  | arg :: rest =>
      posix_normalize (fold_left (fun joined a => joined +:+ "/" +:+ a) rest arg)
  end.

(** A path portion [path.join] leaves as it is: not empty, no separator,
    neither [.] nor [..]. *)
Definition proper_portion (s : string) : bool :=
  valid_name s && negb (String.eqb s ".") && negb (String.eqb s "..").

(** The value of [dots] after the characters [l] of one segment. *)
Definition seg_dots (l : list ascii) (d : Z) : Z :=
  fold_left (fun d c => if is_dot c && negb (d =? -1) then d + 1 else -1) l d.

(** A name in ASCII: on such names [toLowerCase] above is all of
    JavaScript's [String.prototype.toLowerCase]. *)
Definition ascii_only (s : string) : bool :=
  forallb (fun c => (nat_of_ascii c <? 128)%nat) (chars s).

(** [command.size(`${maxWidth}x${maxHeight}`)]: [fluent-ffmpeg] throws
    [Invalid size specified] unless it finds digits on both sides of the
    [x], which for two integers means a height that is not negative.  The
    call is made only when [video.enableResize] is on. *)
Definition size_accepted (cfg : config) : bool :=
  negb (video_enableResize (video cfg)) || (0 <=? video_maxHeight (video cfg)).

(** Effects of the synchronous calls ([mkdirp.sync], [fs.copyFileSync]):
    they happen in the order of the walk in both scripts. *)
Definition synchronous (e : event) : bool :=
  match e with
  | Mkdir _ | Copied _ _ _ => true
  | _ => false
  end.

(** What two runs have in common when they differ only in the outcome of
    [sharp]'s [toFile]: the same synchronous effects in the same order, and
    every image written by one is written, the same, by the other or is the
    subject of an error line there. *)
Definition same_image_or_error (t t' : list event) : Prop :=
  forall job,
    ImageWritten job ∈ t ->
    ImageWritten job ∈ t' \/ ConsoleError (ErrProcessing (job_input job)) ∈ t'.

Definition agree_up_to_sharp (t t' : list event) : Prop :=
  List.filter synchronous t = List.filter synchronous t'
  /\ same_image_or_error t t' /\ same_image_or_error t' t.

(** A world where [sharp] reads every image and cannot write any. *)
Definition no_toFile_world : services :=
  {| sharp_metadata := sharp_metadata sample_world;
     sharp_toFile := fun _ => false;
     ffprobe := ffprobe sample_world;
     ffmpeg_run := ffmpeg_run sample_world;
     mkdirp_sync := mkdirp_sync sample_world;
     fs_copyFileSync := fs_copyFileSync sample_world |}.

(** ** Vocabulary of the walk invariants *)

(** Every directory named along [dirs], from [base] down, passes the
    folder-process policy. *)
Fixpoint folders_admitted (cfg : config) (base : string) (dirs : list string)
  : bool :=
  match dirs with
  | [] => true
  | name :: dirs' =>
      shouldProcessFolder cfg (path_join base name)
      && folders_admitted cfg (path_join base name) dirs'
  end.

(** [p] is the mirror, below [target], of a directory of the tree reached
    through visible entries. *)
Definition mirrors_directory (n : node) (target p : string) : Prop :=
  exists rel sub,
    rel <> [] /\ resolve n rel = Some (Dir sub) /\ p = joins target rel.

(** [src] is a file of the tree reached through visible entries, holding
    [data], and [dst] is its mirror below [target]. *)
Definition mirrors_file (n : node) (source target src dst : string)
    (data : bytes) : Prop :=
  exists rel,
    resolve n rel = Some (File data)
    /\ src = joins source rel /\ dst = joins target rel.

(** The same, for a file that passes the file-process policy and lies in
    folders that all pass the folder-process policy. *)
Definition wanted_file (cfg : config) (n : node) (source target src dst : string)
    (data : bytes) : Prop :=
  exists dirs name,
    resolve n (dirs ++ [name]) = Some (File data)
    /\ folders_admitted cfg source dirs = true
    /\ src = joins source (dirs ++ [name])
    /\ dst = joins target (dirs ++ [name])
    /\ shouldProcessFile cfg src = true.

(** Where an effect of the video-capable walk comes from. *)
Definition video_origin (cfg : config) (w : services) (n : node)
    (source target : string) (applyBlur : bool) (e : event) : Prop :=
  match e with
  | Mkdir p => mirrors_directory n target p
  | Copied src dst data => mirrors_file n source target src dst data
  | ImageWritten job =>
      exists data width b,
        wanted_file cfg n source target (job_input job) (job_output job) data
        /\ Video.getFileType cfg (job_input job) = Processable
        /\ sharp_metadata w (job_input job) = Some width
        /\ job = image_job cfg (job_input job) (job_output job)
                   (Video.image_resize cfg width) b
        /\ (b = true ->
            applyBlur = true /\ shouldBlurFile cfg (job_input job) = true)
  | VideoWritten cmd =>
      exists data dst originalWidth originalHeight,
        wanted_file cfg n source target (cmd_input cmd) dst data
        /\ Video.getFileType cfg (cmd_input cmd) = VideoType
        /\ enableProcessing (video cfg) = true
        /\ ffprobe w (cmd_input cmd)
           = ProbeStreams (Some (originalWidth, originalHeight))
        /\ cmd = Video.video_command cfg (cmd_input cmd) dst originalWidth
                   originalHeight
  | ConsoleError msg => msg <> ErrBuild
  end.

(** Where an effect of the walk of [optimize.js] comes from. *)
Definition basic_origin (cfg : config) (w : services) (n : node)
    (source target : string) (applyBlur : bool) (e : event) : Prop :=
  match e with
  | Mkdir p =>
      exists rel sub,
        rel <> [] /\ resolve n rel = Some (Dir sub) /\ p = joins target rel
        /\ folders_admitted cfg source rel = true
  | Copied src dst data =>
      wanted_file cfg n source target src dst data
      /\ Basic.getFileType cfg src <> Processable
  | ImageWritten job =>
      exists data width b,
        wanted_file cfg n source target (job_input job) (job_output job) data
        /\ Basic.getFileType cfg (job_input job) = Processable
        /\ sharp_metadata w (job_input job) = Some width
        /\ job = image_job cfg (job_input job) (job_output job)
                   (Basic.image_resize cfg width) b
        /\ (b = true ->
            applyBlur = true /\ shouldBlurFile cfg (job_input job) = true)
  | VideoWritten _ => False
  | ConsoleError msg => msg <> ErrBuild
  end.

(** What the video-capable walk writes, and from what: a created directory
    mirrors a visible directory of the source; a copy is the mirror of a
    visible file, with its bytes; an image or a video is made from a
    visible file that passes the file policy, in folders that all pass the
    folder policy, and is written to the mirror of that file (for a video,
    to the output file [processVideo] derives from the mirror). *)
Definition video_effect_mirrors (cfg : config) (n : node)
    (source target : string) (e : event) : Prop :=
  match e with
  | Mkdir p => mirrors_directory n target p
  | Copied src dst data => mirrors_file n source target src dst data
  | ImageWritten job =>
      exists data,
        wanted_file cfg n source target (job_input job) (job_output job) data
  | VideoWritten cmd =>
      exists data dst,
        wanted_file cfg n source target (cmd_input cmd) dst data
        /\ cmd_output cmd = Video.video_outputFile cfg dst
  | ConsoleError _ => True
  end.

(** What the walk of [optimize.js] writes: only mirrors of folders that
    pass the folder policy all the way down, and of files that pass the
    file policy inside such folders; it never runs [ffmpeg]. *)
Definition basic_effect_mirrors (cfg : config) (n : node)
    (source target : string) (e : event) : Prop :=
  match e with
  | Mkdir p =>
      exists rel sub,
        rel <> [] /\ resolve n rel = Some (Dir sub) /\ p = joins target rel
        /\ folders_admitted cfg source rel = true
  | Copied src dst data => wanted_file cfg n source target src dst data
  | ImageWritten job =>
      exists data,
        wanted_file cfg n source target (job_input job) (job_output job) data
  | VideoWritten _ => False
  | ConsoleError _ => True
  end.

(** The source file an effect speaks of. *)
Definition event_source (e : event) : option string :=
  match e with
  | Copied src _ _ => Some src
  | ImageWritten job => Some (job_input job)
  | VideoWritten cmd => Some (cmd_input cmd)
  | ConsoleError (ErrProcessing p) => Some p
  | ConsoleError (ErrNoVideoStream p) => Some p
  | ConsoleError (ErrProcessingVideo p) => Some p
  | _ => None
  end.

(** Two configurations that differ at most in their [blur] section. *)
Definition same_but_blur (cfg cfg' : config) : Prop :=
  folders cfg = folders cfg' /\ files cfg = files cfg'
  /\ extensions cfg = extensions cfg' /\ image cfg = image cfg'
  /\ video cfg = video cfg'.

(** The tree without its hidden entries, at every depth. *)
Fixpoint prune (n : node) : node :=
  match n with
  | File data => File data
  | Dir entries =>
      Dir (flat_map (fun '(name, child) =>
                       if startsWith_dot name then []
                       else [(name, prune child)]) entries)
  end.

(** [sample_config] with another blur section. *)
Definition other_blur_config : config :=
  {| folders := folders sample_config;
     files := files sample_config;
     extensions := extensions sample_config;
     image := image sample_config;
     video := video sample_config;
     blur :=
       {| strength := 12;
          blur_folders := {| include := Some ["gallery"]; exclude := [] |};
          blur_files := {| include := None; exclude := ["art.jpg"] |} |} |}.

(** A configuration under which both scripts do the same: no folder
    policy, resizing on, video processing off. *)
Definition common_config : config :=
  {| folders := no_policy;
     files := files sample_config;
     extensions := extensions sample_config;
     image := image sample_config;
     video :=
       {| enableProcessing := false; video_enableResize := true;
          preserveFormat := true; video_maxWidth := 1920;
          video_maxHeight := 1080; quality_crf := 28;
          quality_preset := "medium"; quality_bitrate := "1000k";
          formats_outputFormat := "mp4"; formats_codec := "libx264" |};
     blur := blur sample_config |}.

(** ** Proof helpers *)

Ltac no_event H := now apply elem_of_nil in H.
Ltac one_event H := apply list_elem_of_singleton in H as ->.

(** ** Facts about strings and paths *)

Lemma str_chars (s : string) : str (chars s) = s.
Proof. apply string_of_list_ascii_of_string. Qed.

Lemma chars_str (l : list ascii) : chars (str l) = l.
Proof. apply list_ascii_of_string_of_list_ascii. Qed.

Lemma chars_inj (s t : string) : chars s = chars t -> s = t.
Proof. intros H. rewrite <- (str_chars s), <- (str_chars t). now rewrite H. Qed.

Lemma str_inj (l m : list ascii) : str l = str m -> l = m.
Proof. intros H. rewrite <- (chars_str l), <- (chars_str m). now rewrite H. Qed.

Lemma chars_append (s t : string) : chars (s +:+ t) = chars s ++ chars t.
Proof.
  induction s as [|c s IH]; [reflexivity|].
  change (chars (String c s +:+ t)) with (c :: chars (s +:+ t)).
  now rewrite IH.
Qed.

Lemma chars_path_join (dir name : string) :
  chars (path_join dir name) = chars dir ++ "/"%char :: chars name.
Proof. unfold path_join. now rewrite !chars_append. Qed.

Lemma valid_name_chars (s : string) :
  valid_name s = true -> chars s <> [] /\ no_slash (chars s) = true.
Proof.
  unfold valid_name. intros [Hne Hns]%andb_true_iff. split; [|exact Hns].
  intros Hnil. destruct s; [discriminate Hne | discriminate Hnil].
Qed.

Lemma no_slash_rev (l : list ascii) : no_slash (rev l) = no_slash l.
Proof.
  unfold no_slash. induction l as [|c l IH]; [reflexivity|].
  cbn [rev forallb]. change (rev l ++ [c]) with (rev l ++ [c]).
  rewrite forallb_app. cbn [forallb]. rewrite IH. 
  destruct (negb (is_slash c)), (forallb _ l); reflexivity.
Qed.

Lemma take_portion_no_slash (l : list ascii) :
  no_slash l = true -> take_portion l = l.
Proof.
  induction l as [|c l IH]; [reflexivity|]. cbn.
  intros [Hc Hl]%andb_true_iff. destruct (is_slash c); [discriminate|].
  now rewrite IH.
Qed.

Lemma portion_rev_no_slash (l : list ascii) :
  no_slash l = true -> portion_rev l = l.
Proof.
  destruct l as [|c l]; [reflexivity|]. cbn.
  intros [Hc Hl]%andb_true_iff. destruct (is_slash c); [discriminate|].
  now rewrite take_portion_no_slash.
Qed.

Lemma take_portion_is_no_slash (rp : list ascii) :
  no_slash (take_portion rp) = true.
Proof.
  unfold no_slash. induction rp as [|c rp IH]; [reflexivity|]. cbn.
  destruct (is_slash c) eqn:E; [reflexivity|]. cbn. now rewrite E, IH.
Qed.

Lemma portion_rev_is_no_slash (rp : list ascii) :
  no_slash (portion_rev rp) = true.
Proof.
  induction rp as [|c rp IH]; [reflexivity|]. cbn.
  destruct (is_slash c) eqn:E; [exact IH|].
  pose proof (take_portion_is_no_slash rp) as H.
  unfold no_slash in *. cbn. now rewrite E, H.
Qed.

Lemma basename_scan_seen (rp part : list ascii) :
  basename_scan rp true part = rev (take_portion rp) ++ part.
Proof.
  revert part. induction rp as [|c rp IH]; intros part; [reflexivity|].
  cbn. destruct (is_slash c); [reflexivity|].
  rewrite IH. cbn. now rewrite <- app_assoc.
Qed.

Lemma basename_scan_portion (rp : list ascii) :
  basename_scan rp false [] = rev (portion_rev rp).
Proof.
  induction rp as [|c rp IH]; [reflexivity|].
  cbn. destruct (is_slash c); [exact IH|].
  rewrite basename_scan_seen. reflexivity.
Qed.

Lemma ext_step_seen (c : ascii) (st : ext_state) : seen_end (ext_step c st) = true.
Proof. unfold ext_step. destruct (is_dot c), (dot st); reflexivity. Qed.

Lemma extname_scan_seen (rp : list ascii) (st : ext_state) :
  seen_end st = true -> extname_scan rp st = extname_scan (take_portion rp) st.
Proof.
  revert st. induction rp as [|c rp IH]; intros st Hst; [reflexivity|].
  cbn. destruct (is_slash c) eqn:E.
  - now rewrite Hst.
  - cbn. rewrite E. apply IH, ext_step_seen.
Qed.

Lemma extname_scan_portion (rp : list ascii) :
  extname_scan rp ext_init = extname_scan (portion_rev rp) ext_init.
Proof.
  induction rp as [|c rp IH]; [reflexivity|].
  cbn. destruct (is_slash c) eqn:E; [exact IH|].
  cbn. rewrite E. apply extname_scan_seen, ext_step_seen.
Qed.

(** The last portion of a path, as [path.basename] returns it. *)
Lemma path_basename_chars (p : string) :
  chars (path_basename p) = rev (portion_rev (rev (chars p))).
Proof. unfold path_basename. now rewrite chars_str, basename_scan_portion. Qed.

(** [path.extname] reads the last portion of its argument only. *)
Lemma path_extname_basename (p : string) :
  path_extname (path_basename p) = path_extname p.
Proof.
  unfold path_extname. f_equal. f_equal.
  rewrite path_basename_chars, rev_involutive.
  rewrite (extname_scan_portion (rev (chars p))).
  rewrite (extname_scan_portion (portion_rev _)).
  now rewrite (portion_rev_no_slash _ (portion_rev_is_no_slash _)).
Qed.

(** A name without separator is its own basename. *)
Lemma path_basename_name (name : string) :
  no_slash (chars name) = true -> path_basename name = name.
Proof.
  intros H. apply chars_inj. rewrite path_basename_chars.
  rewrite portion_rev_no_slash by now rewrite no_slash_rev.
  apply rev_involutive.
Qed.

(** The basename of [path.join(dir, name)] is the entry name. *)
Lemma path_basename_join (dir name : string) :
  valid_name name = true -> path_basename (path_join dir name) = name.
Proof.
  intros [Hne Hns]%valid_name_chars. apply chars_inj.
  rewrite path_basename_chars, chars_path_join.
  rewrite rev_app_distr. cbn [rev]. rewrite <- app_assoc. cbn [app].
  assert (Hp : forall l rest, l <> [] -> no_slash l = true ->
             portion_rev (l ++ "/"%char :: rest) = l).
  { intros l rest Hl Hs. destruct l as [|c l]; [congruence|].
    cbn in *. apply andb_true_iff in Hs as [Hc Hs].
    destruct (is_slash c); [discriminate|]. f_equal.
    clear Hl Hc. induction l as [|d l IH]; [reflexivity|].
    cbn in *. apply andb_true_iff in Hs as [Hd Hs].
    destruct (is_slash d); [discriminate|]. now rewrite IH. }
  rewrite Hp.
  - apply rev_involutive.
  - intros E. apply Hne. rewrite <- (rev_involutive (chars name)), E. reflexivity.
  - now rewrite no_slash_rev.
Qed.

(** *** Paths built by [joins] *)

Lemma joins_cons (base name : string) (rel : list string) :
  joins base (name :: rel) = joins (path_join base name) rel.
Proof. reflexivity. Qed.

Lemma joins_snoc (base name : string) (rel : list string) :
  joins base (rel ++ [name]) = path_join (joins base rel) name.
Proof. unfold joins. now rewrite foldl_app. Qed.

Lemma chars_joins (base : string) (rel : list string) :
  chars (joins base rel) = chars base ++ flat rel.
Proof.
  revert base. induction rel as [|name rel IH]; intros base.
  - cbn. now rewrite app_nil_r.
  - rewrite joins_cons, IH, chars_path_join. unfold flat. cbn.
    now rewrite <- app_assoc.
Qed.

Lemma first_segment (a b t1 t2 : list ascii) :
  no_slash a = true -> no_slash b = true ->
  (t1 = [] \/ exists r, t1 = "/"%char :: r) ->
  (t2 = [] \/ exists r, t2 = "/"%char :: r) ->
  a ++ t1 = b ++ t2 -> a = b.
Proof.
  revert b. induction a as [|c a IH]; intros [|d b] Ha Hb H1 H2 E;
    cbn in *; try reflexivity.
  - apply andb_true_iff in Hb as [Hd _].
    destruct H1 as [->|[r ->]]; [discriminate|].
    injection E as <- _. discriminate Hd.
  - apply andb_true_iff in Ha as [Hc _].
    destruct H2 as [->|[r ->]]; [discriminate|].
    injection E as -> _. discriminate Hc.
  - apply andb_true_iff in Ha as [_ Ha]. apply andb_true_iff in Hb as [_ Hb].
    injection E as -> E. f_equal. now apply (IH b).
Qed.

Lemma flat_head (rel : list string) :
  flat rel = [] \/ exists r, flat rel = "/"%char :: r.
Proof. destruct rel as [|name rel]; [now left | right; cbn; eauto]. Qed.

(** Two paths below the same directory that start with different entry
    names are different. *)
Lemma joins_different (base n1 n2 : string) (r1 r2 : list string) :
  valid_name n1 = true -> valid_name n2 = true -> n1 <> n2 ->
  joins (path_join base n1) r1 <> joins (path_join base n2) r2.
Proof.
  intros [_ H1]%valid_name_chars [_ H2]%valid_name_chars Hne E.
  apply (f_equal chars) in E. rewrite <- !joins_cons, !chars_joins in E.
  apply app_inv_head in E. unfold flat in E. cbn in E.
  injection E as E. apply Hne, chars_inj.
  apply (first_segment _ _ _ _ H1 H2 (flat_head r1) (flat_head r2) E).
Qed.

(** *** Membership in configuration lists *)

Lemma includes_elem_of (l : list string) (x : string) :
  includes l x = true <-> x ∈ l.
Proof.
  unfold includes. rewrite existsb_exists, list_elem_of_In. split.
  - intros (y & Hy & E). apply String.eqb_eq in E. now subst.
  - intros H. exists x. split; [exact H | apply String.eqb_refl].
Qed.

Lemma includes_bool_decide (l : list string) (x : string) :
  includes l x = bool_decide (x ∈ l).
Proof.
  destruct (includes l x) eqn:E.
  - symmetry. apply bool_decide_eq_true, includes_elem_of, E.
  - symmetry. apply bool_decide_eq_false. intros H%includes_elem_of. congruence.
Qed.

Lemma has_items_true (p : policy) : has_items p = true <-> include_items p <> [].
Proof.
  unfold has_items, include_items.
  destruct (include p) as [[|x l]|]; split; congruence.
Qed.

Lemma has_items_false (p : policy) : has_items p = false <-> include_items p = [].
Proof.
  unfold has_items, include_items.
  destruct (include p) as [[|x l]|]; split; congruence.
Qed.

Lemma distinct_app_r (l1 l2 : list string) (x : string) :
  distinct (l1 ++ x :: l2) = true -> x ∉ l2.
Proof.
  induction l1 as [|y l1 IH]; cbn.
  - intros [H _]%andb_true_iff. apply negb_true_iff in H.
    intros Hin%includes_elem_of. congruence.
  - intros [_ H]%andb_true_iff. now apply IH.
Qed.

(** ** The policy predicates *)

(** C4. [shouldProcessFolder], for a path whose basename is the folder name
    [N]: with a non-empty [folders.include] it answers true exactly when [N]
    is in the include list; otherwise exactly when [N] is not in
    [folders.exclude]. *)
Theorem shouldProcessFolder_include_then_exclude
    (cfg : config) (folderPath N : string) :
  path_basename folderPath = N ->
  (include_items (folders cfg) <> [] ->
     (shouldProcessFolder cfg folderPath = true <-> N ∈ include_items (folders cfg)))
  /\ (include_items (folders cfg) = [] ->
        (shouldProcessFolder cfg folderPath = true <-> N ∉ exclude (folders cfg))).
Proof.
  intros <-. unfold shouldProcessFolder. split.
  - intros H%has_items_true. rewrite H. apply includes_elem_of.
  - intros H%has_items_false. rewrite H, negb_true_iff.
    rewrite <- includes_elem_of. symmetry. apply not_true_iff_false.
Qed.

Lemma shouldProcessFolder_include_then_exclude_witness :
  path_basename "/site/assets/raw" = "raw"
  /\ (shouldProcessFolder sample_config "/site/assets/raw" = true
      <-> "raw" ∉ exclude (folders sample_config)).
Proof.
  split; [reflexivity|].
  apply (shouldProcessFolder_include_then_exclude sample_config
           "/site/assets/raw" "raw"); reflexivity.
Defined.

(** C5. [shouldProcessFile], for a path with basename [name] and lowercased
    extension [ext]: a name in [files.exclude] or an extension in
    [extensions.exclude] makes the answer false whatever [files.include]
    holds; when neither applies, a non-empty include list is an allow-list
    and an empty one lets the file through. *)
Theorem shouldProcessFile_exclusion_wins
    (cfg : config) (filePath name ext : string) :
  path_basename filePath = name ->
  toLowerCase (path_extname filePath) = ext ->
  (name ∈ exclude (files cfg) \/ ext ∈ ext_exclude (extensions cfg) ->
     shouldProcessFile cfg filePath = false)
  /\ (name ∉ exclude (files cfg) -> ext ∉ ext_exclude (extensions cfg) ->
        (include_items (files cfg) <> [] ->
           (shouldProcessFile cfg filePath = true
            <-> name ∈ include_items (files cfg)))
        /\ (include_items (files cfg) = [] ->
              shouldProcessFile cfg filePath = true)).
Proof.
  intros <- <-. unfold shouldProcessFile. split.
  - intros [H|H]; apply includes_elem_of in H; rewrite H; [reflexivity|].
    now destruct (includes (exclude (files cfg)) _).
  - intros Hn He.
    destruct (includes (exclude (files cfg)) _) eqn:E1;
      [now apply includes_elem_of in E1|].
    destruct (includes (ext_exclude (extensions cfg)) _) eqn:E2;
      [now apply includes_elem_of in E2|].
    split.
    + intros H%has_items_true. rewrite H. apply includes_elem_of.
    + intros H%has_items_false. now rewrite H.
Qed.

Lemma shouldProcessFile_exclusion_wins_witness :
  "photo.jpg" ∈ include_items (files clash_config)
  /\ shouldProcessFile clash_config "/site/assets/web/photo.jpg" = false.
Proof.
  split; [repeat constructor|].
  apply (shouldProcessFile_exclusion_wins clash_config
           "/site/assets/web/photo.jpg" "photo.jpg" ".jpg");
    [reflexivity | reflexivity |].
  left. repeat constructor.
Defined.

(** C9. Each of the four predicates gives the same answer on two paths with
    the same basename. *)
Theorem predicates_depend_on_basename_only (cfg : config) (p1 p2 : string) :
  path_basename p1 = path_basename p2 ->
  shouldProcessFolder cfg p1 = shouldProcessFolder cfg p2
  /\ shouldProcessFile cfg p1 = shouldProcessFile cfg p2
  /\ shouldBlurFolder cfg p1 = shouldBlurFolder cfg p2
  /\ shouldBlurFile cfg p1 = shouldBlurFile cfg p2.
Proof.
  intros H.
  assert (He : path_extname p1 = path_extname p2).
  { rewrite <- (path_extname_basename p1), <- (path_extname_basename p2).
    now rewrite H. }
  unfold shouldProcessFolder, shouldProcessFile, shouldBlurFolder, shouldBlurFile.
  rewrite H, He. repeat split.
Qed.

Lemma predicates_depend_on_basename_only_witness :
  shouldProcessFolder sample_config "/site/assets/raw"
    = shouldProcessFolder sample_config "/elsewhere/deep/raw/"
  /\ shouldProcessFile sample_config "/site/assets/raw"
     = shouldProcessFile sample_config "/elsewhere/deep/raw/"
  /\ shouldBlurFolder sample_config "/site/assets/raw"
     = shouldBlurFolder sample_config "/elsewhere/deep/raw/"
  /\ shouldBlurFile sample_config "/site/assets/raw"
     = shouldBlurFile sample_config "/elsewhere/deep/raw/".
Proof.
  apply (predicates_depend_on_basename_only sample_config
           "/site/assets/raw" "/elsewhere/deep/raw/").
  reflexivity.
Defined.

(** ** Runs and loops *)

Lemma seq_done_l (r : run) : done ;;; r = r.
Proof. now destruct r. Qed.

Lemma seq_done_r (r : run) : r ;;; done = r.
Proof. destruct r as [t [| |]]; cbn; now rewrite ?app_nil_r. Qed.

Lemma seq_assoc (a b c : run) : (a ;;; b) ;;; c = a ;;; (b ;;; c).
Proof.
  destruct a as [ta [| |]], b as [tb [| |]], c as [tc sc]; cbn;
    now rewrite ?app_assoc.
Qed.

Lemma seq_completed (a b : run) :
  completed (a ;;; b) <-> completed a /\ completed b.
Proof.
  unfold completed. destruct a as [ta [| |]], b as [tb sb]; cbn;
    split; try tauto; try (intros [? ?]; congruence); congruence.
Qed.

Lemma seq_events_completed (a b : run) :
  completed a -> fst (a ;;; b) = fst a ++ fst b.
Proof. unfold completed. destruct a as [ta sa]; cbn. now intros ->. Qed.

Lemma seq_after_completed (a b : run) :
  completed a -> a ;;; b = (fst a ++ fst b, snd b).
Proof. unfold completed. destruct a as [t s]; cbn. now intros ->. Qed.

Lemma seq_events_incl (a b : run) (e : event) :
  e ∈ fst (a ;;; b) -> e ∈ fst a \/ e ∈ fst b.
Proof.
  destruct a as [ta [| |]], b as [tb sb]; cbn; rewrite ?elem_of_app; tauto.
Qed.

Lemma seq_events_l (a b : run) (e : event) : e ∈ fst a -> e ∈ fst (a ;;; b).
Proof.
  destruct a as [ta [| |]], b as [tb sb]; cbn; rewrite ?elem_of_app; tauto.
Qed.

Lemma in_callback_events (r : run) : fst (in_callback r) = fst r.
Proof. now destruct r as [t [| |]]. Qed.

Lemma forEach_cons {A} (f : A -> run) (x : A) (l : list A) :
  forEach f (x :: l) = f x ;;; forEach f l.
Proof. reflexivity. Qed.

Lemma forEach_app {A} (f : A -> run) (l1 l2 : list A) :
  forEach f (l1 ++ l2) = forEach f l1 ;;; forEach f l2.
Proof.
  induction l1 as [|x l1 IH]; [now rewrite seq_done_l|].
  cbn [app]. now rewrite !forEach_cons, IH, seq_assoc.
Qed.

Lemma forEach_completed {A} (f : A -> run) (l : list A) :
  completed (forEach f l) <-> Forall (fun x => completed (f x)) l.
Proof.
  induction l as [|x l IH]; [split; [constructor | reflexivity]|].
  rewrite forEach_cons, seq_completed, IH, Forall_cons. tauto.
Qed.

Lemma forEach_events {A} (f : A -> run) (l : list A) (e : event) :
  e ∈ fst (forEach f l) -> exists x, x ∈ l /\ e ∈ fst (f x).
Proof.
  induction l as [|x l IH]; [cbn; intros H; inversion H|].
  rewrite forEach_cons. intros [H|H]%seq_events_incl.
  - exists x. split; [left | exact H].
  - destruct (IH H) as (y & Hy & He). exists y. split; [now right | exact He].
Qed.

Lemma forEach_events_intro {A} (f : A -> run) (l : list A) (x : A) (e : event) :
  completed (forEach f l) -> x ∈ l -> e ∈ fst (f x) -> e ∈ fst (forEach f l).
Proof.
  induction l as [|y l IH]; [intros _ H; inversion H|].
  rewrite forEach_cons. intros [Hy Hl]%seq_completed Hx He.
  rewrite seq_events_completed by exact Hy. apply elem_of_app.
  apply elem_of_cons in Hx as [->|Hx]; [now left | right; now apply IH].
Qed.

(** *** The filesystem primitives and the output tree *)

Section Primitives.

Context (w : services).

Lemma mkdirp_total (p : string) :
  fs_total w -> mkdirp w p = emit (Mkdir p).
Proof. intros [H _]. unfold mkdirp. now rewrite H. Qed.

Lemma copyFile_total (src dst : string) (data : bytes) :
  fs_total w -> copyFile w src dst data = emit (Copied src dst data).
Proof. intros [_ H]. unfold copyFile. now rewrite H. Qed.

Lemma mkdirp_events (p : string) (e : event) :
  e ∈ fst (mkdirp w p) -> e = Mkdir p.
Proof.
  unfold mkdirp. destruct (mkdirp_sync w p); cbn.
  - now intros ->%list_elem_of_singleton.
  - now intros ?%elem_of_nil.
Qed.

Lemma copyFile_events (src dst : string) (data : bytes)
    (e : event) :
  e ∈ fst (copyFile w src dst data) -> e = Copied src dst data.
Proof.
  unfold copyFile. destruct (fs_copyFileSync w src dst); cbn.
  - now intros ->%list_elem_of_singleton.
  - now intros ?%elem_of_nil.
Qed.

Lemma copyFile_completed (src dst : string) (data : bytes) :
  completed (copyFile w src dst data) ->
  copyFile w src dst data = emit (Copied src dst data).
Proof.
  unfold copyFile, completed. now destruct (fs_copyFileSync w src dst).
Qed.

Lemma mkdirp_completed (p : string) :
  completed (mkdirp w p) -> mkdirp w p = emit (Mkdir p).
Proof. unfold mkdirp, completed. now destruct (mkdirp_sync w p). Qed.

End Primitives.

Lemma output_after_app (t1 t2 : list event) (o : gmap string out_entry) :
  output_after (t1 ++ t2) o = output_after t2 (output_after t1 o).
Proof. unfold output_after. apply foldl_app. Qed.

Lemma output_after_untouched (t : list event) (o : gmap string out_entry)
    (p : string) :
  (forall e, e ∈ t -> event_target e <> Some p) ->
  output_after t o !! p = o !! p.
Proof.
  revert o. induction t as [|e t IH]; intros o H; [reflexivity|].
  change (output_after (e :: t) o) with (output_after t (apply_event o e)).
  rewrite IH by (intros e' He'; apply H; now right).
  assert (He : event_target e <> Some p) by (apply H; now left).
  destruct e; cbn in *; try reflexivity;
    apply lookup_insert_ne; congruence.
Qed.

(** ** Source trees *)

(** Induction on source trees, with the hypothesis on every entry. *)
Lemma node_induction (P : node -> Prop) :
  (forall data, P (File data)) ->
  (forall entries, Forall (fun e => P (snd e)) entries -> P (Dir entries)) ->
  forall n, P n.
Proof.
  intros HF HD. fix IH 1. intros [data|entries]; [apply HF|].
  apply HD. induction entries as [|[name child] l IHl]; constructor.
  - apply IH.
  - exact IHl.
Qed.

Lemma lookup_entry_split (name : string) (entries : list (string * node))
    (child : node) :
  lookup_entry name entries = Some child ->
  exists l1 l2, entries = l1 ++ (name, child) :: l2.
Proof.
  induction entries as [|[n c] l IH]; [discriminate|]. cbn.
  destruct (String.eqb name n) eqn:E.
  - apply String.eqb_eq in E as ->. intros [= ->]. now exists [], l.
  - intros (l1 & l2 & ->)%IH. now exists ((n, c) :: l1), l2.
Qed.

Lemma well_formed_entry (entries : list (string * node)) (name : string)
    (child : node) :
  well_formed (Dir entries) = true -> (name, child) ∈ entries ->
  valid_name name = true /\ well_formed child = true.
Proof.
  cbn. intros [_ H]%andb_true_iff Hin.
  rewrite forallb_forall in H. apply list_elem_of_In in Hin.
  now apply H, andb_true_iff in Hin.
Qed.

(** ** The raw copy of an excluded folder *)

Section RawCopy.

Context (w : services).

Lemma copyFolderContentsDirectly_Dir
    (entries : list (string * node)) (source target : string) :
  Video.copyFolderContentsDirectly w (Dir entries) source target
  = forEach (fun '(file, child) => Video.copy_entry w source target file child)
      entries.
Proof. reflexivity. Qed.

(** Every effect of the raw copy is a directory creation or a copy. *)
Lemma raw_copy_is_raw (n : node) :
  forall source target e,
    e ∈ fst (Video.copyFolderContentsDirectly w n source target) ->
    is_raw e = true.
Proof.
  induction n as [data|entries IH] using node_induction;
    intros source target e He.
  - no_event He.
  - rewrite copyFolderContentsDirectly_Dir in He.
    apply forEach_events in He as ([file child] & Hin & He).
    rewrite Forall_forall in IH. specialize (IH _ Hin). cbn in IH.
    unfold Video.copy_entry in He.
    destruct (startsWith_dot file); [no_event He|].
    destruct child as [data|sub].
    + now apply copyFile_events in He as ->.
    + apply seq_events_incl in He as [He|He].
      * now apply mkdirp_events in He as ->.
      * now apply IH in He.
Qed.

(** With working filesystem primitives the raw copy of a directory runs to
    its end. *)
Lemma raw_copy_total (n : node) :
  fs_total w ->
  forall source target,
    match n with
    | Dir _ => completed (Video.copyFolderContentsDirectly w n source target)
    | File _ => True
    end.
Proof.
  intros Hw. induction n as [data|entries IH] using node_induction;
    intros source target; [exact I|].
  rewrite copyFolderContentsDirectly_Dir. apply forEach_completed.
  rewrite Forall_forall in *. intros [file child] Hin.
  specialize (IH _ Hin). cbn in IH. unfold Video.copy_entry.
  destruct (startsWith_dot file); [reflexivity|].
  destruct child as [data|sub].
  - now rewrite copyFile_total.
  - rewrite mkdirp_total by exact Hw. apply seq_completed.
    split; [reflexivity | apply IH].
Qed.

(** A raw copy that ran to its end has copied every file reached through
    entries that are not hidden, to the mirrored path. *)
Lemma raw_copy_copies (rel : list string) :
  forall n source target data,
    completed (Video.copyFolderContentsDirectly w n source target) ->
    resolve n rel = Some (File data) ->
    Copied (joins source rel) (joins target rel) data
      ∈ fst (Video.copyFolderContentsDirectly w n source target).
Proof.
  induction rel as [|name rel IH]; intros n source target data Hc Hr.
  - cbn in Hr. injection Hr as ->. discriminate Hc.
  - cbn in Hr. destruct (startsWith_dot name) eqn:Hh; [discriminate|].
    destruct n as [d|entries]; [discriminate|].
    destruct (lookup_entry name entries) as [child|] eqn:Hl; [|discriminate].
    apply lookup_entry_split in Hl as (l1 & l2 & ->).
    rewrite copyFolderContentsDirectly_Dir in *.
    assert (Hin : (name, child) ∈ l1 ++ (name, child) :: l2).
    { apply elem_of_app. right. left. }
    pose proof Hc as Hall. rewrite forEach_completed, Forall_forall in Hall.
    specialize (Hall _ Hin). cbn in Hall.
    apply (forEach_events_intro _ _ (name, child)); [exact Hc | exact Hin |].
    cbn. unfold Video.copy_entry in *. rewrite Hh in *.
    destruct child as [d|sub].
    + destruct rel as [|x rel]; cbn in Hr.
      * injection Hr as ->. rewrite copyFile_completed by exact Hall. left.
      * now destruct (startsWith_dot x).
    + apply seq_completed in Hall as [Hm Hrec].
      rewrite seq_events_completed by exact Hm. apply elem_of_app. right.
      now apply (IH _ (path_join source name) (path_join target name)).
Qed.

(** Every effect of the raw copy writes below the target directory. *)
Lemma raw_copy_targets (n : node) :
  forall source target e,
    well_formed n = true ->
    e ∈ fst (Video.copyFolderContentsDirectly w n source target) ->
    exists name rel,
      valid_name name = true /\ name ∈ match n with
                                       | Dir entries => map fst entries
                                       | File _ => []
                                       end
      /\ event_target e = Some (joins (path_join target name) rel).
Proof.
  induction n as [data|entries IH] using node_induction;
    intros source target e Hwf He.
  - no_event He.
  - rewrite copyFolderContentsDirectly_Dir in He.
    apply forEach_events in He as ([file child] & Hin & He).
    rewrite Forall_forall in IH. specialize (IH _ Hin). cbn in IH.
    destruct (well_formed_entry _ _ _ Hwf Hin) as [Hv Hwc].
    assert (Hname : file ∈ map fst entries).
    { apply list_elem_of_fmap. now exists (file, child). }
    unfold Video.copy_entry in He.
    destruct (startsWith_dot file); [no_event He|].
    destruct child as [data|sub].
    + apply copyFile_events in He as ->. now exists file, [].
    + apply seq_events_incl in He as [He|He].
      * apply mkdirp_events in He as ->. now exists file, [].
      * destruct (IH _ _ _ Hwc He) as (name & rel & _ & _ & Ht).
        exists file, (name :: rel). now rewrite joins_cons.
Qed.

Lemma copy_entry_targets (source target file : string)
    (child : node) (e : event) :
  well_formed child = true ->
  e ∈ fst (Video.copy_entry w source target file child) ->
  exists rel, event_target e = Some (joins (path_join target file) rel).
Proof.
  intros Hwc He. unfold Video.copy_entry in He.
  destruct (startsWith_dot file); [no_event He|].
  destruct child as [data|sub].
  - apply copyFile_events in He as ->. now exists [].
  - apply seq_events_incl in He as [He|He].
    + apply mkdirp_events in He as ->. now exists [].
    + destruct (raw_copy_targets _ _ _ _ Hwc He) as (name & rel & _ & _ & Ht).
      exists (name :: rel). now rewrite joins_cons.
Qed.

(** After a raw copy that ran to its end, the output holds each such file
    byte for byte at the mirrored path, whatever it held before. *)
Lemma raw_copy_output (rel : list string) :
  forall n source target data (o : gmap string out_entry),
    well_formed n = true ->
    completed (Video.copyFolderContentsDirectly w n source target) ->
    resolve n rel = Some (File data) ->
    output_after (fst (Video.copyFolderContentsDirectly w n source target)) o
      !! joins target rel = Some (OFile data).
Proof.
  induction rel as [|name rel IH]; intros n source target data o Hwf Hc Hr.
  - cbn in Hr. injection Hr as ->. discriminate Hc.
  - cbn in Hr. destruct (startsWith_dot name) eqn:Hh; [discriminate|].
    destruct n as [d|entries]; [discriminate|].
    destruct (lookup_entry name entries) as [child|] eqn:Hl; [|discriminate].
    apply lookup_entry_split in Hl as (l1 & l2 & ->).
    assert (Hin : (name, child) ∈ l1 ++ (name, child) :: l2).
    { apply elem_of_app. right. left. }
    destruct (well_formed_entry _ _ _ Hwf Hin) as [Hv Hwc].
    rewrite copyFolderContentsDirectly_Dir in *.
    rewrite forEach_app, forEach_cons in *.
    apply seq_completed in Hc as [Hc1 [Hc2 Hc3]%seq_completed].
    rewrite seq_events_completed by exact Hc1.
    rewrite seq_events_completed by exact Hc2.
    rewrite !output_after_app.
    rewrite output_after_untouched.
    + cbn in Hc2 |- *. unfold Video.copy_entry in *. rewrite Hh in *.
      destruct child as [d|sub].
      * destruct rel as [|x rel]; cbn in Hr.
        -- injection Hr as ->. rewrite copyFile_completed by exact Hc2.
           cbn. apply lookup_insert_eq.
        -- now destruct (startsWith_dot x).
      * apply seq_completed in Hc2 as [Hm Hrec].
        rewrite seq_events_completed by exact Hm.
        rewrite output_after_app.
        now apply (IH _ (path_join source name) (path_join target name)).
    + intros e He.
      apply forEach_events in He as ([file c] & Hin2 & He).
      assert (Hin' : (file, c) ∈ l1 ++ (name, child) :: l2).
      { apply elem_of_app. right. now right. }
      destruct (well_formed_entry _ _ _ Hwf Hin') as [Hv' Hwc'].
      destruct (copy_entry_targets _ _ _ _ _ Hwc' He) as (r & ->).
      rewrite joins_cons. intros [= E].
      apply (joins_different target file name r rel Hv' Hv); [|exact E].
      intros ->. cbn in Hwf. apply andb_true_iff in Hwf as [Hd _].
      rewrite map_app in Hd. cbn in Hd.
      apply distinct_app_r in Hd. apply Hd.
      apply list_elem_of_fmap. now exists (name, c).
Qed.

End RawCopy.

(** C1, on [optimize.js]: the excluded folder [raw] of the first scenario
    is skipped, so the sentence does not hold for that walker. *)
Lemma excluded_folder_not_copied_by_basic_walker :
  ~ excluded_folder_is_raw_copied Basic.walk_entry.
Proof.
  intros H.
  destruct (H sample_config sample_world "/site/assets" "/site/dist/assets"
              true true "raw" raw_folder) as (_ & [t Ht] & _).
  - split; reflexivity.
  - reflexivity.
  - reflexivity.
  - discriminate Ht.
Qed.

(** C1, amended.  In the video-capable walker a visible directory entry
    that fails the folder-process policy is handled by [mkdirp] on the
    mirrored path followed by [copyFolderContentsDirectly]: whatever the
    configuration, the blur flag and the blur state, the effects are
    directory creations and copies only; with working filesystem primitives
    the run completes; and once it completes, every file reached through
    visible entries has been copied to the mirrored path, where the output
    holds it byte for byte.  In [optimize.js] the entry is skipped: no
    effect at all. *)
Theorem excluded_folder_raw_copy
    (cfg : config) (w : services) (source target : string)
    (applyBlur parentBlurAllowed : bool) (file : string)
    (sub : list (string * node)) :
  startsWith_dot file = false ->
  shouldProcessFolder cfg (path_join source file) = false ->
  let filePath := path_join source file in
  let outputFilePath := path_join target file in
  let r :=
    Video.walk_entry cfg w source target applyBlur parentBlurAllowed
      file (Dir sub) in
  r = (mkdirp w outputFilePath ;;;
       Video.copyFolderContentsDirectly w (Dir sub) filePath outputFilePath)
  /\ (forall e, e ∈ fst r -> is_raw e = true /\ blur_of e = None)
  /\ (fs_total w -> completed r)
  /\ (completed r ->
      exists t,
        fst r = Mkdir outputFilePath :: t
        /\ forall rel data,
             resolve (Dir sub) rel = Some (File data) ->
             Copied (joins filePath rel) (joins outputFilePath rel) data ∈ t
             /\ (well_formed (Dir sub) = true ->
                 forall o : gmap string out_entry,
                   output_after (fst r) o !! joins outputFilePath rel
                   = Some (OFile data)))
  /\ excluded_folder_is_raw_copied Video.walk_entry
  /\ Basic.walk_entry cfg w source target applyBlur parentBlurAllowed
       file (Dir sub) = done.
Proof.
  intros Hh Hp filePath outputFilePath r.
  assert (Hr : forall cfg' a b,
             shouldProcessFolder cfg' filePath = false ->
             Video.walk_entry cfg' w source target a b file (Dir sub)
             = (mkdirp w outputFilePath ;;;
                Video.copyFolderContentsDirectly w (Dir sub) filePath
                  outputFilePath)).
  { intros cfg' a b Hp'. unfold Video.walk_entry, Video.walk_dir.
    fold filePath outputFilePath. now rewrite Hh, Hp'. }
  assert (Hraw : forall e, e ∈ fst r -> is_raw e = true).
  { intros e He. subst r. rewrite Hr in He by exact Hp.
    apply seq_events_incl in He as [He|He].
    - now apply mkdirp_events in He as ->.
    - now apply raw_copy_is_raw in He. }
  assert (Hdone : forall rel data,
             completed r -> resolve (Dir sub) rel = Some (File data) ->
             exists t, fst r = Mkdir outputFilePath :: t
               /\ Copied (joins filePath rel) (joins outputFilePath rel) data ∈ t
               /\ (well_formed (Dir sub) = true ->
                   forall o : gmap string out_entry,
                     output_after (fst r) o !! joins outputFilePath rel
                     = Some (OFile data))).
  { intros rel data Hc Hres. subst r. rewrite Hr in * by exact Hp.
    apply seq_completed in Hc as [Hm Hc].
    rewrite seq_events_completed by exact Hm.
    rewrite (mkdirp_completed _ _ Hm). cbn [emit fst app].
    eexists. split; [reflexivity|]. split.
    - now apply raw_copy_copies.
    - intros Hwf o.
      change (Mkdir outputFilePath :: ?t) with ([Mkdir outputFilePath] ++ t).
      rewrite output_after_app. now apply raw_copy_output. }
  assert (Htot : forall w', fs_total w' ->
             completed (mkdirp w' outputFilePath ;;;
                        Video.copyFolderContentsDirectly w' (Dir sub) filePath
                          outputFilePath)).
  { intros w' Hw. rewrite mkdirp_total by exact Hw. apply seq_completed.
    split; [reflexivity|]. apply (raw_copy_total w' (Dir sub) Hw). }
  split; [now apply Hr|].
  split.
  { intros e He. split; [now apply Hraw|].
    apply Hraw in He. now destruct e. }
  split; [intros Hw; subst r; rewrite Hr by exact Hp; now apply Htot|].
  split.
  { intros Hc.
    assert (Ht : exists t, fst r = Mkdir outputFilePath :: t).
    { subst r. rewrite Hr in Hc |- * by exact Hp.
      pose proof Hc as [Hm _]%seq_completed.
      rewrite seq_events_completed by exact Hm.
      rewrite (mkdirp_completed _ _ Hm). cbn [emit fst app]. eauto. }
    destruct Ht as [t Ht]. exists t. split; [exact Ht|].
    intros rel data Hres.
    destruct (Hdone rel data Hc Hres) as (t' & Ht' & Hin & Hout).
    rewrite Ht in Ht'. injection Ht' as <-. now split. }
  split.
  - clear. intros cfg w source target a b file sub Hw Hh Hp fp out r.
    assert (E : r = (mkdirp w out ;;;
                     Video.copyFolderContentsDirectly w (Dir sub) fp out)).
    { subst r fp out. unfold Video.walk_entry, Video.walk_dir.
      now rewrite Hh, Hp. }
    assert (Hc : completed r).
    { rewrite E, mkdirp_total by exact Hw. apply seq_completed.
      split; [reflexivity|]. apply (raw_copy_total w (Dir sub) Hw). }
    split; [exact Hc|].
    rewrite E in *. pose proof Hc as [Hm Hc']%seq_completed.
    rewrite seq_events_completed by exact Hm.
    rewrite (mkdirp_completed _ _ Hm). cbn [emit fst app].
    split; [eauto|]. split.
    + intros rel data Hres. right. now apply raw_copy_copies.
    + intros e [->|He]%elem_of_cons; [reflexivity|].
      now apply raw_copy_is_raw in He.
  - unfold Basic.walk_entry, Basic.walk_dir. now rewrite Hh, Hp.
Qed.

Lemma excluded_folder_raw_copy_witness :
  Video.walk_entry sample_config sample_world "/site/assets"
    "/site/dist/assets" true true "raw" (Dir raw_folder)
  = ([Mkdir "/site/dist/assets/raw";
      Copied "/site/assets/raw/photo.jpg" "/site/dist/assets/raw/photo.jpg"
        [Byte.xff; Byte.xd8]], Completed).
Proof.
  destruct (excluded_folder_raw_copy sample_config sample_world
              "/site/assets" "/site/dist/assets" true true "raw" raw_folder)
    as [E _]; [reflexivity | reflexivity |].
  rewrite E. reflexivity.
Defined.

(** ** The two walkers *)

Section Walkers.

Context (cfg : config) (w : services).

Lemma video_walk_Dir
    (entries : list (string * node)) (source target : string) (a p : bool) :
  Video.optimizeAndBlurImages cfg w (Dir entries) source target a p
  = forEach (fun '(file, child) =>
               Video.walk_entry cfg w source target a p file child) entries.
Proof. reflexivity. Qed.

Lemma basic_walk_Dir
    (entries : list (string * node)) (source target : string) (a p : bool) :
  Basic.optimizeAndBlurImages cfg w (Dir entries) source target a p
  = forEach (fun '(file, child) =>
               Basic.walk_entry cfg w source target a p file child) entries.
Proof. reflexivity. Qed.

Lemma walk_cons_video (file : string)
    (child : node) (rest : list (string * node)) (source target : string)
    (a p : bool) :
  Video.optimizeAndBlurImages cfg w (Dir ((file, child) :: rest)) source target a p
  = (Video.walk_entry cfg w source target a p file child ;;;
     Video.optimizeAndBlurImages cfg w (Dir rest) source target a p).
Proof. reflexivity. Qed.

Lemma walk_cons_basic (file : string)
    (child : node) (rest : list (string * node)) (source target : string)
    (a p : bool) :
  Basic.optimizeAndBlurImages cfg w (Dir ((file, child) :: rest)) source target a p
  = (Basic.walk_entry cfg w source target a p file child ;;;
     Basic.optimizeAndBlurImages cfg w (Dir rest) source target a p).
Proof. reflexivity. Qed.

Lemma sharp_pipeline_completed
    (filePath outputFilePath : string) (resize : Z -> bool) (b : bool) :
  completed (sharp_pipeline cfg w filePath outputFilePath resize b).
Proof.
  unfold sharp_pipeline. destruct (sharp_metadata w filePath); [|reflexivity].
  now destruct (sharp_toFile w _).
Qed.

Lemma sharp_pipeline_events
    (filePath outputFilePath : string) (resize : Z -> bool) (b : bool)
    (e : event) :
  e ∈ fst (sharp_pipeline cfg w filePath outputFilePath resize b) ->
  e = ConsoleError (ErrProcessing filePath)
  \/ exists width,
       e = ImageWritten
             (image_job cfg filePath outputFilePath (resize width) b).
Proof.
  unfold sharp_pipeline.
  destruct (sharp_metadata w filePath) as [width|]; cbn.
  - destruct (sharp_toFile w _); cbn; intros ->%list_elem_of_singleton; eauto.
  - intros ->%list_elem_of_singleton. now left.
Qed.

Lemma processVideo_events
    (inputPath outputPath : string) (data : bytes) (e : event) :
  e ∈ fst (Video.processVideo cfg w inputPath outputPath data) ->
  copy_or_transcode inputPath outputPath data e.
Proof.
  unfold Video.processVideo, copy_or_transcode.
  destruct (enableProcessing (video cfg)); cbn [negb].
  - destruct (ffprobe w inputPath) as [|[[ow oh]|]].
    + rewrite in_callback_events. intros [He|He]%seq_events_incl.
      * apply list_elem_of_singleton in He as ->. eauto.
      * apply copyFile_events in He as ->. eauto.
    + destruct (ffmpeg_run w _).
      * intros ->%list_elem_of_singleton. right. left. eauto.
      * intros [He|He]%seq_events_incl.
        -- apply list_elem_of_singleton in He as ->. eauto.
        -- destruct (fs_copyFileSync w inputPath outputPath);
             apply list_elem_of_singleton in He as ->; eauto.
    + rewrite in_callback_events. intros [He|He]%seq_events_incl.
      * apply list_elem_of_singleton in He as ->. eauto.
      * apply copyFile_events in He as ->. eauto.
  - intros ->%copyFile_events. eauto.
Qed.

(** With working filesystem primitives the walk of [optimize.js] runs to
    its end, whatever [sharp] answers. *)
Lemma basic_walk_total (n : node) :
  fs_total w ->
  forall source target a p,
    match n with
    | Dir _ => completed (Basic.optimizeAndBlurImages cfg w n source target a p)
    | File _ => True
    end.
Proof.
  intros Hw. induction n as [data|entries IH] using node_induction;
    intros source target a p; [exact I|].
  rewrite basic_walk_Dir. apply forEach_completed.
  rewrite Forall_forall in *. intros [file child] Hin.
  specialize (IH _ Hin). cbn in IH. unfold Basic.walk_entry.
  destruct (startsWith_dot file); [reflexivity|].
  destruct child as [data|sub].
  - unfold Basic.walk_file.
    destruct (shouldProcessFile cfg _); [|reflexivity]. cbn [negb].
    destruct (Basic.getFileType cfg _);
      first [apply sharp_pipeline_completed | now rewrite copyFile_total].
  - unfold Basic.walk_dir.
    destruct (shouldProcessFolder cfg _); cbn [negb]; [|reflexivity].
    rewrite mkdirp_total by exact Hw.
    apply seq_completed. split; [reflexivity | apply IH].
Qed.

(** The effects of the file branch, by class of file. *)
Lemma video_walk_file_events
    (filePath outputFilePath : string) (data : bytes) (a p : bool) (e : event) :
  e ∈ fst (Video.walk_file cfg w filePath outputFilePath data a p) ->
  (Video.getFileType cfg filePath = Processable
   /\ (e = ConsoleError (ErrProcessing filePath)
       \/ exists width,
            e = ImageWritten
                  (image_job cfg filePath outputFilePath
                     (Video.image_resize cfg width)
                     (a && p && shouldBlurFile cfg filePath))))
  \/ (Video.getFileType cfg filePath <> Processable
      /\ copy_or_transcode filePath outputFilePath data e).
Proof.
  unfold Video.walk_file.
  destruct (shouldProcessFile cfg filePath); cbn [negb];
    [|now intros ?%elem_of_nil].
  destruct (Video.getFileType cfg filePath).
  - intros He%sharp_pipeline_events. now left.
  - intros He%processVideo_events. now right.
  - intros ->%copyFile_events. right. split; [discriminate | now left].
  - intros ->%copyFile_events. right. split; [discriminate | now left].
Qed.

Lemma basic_walk_file_events
    (filePath outputFilePath : string) (data : bytes) (a p : bool) (e : event) :
  e ∈ fst (Basic.walk_file cfg w filePath outputFilePath data a p) ->
  (Basic.getFileType cfg filePath = Processable
   /\ (e = ConsoleError (ErrProcessing filePath)
       \/ exists width,
            e = ImageWritten
                  (image_job cfg filePath outputFilePath
                     (Basic.image_resize cfg width)
                     (a && p && shouldBlurFile cfg filePath))))
  \/ (Basic.getFileType cfg filePath <> Processable
      /\ copy_or_transcode filePath outputFilePath data e).
Proof.
  unfold Basic.walk_file.
  destruct (shouldProcessFile cfg filePath); cbn [negb];
    [|now intros ?%elem_of_nil].
  destruct (Basic.getFileType cfg filePath).
  - intros He%sharp_pipeline_events. now left.
  - intros ->%copyFile_events. right. split; [discriminate | now left].
  - intros ->%copyFile_events. right. split; [discriminate | now left].
  - intros ->%copyFile_events. right. split; [discriminate | now left].
Qed.

Lemma image_job_blur (filePath outputFilePath : string)
    (resize b : bool) :
  job_blur (image_job cfg filePath outputFilePath resize b) <> None -> b = true.
Proof. now destruct b. Qed.

Lemma copy_or_transcode_allowed
    (classify : config -> string -> file_type) (a p : bool)
    (filePath outputFilePath : string) (data : bytes) (e : event) :
  copy_or_transcode filePath outputFilePath data e ->
  image_effect_allowed cfg classify a p e /\ blur_of e = None.
Proof. intros [->|[(cmd & -> & _)|(msg & ->)]]; now split. Qed.

(** The walk invariant on images, video-capable walker. *)
Lemma video_walk_images (n : node) :
  forall source target a p e,
    e ∈ fst (Video.optimizeAndBlurImages cfg w n source target a p) ->
    image_effect_allowed cfg Video.getFileType a p e.
Proof.
  induction n as [data|entries IH] using node_induction;
    intros source target a p e He; [no_event He|].
  rewrite video_walk_Dir in He.
  apply forEach_events in He as ([file child] & Hin & He).
  rewrite Forall_forall in IH. specialize (IH _ Hin). cbn in IH.
  unfold Video.walk_entry in He.
  destruct (startsWith_dot file); [no_event He|].
  destruct child as [data|sub].
  - apply video_walk_file_events in He as [[Ht [->|[width ->]]]|[_ He]].
    + exact I.
    + split; [exact Ht|]. intros Hb%image_job_blur.
      apply andb_true_iff in Hb as [[Ha Hp]%andb_true_iff Hf].
      now repeat split.
    + now apply (copy_or_transcode_allowed Video.getFileType a p) in He.
  - unfold Video.walk_dir in He. apply seq_events_incl in He as [He|He];
      [now apply mkdirp_events in He as ->|].
    destruct (shouldProcessFolder cfg _); cbn [negb] in He.
    + apply IH in He. destruct e; try exact I.
      destruct He as [Ht Hb]. split; [exact Ht|]. intros Hn.
      destruct (Hb Hn) as (-> & [[_ ->]%andb_true_iff _]%andb_true_iff & ->).
      now repeat split.
    + apply raw_copy_is_raw in He. now destruct e.
Qed.

(** The walk invariant on images, walker of [optimize.js]. *)
Lemma basic_walk_images (n : node) :
  forall source target a p e,
    e ∈ fst (Basic.optimizeAndBlurImages cfg w n source target a p) ->
    image_effect_allowed cfg Basic.getFileType a p e.
Proof.
  induction n as [data|entries IH] using node_induction;
    intros source target a p e He; [no_event He|].
  rewrite basic_walk_Dir in He.
  apply forEach_events in He as ([file child] & Hin & He).
  rewrite Forall_forall in IH. specialize (IH _ Hin). cbn in IH.
  unfold Basic.walk_entry in He.
  destruct (startsWith_dot file); [no_event He|].
  destruct child as [data|sub].
  - apply basic_walk_file_events in He as [[Ht [->|[width ->]]]|[_ He]].
    + exact I.
    + split; [exact Ht|]. intros Hb%image_job_blur.
      apply andb_true_iff in Hb as [[Ha Hp]%andb_true_iff Hf].
      now repeat split.
    + now apply (copy_or_transcode_allowed Basic.getFileType a p) in He.
  - unfold Basic.walk_dir in He.
    destruct (shouldProcessFolder cfg _); cbn [negb] in He;
      [|no_event He].
    apply seq_events_incl in He as [He|He];
      [now apply mkdirp_events in He as ->|].
    apply IH in He. destruct e; try exact I.
    destruct He as [Ht Hb]. split; [exact Ht|]. intros Hn.
    destruct (Hb Hn) as (-> & [[_ ->]%andb_true_iff _]%andb_true_iff & ->).
    now repeat split.
Qed.

Lemma image_effect_no_blur
    (classify : config -> string -> file_type) (a p : bool) (e : event) :
  image_effect_allowed cfg classify a p e ->
  a = false \/ p = false -> blur_of e = None.
Proof.
  destruct e; try reflexivity. cbn. intros [_ H] Hap.
  destruct (job_blur job) eqn:E; [|reflexivity].
  destruct H as (-> & -> & _); [discriminate|]. now destruct Hap.
Qed.

End Walkers.

(** ** Resizing *)

(** C2, on [optimize.js]: with [image.enableResize] off, the 4000 pixel
    wide photo is still resized to 800, so the sentence does not hold for
    that walker. *)
Lemma basic_walker_resizes_without_flag :
  ~ resize_iff_enabled_and_wide Basic.getFileType Basic.walk_file.
Proof.
  intros H.
  destruct (H keep_size_config sample_world "/site/assets/web/photo.jpg"
              "/site/dist/assets/web/photo.jpg" [] false true 4000)
    as (job & E & _ & _ & _ & Hnone); try reflexivity.
  cbn in E. injection E as <-.
  discriminate Hnone. now left.
Qed.

(** C2, amended.  For a file classified optimizable-image whose width
    [sharp] reads as [width]: the video-capable walker resizes it to
    [image.maxWidth] exactly when [image.enableResize] is set and
    [width >= image.maxWidth] (inclusive), and keeps its dimensions
    otherwise; [optimize.js] has no enable flag and resizes exactly when
    [width >= image.maxWidth]. *)
Theorem image_resize_rule
    (cfg : config) (w : services) (filePath outputFilePath : string)
    (data : bytes) (applyBlur parentBlurAllowed : bool) (width : Z) :
  shouldProcessFile cfg filePath = true ->
  sharp_metadata w filePath = Some width ->
  let maxWidth := image_maxWidth (image cfg) in
  let failed := emit (ConsoleError (ErrProcessing filePath)) in
  (Video.getFileType cfg filePath = Processable ->
   exists job,
     Video.walk_file cfg w filePath outputFilePath data applyBlur
       parentBlurAllowed
     = (if sharp_toFile w job then emit (ImageWritten job) else failed)
     /\ job_input job = filePath
     /\ job_output job = outputFilePath
     /\ (image_enableResize (image cfg) = true /\ maxWidth <= width ->
         job_resize job = Some maxWidth)
     /\ (image_enableResize (image cfg) = false \/ width < maxWidth ->
         job_resize job = None))
  /\ (Basic.getFileType cfg filePath = Processable ->
      exists job,
        Basic.walk_file cfg w filePath outputFilePath data applyBlur
          parentBlurAllowed
        = (if sharp_toFile w job then emit (ImageWritten job) else failed)
        /\ job_input job = filePath
        /\ job_output job = outputFilePath
        /\ (maxWidth <= width -> job_resize job = Some maxWidth)
        /\ (width < maxWidth -> job_resize job = None)).
Proof.
  intros Hp Hm maxWidth failed. split; intros Ht.
  - eexists. unfold Video.walk_file, sharp_pipeline.
    rewrite Hp, Ht, Hm. cbn [negb]. split; [reflexivity|].
    cbn [image_job job_input job_output job_resize].
    unfold Video.image_resize. fold maxWidth.
    repeat split.
    + intros [-> Hle]. apply Z.leb_le in Hle. now rewrite Hle.
    + intros [->|Hlt]; [reflexivity|].
      apply Z.leb_gt in Hlt. rewrite Hlt. now destruct (image_enableResize _).
  - eexists. unfold Basic.walk_file, sharp_pipeline.
    rewrite Hp, Ht, Hm. cbn [negb]. split; [reflexivity|].
    cbn [image_job job_input job_output job_resize].
    unfold Basic.image_resize. fold maxWidth.
    repeat split.
    + intros Hle. apply Z.leb_le in Hle. now rewrite Hle.
    + intros Hlt. apply Z.leb_gt in Hlt. now rewrite Hlt.
Qed.

Lemma image_resize_rule_witness :
  exists job,
    Video.walk_file keep_size_config sample_world "/site/assets/web/photo.jpg"
      "/site/dist/assets/web/photo.jpg" [] false true
    = (if sharp_toFile sample_world job then emit (ImageWritten job)
       else emit (ConsoleError (ErrProcessing "/site/assets/web/photo.jpg")))
    /\ job_resize job = None.
Proof.
  destruct (image_resize_rule keep_size_config sample_world
              "/site/assets/web/photo.jpg" "/site/dist/assets/web/photo.jpg"
              [] false true 4000) as [HV _]; [reflexivity | reflexivity |].
  destruct (HV eq_refl) as (job & E & _ & _ & _ & Hnone).
  exists job. split; [exact E|]. apply Hnone. now left.
Defined.

(** C8. For a video file that is processed (processing enabled, a video
    stream of [originalWidth] x [originalHeight] found), the command handed
    to [ffmpeg] carries [.size(maxWidth x maxHeight)] exactly when
    [video.enableResize] is set and the width is strictly above
    [video.maxWidth] or the height strictly above [video.maxHeight];
    otherwise it carries no size. *)
Theorem video_resize_rule
    (cfg : config) (w : services) (filePath outputFilePath : string)
    (data : bytes) (applyBlur parentBlurAllowed : bool)
    (originalWidth originalHeight : Z) :
  shouldProcessFile cfg filePath = true ->
  Video.getFileType cfg filePath = VideoType ->
  enableProcessing (video cfg) = true ->
  ffprobe w filePath = ProbeStreams (Some (originalWidth, originalHeight)) ->
  let maxWidth := video_maxWidth (video cfg) in
  let maxHeight := video_maxHeight (video cfg) in
  let command :=
    Video.video_command cfg filePath outputFilePath originalWidth
      originalHeight in
  (ffmpeg_run w command = true ->
   Video.walk_file cfg w filePath outputFilePath data applyBlur
     parentBlurAllowed = emit (VideoWritten command))
  /\ (video_enableResize (video cfg) = true
      /\ (maxWidth < originalWidth \/ maxHeight < originalHeight) ->
      cmd_size command = Some (maxWidth, maxHeight))
  /\ (video_enableResize (video cfg) = false
      \/ (originalWidth <= maxWidth /\ originalHeight <= maxHeight) ->
      cmd_size command = None).
Proof.
  intros Hp Ht He Hprobe maxWidth maxHeight command. repeat split.
  - intros Hrun. unfold Video.walk_file, Video.processVideo.
    rewrite Hp, Ht, He, Hprobe. cbn [negb]. fold command. now rewrite Hrun.
  - intros [Hr Hbig]. subst command. cbn [Video.video_command cmd_size].
    rewrite Hr. unfold Video.needsResize. fold maxWidth maxHeight.
    destruct Hbig as [H|H]; apply Z.ltb_lt in H; rewrite H;
      [reflexivity | now rewrite orb_true_r].
  - intros Hsmall. subst command. cbn [Video.video_command cmd_size].
    destruct Hsmall as [->|[Hw Hh]]; [reflexivity|].
    unfold Video.needsResize. fold maxWidth maxHeight.
    apply Z.ltb_ge in Hw, Hh. rewrite Hw, Hh.
    now destruct (video_enableResize _).
Qed.

Lemma video_resize_rule_witness :
  Video.walk_file sample_config sample_world "/site/assets/clip.webm"
    "/site/dist/assets/clip.webm" [] true true
  = emit (VideoWritten
            (Video.video_command sample_config "/site/assets/clip.webm"
               "/site/dist/assets/clip.webm" 3840 2160))
  /\ cmd_size (Video.video_command sample_config "/site/assets/clip.webm"
                 "/site/dist/assets/clip.webm" 3840 2160)
     = Some (1920, 1080).
Proof.
  destruct (video_resize_rule sample_config sample_world
              "/site/assets/clip.webm" "/site/dist/assets/clip.webm" []
              true true 3840 2160) as (Hrun & Hsize & _);
    [reflexivity | reflexivity | reflexivity | reflexivity |].
  split; [now apply Hrun|]. apply Hsize. split; [reflexivity|]. left. reflexivity.
Defined.

(** ** Failures of the media services *)

(** C6. The claim at a failing input.  On a fresh checkout [dist/assets]
    does not exist ([build] creates [dist] only), so the copy of a
    top-level file into it throws.  With a video the probe rejects, that
    copy is the fallback made in the [ffprobe] callback, outside every
    [try]: the process ends there with exit code 1, after the error line,
    and the entries that follow are never visited.  The same failing copy
    in the [error] handler of the transcode sits in a [try]/[catch]: one
    more error line, and the walk goes on to the next entry with exit
    code 0. *)
Theorem video_fallback_copy_aborts_build :
  Video.build sample_config fresh_checkout_world false "/site" "/site/dist"
    fresh_checkout_assets
  = ([Mkdir "/site/dist"; ConsoleError ErrVideoMetadata], 1)
  /\ Video.build sample_config failed_transcode_world false "/site"
       "/site/dist" fresh_checkout_assets
     = ([Mkdir "/site/dist";
         ConsoleError (ErrProcessingVideo "/site/assets/clip.webm");
         ConsoleError ErrCopyVideo;
         Mkdir "/site/dist/assets/web";
         ImageWritten
           (image_job sample_config "/site/assets/web/photo.jpg"
              "/site/dist/assets/web/photo.jpg" true false)], 0).
Proof. split; reflexivity. Qed.

(** C7. A visible file classified optimizable-image whose transform fails
    (metadata read or pipeline rejected): in both walkers the entry leaves
    one error line and nothing else, so no output is written for it and
    no copy is made, and the loop goes on with the remaining entries. *)
Theorem image_failure_logged_and_skipped
    (cfg : config) (w : services) (source target : string)
    (applyBlur parentBlurAllowed : bool) (file : string) (data : bytes)
    (rest : list (string * node)) :
  let filePath := path_join source file in
  let outputFilePath := path_join target file in
  let shouldBlurThisFile :=
    applyBlur && parentBlurAllowed && shouldBlurFile cfg filePath in
  let logged := ConsoleError (ErrProcessing filePath) in
  startsWith_dot file = false ->
  shouldProcessFile cfg filePath = true ->
  (Video.getFileType cfg filePath = Processable ->
   transform_fails cfg w filePath outputFilePath (Video.image_resize cfg)
     shouldBlurThisFile ->
   let remaining :=
     Video.optimizeAndBlurImages cfg w (Dir rest) source target applyBlur
       parentBlurAllowed in
   Video.walk_entry cfg w source target applyBlur parentBlurAllowed
     file (File data) = ([logged], Completed)
   /\ Video.optimizeAndBlurImages cfg w (Dir ((file, File data) :: rest))
        source target applyBlur parentBlurAllowed
      = (logged :: fst remaining, snd remaining))
  /\ (Basic.getFileType cfg filePath = Processable ->
      transform_fails cfg w filePath outputFilePath (Basic.image_resize cfg)
        shouldBlurThisFile ->
      let remaining :=
        Basic.optimizeAndBlurImages cfg w (Dir rest) source target applyBlur
          parentBlurAllowed in
      Basic.walk_entry cfg w source target applyBlur parentBlurAllowed
        file (File data) = ([logged], Completed)
      /\ Basic.optimizeAndBlurImages cfg w (Dir ((file, File data) :: rest))
           source target applyBlur parentBlurAllowed
         = (logged :: fst remaining, snd remaining))
  /\ (forall o : gmap string out_entry, output_after [logged] o = o)
  /\ event_target logged = None.
Proof.
  intros filePath outputFilePath shouldBlurThisFile logged Hh Hp.
  split; [|split; [|split; reflexivity]].
  - intros Ht Hfail remaining.
    assert (E : Video.walk_entry cfg w source target applyBlur
                  parentBlurAllowed file (File data) = ([logged], Completed)).
    { unfold Video.walk_entry, Video.walk_file.
      fold filePath outputFilePath. rewrite Hh, Hp, Ht. cbn [negb].
      fold shouldBlurThisFile. unfold sharp_pipeline.
      unfold transform_fails in Hfail.
      destruct (sharp_metadata w filePath); [|reflexivity].
      now rewrite Hfail. }
    split; [exact E|]. rewrite walk_cons_video, E. reflexivity.
  - intros Ht Hfail remaining.
    assert (E : Basic.walk_entry cfg w source target applyBlur
                  parentBlurAllowed file (File data) = ([logged], Completed)).
    { unfold Basic.walk_entry, Basic.walk_file.
      fold filePath outputFilePath. rewrite Hh, Hp, Ht. cbn [negb].
      fold shouldBlurThisFile. unfold sharp_pipeline.
      unfold transform_fails in Hfail.
      destruct (sharp_metadata w filePath); [|reflexivity].
      now rewrite Hfail. }
    split; [exact E|]. rewrite walk_cons_basic, E. reflexivity.
Qed.

Lemma image_failure_logged_and_skipped_witness :
  Video.walk_entry sample_config no_sharp_world "/site/assets/web"
    "/site/dist/assets/web" true true "photo.jpg" (File [Byte.xff; Byte.xd8])
  = ([ConsoleError (ErrProcessing "/site/assets/web/photo.jpg")], Completed).
Proof.
  destruct (image_failure_logged_and_skipped sample_config no_sharp_world
              "/site/assets/web" "/site/dist/assets/web" true true "photo.jpg"
              [Byte.xff; Byte.xd8] [])
    as (HV & _); [reflexivity | reflexivity |].
  now apply HV.
Defined.

(** ** Blur *)

(** C3. For a visible directory entry that passes the folder-process
    policy, both walkers recurse with the blur state
    [applyBlur && parentBlurAllowed && shouldBlurFolder(entry)]; that state
    can only fall on the way down; a walk started with the blur state off
    blurs nothing at any depth; hence once the entry's blur rule (or any
    blur state above it) is false, nothing below the entry is blurred,
    whatever the blur rules further down say. *)
Theorem blur_propagates_down
    (cfg : config) (w : services) (source target : string)
    (applyBlur parentBlurAllowed : bool) (file : string)
    (sub : list (string * node)) :
  let filePath := path_join source file in
  let outputFilePath := path_join target file in
  let blurForThisFolder :=
    applyBlur && parentBlurAllowed && shouldBlurFolder cfg filePath in
  startsWith_dot file = false ->
  shouldProcessFolder cfg filePath = true ->
  Video.walk_entry cfg w source target applyBlur parentBlurAllowed
    file (Dir sub)
  = (mkdirp w outputFilePath ;;;
     Video.optimizeAndBlurImages cfg w (Dir sub) filePath outputFilePath
       applyBlur blurForThisFolder)
  /\ Basic.walk_entry cfg w source target applyBlur parentBlurAllowed
       file (Dir sub)
     = (mkdirp w outputFilePath ;;;
        Basic.optimizeAndBlurImages cfg w (Dir sub) filePath outputFilePath
          applyBlur blurForThisFolder)
  /\ (blurForThisFolder = true -> parentBlurAllowed = true)
  /\ (forall n s t e,
        e ∈ fst (Video.optimizeAndBlurImages cfg w n s t applyBlur false)
        \/ e ∈ fst (Basic.optimizeAndBlurImages cfg w n s t applyBlur false) ->
        blur_of e = None)
  /\ (parentBlurAllowed = false \/ shouldBlurFolder cfg filePath = false ->
      forall e,
        e ∈ fst (Video.walk_entry cfg w source target applyBlur
                   parentBlurAllowed file (Dir sub))
        \/ e ∈ fst (Basic.walk_entry cfg w source target applyBlur
                      parentBlurAllowed file (Dir sub)) ->
        blur_of e = None).
Proof.
  intros filePath outputFilePath blurForThisFolder Hh Hp.
  assert (EV : Video.walk_entry cfg w source target applyBlur
                 parentBlurAllowed file (Dir sub)
               = (mkdirp w outputFilePath ;;;
                  Video.optimizeAndBlurImages cfg w (Dir sub) filePath
                    outputFilePath applyBlur blurForThisFolder)).
  { unfold Video.walk_entry, Video.walk_dir. fold filePath outputFilePath.
    now rewrite Hh, Hp. }
  assert (EB : Basic.walk_entry cfg w source target applyBlur
                 parentBlurAllowed file (Dir sub)
               = (mkdirp w outputFilePath ;;;
                  Basic.optimizeAndBlurImages cfg w (Dir sub) filePath
                    outputFilePath applyBlur blurForThisFolder)).
  { unfold Basic.walk_entry, Basic.walk_dir. fold filePath outputFilePath.
    now rewrite Hh, Hp. }
  assert (Hoff : forall n s t e,
             e ∈ fst (Video.optimizeAndBlurImages cfg w n s t applyBlur false)
             \/ e ∈ fst (Basic.optimizeAndBlurImages cfg w n s t applyBlur false) ->
             blur_of e = None).
  { intros n s t e [He|He].
    - apply video_walk_images in He.
      apply (image_effect_no_blur _ _ _ _ _ He). now right.
    - apply basic_walk_images in He.
      apply (image_effect_no_blur _ _ _ _ _ He). now right. }
  split; [exact EV|]. split; [exact EB|]. split; [|split; [exact Hoff|]].
  - subst blurForThisFolder. now intros [[_ ->]%andb_true_iff _]%andb_true_iff.
  - intros Hfalse e He.
    assert (Eoff : blurForThisFolder = false).
    { subst blurForThisFolder. destruct Hfalse as [-> | ->];
        [now rewrite andb_false_r | now rewrite andb_false_r]. }
    rewrite EV, EB, Eoff in He.
    destruct He as [[He|He]%seq_events_incl|[He|He]%seq_events_incl].
    + now apply mkdirp_events in He as ->.
    + apply (Hoff (Dir sub) filePath outputFilePath). now left.
    + now apply mkdirp_events in He as ->.
    + apply (Hoff (Dir sub) filePath outputFilePath). now right.
Qed.

Lemma blur_propagates_down_witness :
  Forall (fun e => blur_of e = None)
    (fst (Video.walk_entry sample_config sample_world "/site/assets"
            "/site/dist/assets" true true "team" (Dir team_folder))).
Proof.
  destruct (blur_propagates_down sample_config sample_world "/site/assets"
              "/site/dist/assets" true true "team" team_folder)
    as (_ & _ & _ & _ & Hno); [reflexivity | reflexivity |].
  apply Forall_forall. intros e He. apply Hno; [right; reflexivity | now left].
Defined.

(** C10. In both walkers an effect that applies blur is the [sharp] output
    of a file classified optimizable-image (and the flag, the blur state
    and the file's blur rule all allow it); a visible file of any other
    class only ever leaves copies of itself, [ffmpeg] outputs made from it
    and error lines, none of which carries a blur. *)
Theorem blur_only_on_optimizable_images
    (cfg : config) (w : services) (n : node) (source target : string)
    (applyBlur parentBlurAllowed : bool) (e : event) :
  blur_of e <> None ->
  (e ∈ fst (Video.optimizeAndBlurImages cfg w n source target applyBlur
              parentBlurAllowed) ->
   exists job,
     e = ImageWritten job
     /\ Video.getFileType cfg (job_input job) = Processable
     /\ applyBlur = true /\ shouldBlurFile cfg (job_input job) = true)
  /\ (e ∈ fst (Basic.optimizeAndBlurImages cfg w n source target applyBlur
                 parentBlurAllowed) ->
      exists job,
        e = ImageWritten job
        /\ Basic.getFileType cfg (job_input job) = Processable
        /\ applyBlur = true /\ shouldBlurFile cfg (job_input job) = true)
  /\ (forall file data e',
        startsWith_dot file = false ->
        let filePath := path_join source file in
        let outputFilePath := path_join target file in
        (Video.getFileType cfg filePath <> Processable ->
         e' ∈ fst (Video.walk_entry cfg w source target applyBlur
                     parentBlurAllowed file (File data)) ->
         copy_or_transcode filePath outputFilePath data e'
         /\ blur_of e' = None)
        /\ (Basic.getFileType cfg filePath <> Processable ->
            e' ∈ fst (Basic.walk_entry cfg w source target applyBlur
                        parentBlurAllowed file (File data)) ->
            copy_or_transcode filePath outputFilePath data e'
            /\ blur_of e' = None)).
Proof.
  intros Hb. split; [|split].
  - intros He%video_walk_images. destruct e; try now destruct Hb.
    destruct He as [Ht Hall]. destruct (Hall Hb) as (-> & _ & Hf).
    exists job. now repeat split.
  - intros He%basic_walk_images. destruct e; try now destruct Hb.
    destruct He as [Ht Hall]. destruct (Hall Hb) as (-> & _ & Hf).
    exists job. now repeat split.
  - intros file data e' Hh filePath outputFilePath. split.
    + intros Ht He. unfold Video.walk_entry in He. rewrite Hh in He.
      apply video_walk_file_events in He as [[Ht' _]|[_ He]];
        [now destruct Ht|].
      split; [exact He|].
      now apply (copy_or_transcode_allowed cfg Video.getFileType
                   applyBlur parentBlurAllowed) in He.
    + intros Ht He. unfold Basic.walk_entry in He. rewrite Hh in He.
      apply basic_walk_file_events in He as [[Ht' _]|[_ He]];
        [now destruct Ht|].
      split; [exact He|].
      now apply (copy_or_transcode_allowed cfg Basic.getFileType
                   applyBlur parentBlurAllowed) in He.
Qed.

Lemma blur_only_on_optimizable_images_witness :
  exists job,
    ImageWritten (image_job sample_config "/site/assets/web/photo.jpg"
                    "/site/dist/assets/web/photo.jpg" true true)
    = ImageWritten job
    /\ Video.getFileType sample_config (job_input job) = Processable
    /\ true = true
    /\ shouldBlurFile sample_config (job_input job) = true.
Proof.
  destruct (blur_only_on_optimizable_images sample_config sample_world
              (Dir [("photo.jpg", File [Byte.xff; Byte.xd8])])
              "/site/assets/web" "/site/dist/assets/web" true true
              (ImageWritten (image_job sample_config
                               "/site/assets/web/photo.jpg"
                               "/site/dist/assets/web/photo.jpg" true true)))
    as (HV & _); [discriminate|].
  apply HV. left.
Defined.


(** ** The scenarios of the specification, run on the model *)

Example path_basename_examples :
  path_basename "/site/assets/web/photo.JPG" = "photo.JPG"
  /\ path_basename "/site/assets/web//" = "web"
  /\ path_basename "photo.jpg" = "photo.jpg"
  /\ path_basename "/" = EmptyString.
Proof. repeat split. Qed.

Example path_extname_examples :
  path_extname "/site/assets/web/photo.JPG" = ".JPG"
  /\ path_extname "/site/assets.d/web" = EmptyString
  /\ path_extname "archive.tar.gz" = ".gz"
  /\ path_extname ".bashrc" = EmptyString
  /\ path_extname ".." = EmptyString
  /\ path_extname "name." = ".".
Proof. repeat split. Qed.

Example path_dirname_examples :
  path_dirname "/site/dist/assets/clip.webm" = "/site/dist/assets"
  /\ path_dirname "clip.webm" = "."
  /\ path_dirname "/clip.webm" = "/".
Proof. repeat split. Qed.

(** Scenarios 1, 2, 3 and 5 with the blur flag, probe working: the photo
    below [raw] is copied, the one below [web] is resized to 800 and
    blurred, [team] is optimised without blur, [gallery] with it, the video
    is transcoded, [cache.tmp] and the hidden file leave no trace. *)
Example scenarios_video_walker :
  Video.build sample_config sample_world true "/site" "/site/dist"
    scenario_assets
  = ([Mkdir "/site/dist";
      Mkdir "/site/dist/assets/raw";
      Copied "/site/assets/raw/photo.jpg" "/site/dist/assets/raw/photo.jpg"
        jpeg_bytes;
      Mkdir "/site/dist/assets/web";
      ImageWritten
        (image_job sample_config "/site/assets/web/photo.jpg"
           "/site/dist/assets/web/photo.jpg" true true);
      Mkdir "/site/dist/assets/team";
      ImageWritten
        (image_job sample_config "/site/assets/team/ceo.jpg"
           "/site/dist/assets/team/ceo.jpg" true false);
      Mkdir "/site/dist/assets/gallery";
      ImageWritten
        (image_job sample_config "/site/assets/gallery/art.jpg"
           "/site/dist/assets/gallery/art.jpg" true true);
      VideoWritten
        (Video.video_command sample_config "/site/assets/clip.webm"
           "/site/dist/assets/clip.webm" 3840 2160)], 0).
Proof. reflexivity. Qed.

(** The same tree through [optimize.js]: [raw] is skipped and the video
    is copied as any other file. *)
Example scenarios_basic_walker :
  Basic.build sample_config sample_world true "/site" "/site/dist"
    scenario_assets
  = ([Mkdir "/site/dist";
      Mkdir "/site/dist/assets/web";
      ImageWritten
        (image_job sample_config "/site/assets/web/photo.jpg"
           "/site/dist/assets/web/photo.jpg" true true);
      Mkdir "/site/dist/assets/team";
      ImageWritten
        (image_job sample_config "/site/assets/team/ceo.jpg"
           "/site/dist/assets/team/ceo.jpg" true false);
      Mkdir "/site/dist/assets/gallery";
      ImageWritten
        (image_job sample_config "/site/assets/gallery/art.jpg"
           "/site/dist/assets/gallery/art.jpg" true true);
      Copied "/site/assets/clip.webm" "/site/dist/assets/clip.webm"
        webm_bytes], 0).
Proof. reflexivity. Qed.

(** Scenario 3: the probe fails, the video is copied, exit code 0; the
    output holds the original bytes. *)
Example scenario_probe_fails :
  let '(t, code) :=
    Video.build sample_config no_probe_world false "/site" "/site/dist"
      (Dir [("media", Dir [("clip.webm", File webm_bytes)])]) in
  code = 0
  /\ output_after t ∅ !! "/site/dist/assets/media/clip.webm"
     = Some (OFile webm_bytes).
Proof. split; reflexivity. Qed.

(** Scenario 4: only [hero.jpg] is blurred. *)
Example scenario_blur_include :
  fst (Video.build hero_config sample_world true "/site" "/site/dist"
         hero_assets)
  = [Mkdir "/site/dist";
     Mkdir "/site/dist/assets/home";
     ImageWritten
       (image_job hero_config "/site/assets/home/hero.jpg"
          "/site/dist/assets/home/hero.jpg" true true);
     ImageWritten
       (image_job hero_config "/site/assets/home/other.jpg"
          "/site/dist/assets/home/other.jpg" true false)].
Proof. reflexivity. Qed.

(** When the copy after a failed probe throws, the exception leaves the
    [ffprobe] callback uncaught; the same throw in the [error] handler of
    the transcode is caught there. *)
Example fallback_copy_throws_after_probe :
  Video.processVideo sample_config no_probe_no_copy_world
    "/site/assets/clip.webm" "/site/dist/assets/clip.webm" webm_bytes
  = ([ConsoleError ErrVideoMetadata],
     Crashed (CopyFailed "/site/assets/clip.webm" "/site/dist/assets/clip.webm")).
Proof. reflexivity. Qed.

(** ** Further properties of the policy predicates and the classifier *)

(** X1. [shouldBlurFolder], for a path whose basename is [N]: with a
    non-empty [blur.folders.include] it answers true exactly when [N] is in
    that list; otherwise exactly when [N] is not in [blur.folders.exclude].
    The processing policy plays no part. *)
Theorem shouldBlurFolder_include_then_exclude
    (cfg : config) (folderPath N : string) :
  path_basename folderPath = N ->
  (include_items (blur_folders (blur cfg)) <> [] ->
     (shouldBlurFolder cfg folderPath = true
      <-> N ∈ include_items (blur_folders (blur cfg))))
  /\ (include_items (blur_folders (blur cfg)) = [] ->
        (shouldBlurFolder cfg folderPath = true
         <-> N ∉ exclude (blur_folders (blur cfg)))).
Proof.
  intros <-. unfold shouldBlurFolder. split.
  - intros H%has_items_true. rewrite H. apply includes_elem_of.
  - intros H%has_items_false. rewrite H, negb_true_iff.
    rewrite <- includes_elem_of. symmetry. apply not_true_iff_false.
Qed.

Lemma shouldBlurFolder_include_then_exclude_witness :
  path_basename "/site/assets/team" = "team"
  /\ (shouldBlurFolder sample_config "/site/assets/team" = true
      <-> "team" ∉ exclude (blur_folders (blur sample_config))).
Proof.
  split; [reflexivity|].
  apply (shouldBlurFolder_include_then_exclude sample_config
           "/site/assets/team" "team"); reflexivity.
Defined.

(** X2. [shouldBlurFile], for a path whose basename is [name]: a name in
    [blur.files.exclude] is never blurred, even when [blur.files.include]
    holds it too; otherwise a non-empty include list is an allow-list and
    an empty one lets every file through.  The extension plays no part. *)
Theorem shouldBlurFile_exclusion_wins
    (cfg : config) (filePath name : string) :
  path_basename filePath = name ->
  (name ∈ exclude (blur_files (blur cfg)) -> shouldBlurFile cfg filePath = false)
  /\ (name ∉ exclude (blur_files (blur cfg)) ->
      (include_items (blur_files (blur cfg)) <> [] ->
         (shouldBlurFile cfg filePath = true
          <-> name ∈ include_items (blur_files (blur cfg))))
      /\ (include_items (blur_files (blur cfg)) = [] ->
            shouldBlurFile cfg filePath = true)).
Proof.
  intros <-. unfold shouldBlurFile. split.
  - intros H%includes_elem_of. now rewrite H.
  - intros Hn.
    destruct (includes (exclude (blur_files (blur cfg))) _) eqn:E;
      [now apply includes_elem_of in E|].
    split.
    + intros H%has_items_true. rewrite H. apply includes_elem_of.
    + intros H%has_items_false. now rewrite H.
Qed.

Lemma shouldBlurFile_exclusion_wins_witness :
  shouldBlurFile bare_config "/site/assets/web/logo.png" = false.
Proof.
  apply (shouldBlurFile_exclusion_wins bare_config
           "/site/assets/web/logo.png" "logo.png"); [reflexivity|].
  repeat constructor.
Defined.

Lemma explicit_policy_items (p : policy) :
  has_items (explicit_policy p) = has_items p
  /\ include_items (explicit_policy p) = include_items p
  /\ exclude (explicit_policy p) = exclude p.
Proof.
  unfold has_items, include_items, explicit_policy. cbn.
  destruct p as [[[|x l]|] ex]; repeat split.
Qed.

(** X3. A missing [include] key behaves as an empty include list: writing
    every absent key out as [[]] changes none of the four predicates (the
    guard [x.include && x.include.length > 0] reads both as "no allow-list"). *)
Theorem absent_include_is_empty_include (cfg : config) (p : string) :
  shouldProcessFolder (explicit_includes cfg) p = shouldProcessFolder cfg p
  /\ shouldProcessFile (explicit_includes cfg) p = shouldProcessFile cfg p
  /\ shouldBlurFolder (explicit_includes cfg) p = shouldBlurFolder cfg p
  /\ shouldBlurFile (explicit_includes cfg) p = shouldBlurFile cfg p.
Proof.
  unfold shouldProcessFolder, shouldProcessFile, shouldBlurFolder,
    shouldBlurFile, explicit_includes. cbn [folders files blur extensions
    blur_folders blur_files].
  destruct (explicit_policy_items (folders cfg)) as (-> & -> & ->).
  destruct (explicit_policy_items (files cfg)) as (-> & -> & ->).
  destruct (explicit_policy_items (blur_folders (blur cfg))) as (-> & -> & ->).
  destruct (explicit_policy_items (blur_files (blur cfg))) as (-> & -> & ->).
  repeat split.
Qed.

Lemma lower_ascii_slash (c : ascii) : is_slash (lower_ascii c) = is_slash c.
Proof. destruct c as [[] [] [] [] [] [] [] []]; reflexivity. Qed.

Lemma lower_ascii_dot (c : ascii) : is_dot (lower_ascii c) = is_dot c.
Proof. destruct c as [[] [] [] [] [] [] [] []]; reflexivity. Qed.

Lemma lower_ascii_idem (c : ascii) : lower_ascii (lower_ascii c) = lower_ascii c.
Proof. destruct c as [[] [] [] [] [] [] [] []]; reflexivity. Qed.

Lemma chars_toLowerCase (s : string) :
  chars (toLowerCase s) = map lower_ascii (chars s).
Proof. unfold toLowerCase. apply chars_str. Qed.

Lemma toLowerCase_idem (s : string) : toLowerCase (toLowerCase s) = toLowerCase s.
Proof.
  apply chars_inj. rewrite !chars_toLowerCase, map_map.
  apply map_ext. intros c. apply lower_ascii_idem.
Qed.

Lemma ext_step_lower (c : ascii) (st : ext_state) :
  ext_step (lower_ascii c) (lower_state st) = lower_state (ext_step c st).
Proof.
  unfold ext_step. rewrite lower_ascii_dot.
  destruct (is_dot c), st as [s p [d|] n]; reflexivity.
Qed.

Lemma extname_scan_lower (rp : list ascii) (st : ext_state) :
  extname_scan (map lower_ascii rp) (lower_state st)
  = lower_state (extname_scan rp st).
Proof.
  revert st. induction rp as [|c rp IH]; intros st; [reflexivity|].
  cbn [map extname_scan]. rewrite lower_ascii_slash.
  destruct (is_slash c).
  - change (seen_end (lower_state st)) with (seen_end st).
    destruct (seen_end st); [reflexivity | apply IH].
  - rewrite ext_step_lower. apply IH.
Qed.

Lemma ext_result_lower (st : ext_state) :
  ext_result (lower_state st) = map lower_ascii (ext_result st).
Proof.
  unfold ext_result. destruct st as [s p [d|] n]; cbn; [|reflexivity].
  rewrite !length_map.
  destruct s; cbn; [|reflexivity].
  destruct (n =? 0); [reflexivity|].
  now destruct ((n =? 1) && (length d =? 1)%nat && (length p =? 2)%nat).
Qed.

(** Lowercasing a path lowercases its extension. *)
Lemma path_extname_toLowerCase (p : string) :
  path_extname (toLowerCase p) = toLowerCase (path_extname p).
Proof.
  apply chars_inj. unfold path_extname.
  rewrite (chars_toLowerCase (str _)), !chars_str, chars_toLowerCase.
  rewrite <- map_rev.
  change (extname_scan (map lower_ascii (rev (chars p))) ext_init)
    with (extname_scan (map lower_ascii (rev (chars p))) (lower_state ext_init)).
  now rewrite extname_scan_lower, ext_result_lower.
Qed.

Lemma lowercased_extension (p1 p2 : string) :
  toLowerCase (path_basename p1) = toLowerCase (path_basename p2) ->
  toLowerCase (path_extname p1) = toLowerCase (path_extname p2).
Proof.
  intros H.
  rewrite <- (path_extname_basename p1), <- (path_extname_basename p2).
  now rewrite <- !path_extname_toLowerCase, H.
Qed.

(** X4. For names written in ASCII, the classifier of either script reads
    nothing but the extension of the last portion of the path, letter case
    apart: two paths whose last portions are ASCII and differ at most in
    letter case (and in their directories) are classified alike, and the
    extension-exclusion test of [shouldProcessFile] sees the same
    extension for both. *)
Theorem getFileType_ignores_case_and_directory
    (cfg : config) (p1 p2 : string) :
  ascii_only (path_basename p1) = true ->
  ascii_only (path_basename p2) = true ->
  toLowerCase (path_basename p1) = toLowerCase (path_basename p2) ->
  Video.getFileType cfg p1 = Video.getFileType cfg p2
  /\ Basic.getFileType cfg p1 = Basic.getFileType cfg p2
  /\ includes (ext_exclude (extensions cfg)) (toLowerCase (path_extname p1))
     = includes (ext_exclude (extensions cfg)) (toLowerCase (path_extname p2)).
Proof.
  intros _ _ H%lowercased_extension.
  unfold Video.getFileType, Basic.getFileType. now rewrite H.
Qed.

Lemma getFileType_ignores_case_and_directory_witness :
  Video.getFileType sample_config "/site/assets/web/Photo.JPG"
  = Video.getFileType sample_config "/elsewhere/photo.jpg"
  /\ Basic.getFileType sample_config "/site/assets/web/Photo.JPG"
     = Basic.getFileType sample_config "/elsewhere/photo.jpg"
  /\ includes (ext_exclude (extensions sample_config))
       (toLowerCase (path_extname "/site/assets/web/Photo.JPG"))
     = includes (ext_exclude (extensions sample_config))
         (toLowerCase (path_extname "/elsewhere/photo.jpg")).
Proof.
  apply (getFileType_ignores_case_and_directory sample_config
           "/site/assets/web/Photo.JPG" "/elsewhere/photo.jpg");
    [reflexivity | reflexivity | reflexivity].
Defined.

(** ** The [ffmpeg] command of [processVideo] *)

Lemma dirname_scan_name (l rest : list ascii) (m : bool) :
  l <> [] -> no_slash l = true -> rest <> [] ->
  dirname_scan (l ++ "/"%char :: rest) m = Some rest.
Proof.
  intros Hl Hs Hr. revert m. induction l as [|c l IH]; intros m; [congruence|].
  cbn in Hs. apply andb_true_iff in Hs as [Hc Hs].
  apply negb_true_iff in Hc.
  destruct l as [|d l].
  - cbn. rewrite Hc. destruct rest as [|r rest]; [congruence|]. reflexivity.
  - cbn [app dirname_scan]. rewrite Hc.
    change (dirname_scan ((d :: l) ++ "/"%char :: rest) false = Some rest).
    now apply IH.
Qed.

(** The directory of [path.join(dir, name)] is [dir]. *)
Lemma path_dirname_join (dir name : string) :
  valid_name name = true -> dir <> EmptyString -> dir <> "/" ->
  path_dirname (path_join dir name) = dir.
Proof.
  intros [Hne Hns]%valid_name_chars Hd Hroot. unfold path_dirname.
  rewrite chars_path_join.
  destruct (chars dir) as [|c0 cs] eqn:Ed.
  { destruct dir; [congruence | discriminate Ed]. }
  cbn [app]. change (c0 :: cs ++ "/"%char :: chars name)
    with ((c0 :: cs) ++ "/"%char :: chars name).
  rewrite rev_app_distr. cbn [rev]. rewrite <- app_assoc. cbn [app].
  rewrite dirname_scan_name.
  - destruct (is_slash c0 && (length (rev cs ++ [c0]) =? 1)%nat) eqn:E.
    + exfalso. apply andb_true_iff in E as [Hc Hl].
      apply Nat.eqb_eq in Hl. rewrite length_app, length_rev in Hl. cbn in Hl.
      destruct cs; [|cbn in Hl; lia].
      apply Hroot, chars_inj. rewrite Ed. cbn.
      unfold is_slash in Hc. apply Ascii.eqb_eq in Hc. now subst.
    + change (rev cs ++ [c0]) with (rev (c0 :: cs)).
      rewrite rev_involutive, <- Ed. apply str_chars.
  - intros E. apply Hne. now rewrite <- (rev_involutive (chars name)), E.
  - now rewrite no_slash_rev.
  - now destruct (rev cs).
Qed.

Lemma ext_step_invariant (c : ascii) (st : ext_state) :
  ext_invariant st -> ext_invariant (ext_step c st).
Proof.
  unfold ext_invariant, ext_step.
  destruct (is_dot c), (dot st) as [d|]; cbn.
  - intros (pre & -> & _). exists (c :: pre). now split.
  - intros ->. exists []. now split.
  - intros (pre & -> & _). exists (c :: pre). now split.
  - trivial.
Qed.

Lemma extname_scan_no_slash (l : list ascii) (st : ext_state) :
  no_slash l = true -> ext_invariant st ->
  ext_invariant (extname_scan l st)
  /\ part (extname_scan l st) = rev l ++ part st.
Proof.
  revert st. induction l as [|c l IH]; intros st Hs Hi; [now split|].
  cbn in Hs. apply andb_true_iff in Hs as [Hc Hs]. apply negb_true_iff in Hc.
  cbn [extname_scan]. rewrite Hc.
  destruct (IH (ext_step c st) Hs (ext_step_invariant c st Hi)) as [H1 H2].
  split; [exact H1|]. rewrite H2. cbn [rev]. rewrite <- app_assoc.
  f_equal. unfold ext_step. now destruct (is_dot c), (dot st).
Qed.

(** The extension of a name is a tail of the name, and a non-empty
    extension leaves a non-empty stem. *)
Lemma path_extname_tail (name : string) :
  no_slash (chars name) = true ->
  exists stem,
    chars name = stem ++ chars (path_extname name)
    /\ (chars (path_extname name) <> [] -> stem <> []).
Proof.
  intros Hs. unfold path_extname. rewrite chars_str.
  destruct (extname_scan_no_slash (rev (chars name)) ext_init) as [Hi Hp].
  { now rewrite no_slash_rev. }
  { reflexivity. }
  rewrite rev_involutive, app_nil_r in Hp.
  unfold ext_invariant in Hi. unfold ext_result.
  destruct (dot (extname_scan (rev (chars name)) ext_init)) as [d|].
  - destruct Hi as (pre & Hpre & Hne). rewrite Hp in Hpre.
    destruct (negb _); [exists (chars name); now rewrite app_nil_r|].
    destruct (preDotState _ =? 0) eqn:E0;
      [exists (chars name); now rewrite app_nil_r|].
    destruct (_ && _ && _); [exists (chars name); now rewrite app_nil_r|].
    exists pre. split; [exact Hpre|]. intros _. apply Hne.
    now apply Z.eqb_neq in E0.
  - exists (chars name). now rewrite app_nil_r.
Qed.

Lemma strip_prefix_app (pre l : list ascii) : strip_prefix pre (pre ++ l) = Some l.
Proof.
  induction pre as [|a pre IH]; [reflexivity|].
  cbn. now rewrite Ascii.eqb_refl.
Qed.

(** [path.basename(p, path.extname(p))] on a joined path: the entry name
    without its extension. *)
Lemma path_basename_suffix_stem (dir name : string) :
  valid_name name = true ->
  name = path_basename_suffix (path_join dir name)
           (path_extname (path_join dir name))
         +:+ path_extname name.
Proof.
  intros Hv. pose proof Hv as [Hne Hns]%valid_name_chars.
  assert (He : path_extname (path_join dir name) = path_extname name).
  { rewrite <- (path_extname_basename (path_join dir name)).
    now rewrite path_basename_join. }
  rewrite He. unfold path_basename_suffix.
  rewrite path_basename_join by exact Hv.
  destruct (path_extname_tail name Hns) as (stem & Hstem & Hnonempty).
  destruct (chars (path_extname name)) as [|c cs] eqn:Ee.
  - rewrite str_chars. apply chars_inj. rewrite chars_append, Ee.
    now rewrite app_nil_r.
  - destruct (String.eqb (path_extname name) (path_join dir name)) eqn:Eq.
    + exfalso. apply String.eqb_eq in Eq. apply (f_equal chars) in Eq.
      rewrite chars_path_join, Ee, Hstem in Eq.
      apply (f_equal (@length ascii)) in Eq.
      rewrite !length_app in Eq. cbn in Eq. rewrite length_app in Eq.
      cbn in Eq. lia.
    + rewrite Hstem, rev_app_distr, strip_prefix_app.
      destruct (rev stem) as [|r rs] eqn:Er.
      * exfalso. apply Hnonempty; [discriminate|].
        now rewrite <- (rev_involutive stem), Er.
      * rewrite <- Er, rev_involutive. apply chars_inj.
        now rewrite chars_append, chars_str, Ee.
Qed.

(** *** [path.join] on the paths of the walk *)

Lemma normalize_scan_app (a : bool) (l1 l2 : list ascii) (st : norm_state) :
  normalize_scan a (l1 ++ l2) st
  = normalize_scan a l2 (normalize_scan a l1 st).
Proof. revert st. induction l1 as [|c l1 IH]; intros st; [reflexivity|]. apply IH. Qed.

Lemma normalize_scan_segment (a : bool) (l : list ascii) (st : norm_state) :
  no_slash l = true ->
  normalize_scan a l st
  = {| norm_res := norm_res st;
       norm_lastSegmentLength := norm_lastSegmentLength st;
       norm_segment := norm_segment st ++ l;
       norm_dots := seg_dots l (norm_dots st) |}.
Proof.
  revert st. induction l as [|c l IH]; intros st Hs.
  - cbn. rewrite app_nil_r. now destruct st.
  - cbn in Hs. apply andb_true_iff in Hs as [Hc Hs].
    apply negb_true_iff in Hc. cbn [normalize_scan]. rewrite Hc, IH by exact Hs.
    cbn. now rewrite <- app_assoc.
Qed.

Lemma seg_dots_other (l : list ascii) : seg_dots l (-1) = -1.
Proof.
  induction l as [|c l IH]; [reflexivity|]. cbn.
  now rewrite andb_false_r.
Qed.

Lemma seg_dots_count (l : list ascii) (d : Z) :
  0 <= d ->
  seg_dots l d = -1
  \/ (seg_dots l d = d + Z.of_nat (length l) /\ forallb is_dot l = true).
Proof.
  revert d. induction l as [|c l IH]; intros d Hd.
  - right. cbn. split; [lia | reflexivity].
  - cbn [seg_dots fold_left forallb length].
    destruct (is_dot c); cbn [andb].
    + replace (d =? -1) with false by (symmetry; apply Z.eqb_neq; lia).
      cbn [negb]. destruct (IH (d + 1)) as [H|[H1 H2]]; [lia | now left |].
      right. split; [|exact H2]. unfold seg_dots in H1 |- *. rewrite H1. lia.
    + left. apply seg_dots_other.
Qed.

Lemma proper_portion_chars (s : string) :
  proper_portion s = true ->
  chars s <> [] /\ no_slash (chars s) = true
  /\ seg_dots (chars s) 0 <> 1 /\ seg_dots (chars s) 0 <> 2.
Proof.
  unfold proper_portion.
  intros [[Hv Hone%negb_true_iff]%andb_true_iff Htwo%negb_true_iff]%andb_true_iff.
  apply String.eqb_neq in Hone, Htwo.
  destruct (valid_name_chars s Hv) as [Hne Hns].
  repeat split; try assumption.
  - intros E. destruct (seg_dots_count (chars s) 0) as [H|[H Hd]]; [lia | lia |].
    rewrite E in H. apply Hone, chars_inj.
    destruct (chars s) as [|c [|c' l]]; cbn in H, Hd; try lia.
    rewrite andb_true_r in Hd. apply Ascii.eqb_eq in Hd. now subst.
  - intros E. destruct (seg_dots_count (chars s) 0) as [H|[H Hd]]; [lia | lia |].
    rewrite E in H. apply Htwo, chars_inj.
    destruct (chars s) as [|c [|c' [|c'' l]]]; cbn in H, Hd; try lia.
    rewrite andb_true_r in Hd. apply andb_true_iff in Hd as [H1 H2].
    apply Ascii.eqb_eq in H1, H2. now subst.
Qed.

(** A separator after a segment that is neither empty, [.] nor [..]
    appends the segment. *)
Lemma norm_separator_appends (a : bool) (st : norm_state) :
  norm_segment st <> [] -> norm_dots st <> 1 -> norm_dots st <> 2 ->
  norm_separator a st
  = {| norm_res :=
         match norm_res st with
         | [] => norm_segment st
         | _ :: _ => norm_res st ++ "/"%char :: norm_segment st
         end;
       norm_lastSegmentLength := Z.of_nat (length (norm_segment st));
       norm_segment := [];
       norm_dots := 0 |}.
Proof.
  intros Hs H1 H2. unfold norm_separator.
  destruct (norm_segment st) as [|c l]; [congruence|].
  apply Z.eqb_neq in H1, H2. now rewrite H1, H2.
Qed.

Lemma flat_snoc (segs : list string) (s : string) :
  flat (segs ++ [s]) = flat segs ++ "/"%char :: chars s.
Proof.
  unfold flat. rewrite map_app, concat_app. cbn. now rewrite app_nil_r.
Qed.

Lemma tail_flat_snoc (segs : list string) (s : string) :
  forallb proper_portion segs = true ->
  tl (flat (segs ++ [s]))
  = match tl (flat segs) with
    | [] => chars s
    | _ :: _ => tl (flat segs) ++ "/"%char :: chars s
    end.
Proof.
  destruct segs as [|s0 segs]; intros Hp.
  - cbn. now rewrite app_nil_r.
  - cbn in Hp. apply andb_true_iff in Hp as [H0 _].
    apply proper_portion_chars in H0 as [Hne _].
    change (flat (s0 :: segs)) with ("/"%char :: chars s0 ++ flat segs).
    change (flat ((s0 :: segs) ++ [s]))
      with ("/"%char :: chars s0 ++ flat (segs ++ [s])).
    cbn [tl]. rewrite flat_snoc.
    destruct (chars s0) as [|c l]; [congruence|].
    cbn. now rewrite <- app_assoc.
Qed.

(** The scan of [dir/name] stands, before the end of the path is reached,
    on the directory as the result and on the name as the segment read. *)
Lemma normalize_scan_flat (segs : list string) (s : string) :
  forallb proper_portion segs = true -> proper_portion s = true ->
  exists len,
    normalize_scan false (flat (segs ++ [s])) norm_init
    = {| norm_res := tl (flat segs);
         norm_lastSegmentLength := len;
         norm_segment := chars s;
         norm_dots := seg_dots (chars s) 0 |}.
Proof.
  revert s. induction segs as [|s' segs IH] using rev_ind; intros s Hsegs Hs.
  - exists 0. apply proper_portion_chars in Hs as (_ & Hns & _).
    cbn. rewrite app_nil_r.
    now rewrite normalize_scan_segment by exact Hns.
  - rewrite forallb_app in Hsegs. cbn in Hsegs.
    apply andb_true_iff in Hsegs as [Hsegs [Hs' _]%andb_true_iff].
    destruct (IH s' Hsegs Hs') as [len E].
    pose proof (proper_portion_chars s' Hs') as (Hne' & _ & H1 & H2).
    pose proof (proper_portion_chars s Hs) as (_ & Hns & _).
    rewrite flat_snoc, normalize_scan_app, E. cbn [normalize_scan].
    change (is_slash "/") with true. cbn iota.
    rewrite norm_separator_appends by assumption.
    rewrite normalize_scan_segment by exact Hns. cbn.
    rewrite tail_flat_snoc by exact Hsegs.
    eexists. reflexivity.
Qed.

Lemma ends_with_slash_name (l s : list ascii) :
  s <> [] -> no_slash s = true -> ends_with_slash (l ++ s) = false.
Proof.
  intros Hne Hns. unfold ends_with_slash. rewrite rev_app_distr.
  rewrite <- no_slash_rev in Hns.
  destruct (rev s) as [|c r] eqn:E.
  - exfalso. apply Hne. now rewrite <- (rev_involutive s), E.
  - cbn in Hns |- *. apply andb_true_iff in Hns as [Hc _].
    now apply negb_true_iff in Hc.
Qed.

(** [path.normalize] changes nothing in an absolute path made of proper
    portions. *)
Lemma posix_normalize_joins (segs : list string) :
  segs <> [] -> forallb proper_portion segs = true ->
  posix_normalize (joins EmptyString segs) = joins EmptyString segs.
Proof.
  intros Hne Hp.
  destruct (exists_last Hne) as (segs' & s & ->).
  rewrite forallb_app in Hp. cbn in Hp.
  apply andb_true_iff in Hp as [Hsegs [Hs _]%andb_true_iff].
  destruct (normalize_scan_flat segs' s Hsegs Hs) as [len E].
  pose proof (proper_portion_chars s Hs) as (Hnes & Hns & H1 & H2).
  unfold posix_normalize. rewrite chars_joins. cbn [chars list_ascii_of_string app].
  assert (Hflat : flat (segs' ++ [s]) = "/"%char :: tl (flat (segs' ++ [s]))).
  { rewrite flat_snoc. destruct (flat_head segs') as [->|[r ->]]; reflexivity. }
  assert (Hend : ends_with_slash (flat (segs' ++ [s])) = false).
  { rewrite flat_snoc.
    change (flat segs' ++ "/"%char :: chars s)
      with (flat segs' ++ ["/"%char] ++ chars s).
    rewrite app_assoc. now apply ends_with_slash_name. }
  assert (Hnorm : normalizeString (flat (segs' ++ [s])) false
                  = tl (flat (segs' ++ [s]))).
  { unfold normalizeString. rewrite Hend, E.
    rewrite norm_separator_appends by assumption. cbn.
    now rewrite tail_flat_snoc. }
  rewrite Hflat at 1. change (is_slash "/") with true. cbn [negb].
  rewrite Hnorm, Hend.
  destruct (tl (flat (segs' ++ [s]))) as [|c l] eqn:Et.
  - exfalso. rewrite tail_flat_snoc in Et by exact Hsegs.
    destruct (tl (flat segs')); [congruence|discriminate Et].
  - cbv iota. rewrite <- Hflat.
    rewrite <- (app_nil_l (flat (segs' ++ [s]))).
    change [] with (chars EmptyString) at 1.
    rewrite <- chars_joins. apply str_chars.
Qed.

(** [path.join(dir, name)] is [dir/name] for an absolute directory made of
    proper portions and a proper name: the join of the embedding. *)
Lemma posix_join_entry (segs : list string) (name : string) :
  segs <> [] -> forallb proper_portion segs = true ->
  proper_portion name = true ->
  posix_join [joins EmptyString segs; name]
  = path_join (joins EmptyString segs) name.
Proof.
  intros Hne Hp Hn.
  pose proof (proper_portion_chars name Hn) as (Hnn & _).
  assert (Hd : String.eqb (joins EmptyString segs) EmptyString = false).
  { apply String.eqb_neq. intros E. apply (f_equal chars) in E.
    rewrite chars_joins in E. cbn in E.
    destruct segs as [|s0 segs]; [congruence|discriminate E]. }
  assert (Hm : String.eqb name EmptyString = false).
  { apply String.eqb_neq. intros ->. now apply Hnn. }
  unfold posix_join. cbn [List.filter]. rewrite Hd, Hm. cbn [negb fold_left].
  change (joins EmptyString segs +:+ "/" +:+ name)
    with (path_join (joins EmptyString segs) name).
  rewrite <- joins_snoc. apply posix_normalize_joins.
  - now destruct segs.
  - rewrite forallb_app. cbn. now rewrite Hp, Hn.
Qed.

Lemma visible_name_proper (name : string) :
  valid_name name = true -> startsWith_dot name = false ->
  proper_portion name = true.
Proof.
  intros Hv Hd. unfold proper_portion. rewrite Hv.
  destruct name as [|c r]; [discriminate Hv|].
  cbn in Hd |- *. unfold is_dot in Hd. now rewrite Hd.
Qed.

Lemma valid_name_intro (s : string) :
  chars s <> [] -> no_slash (chars s) = true -> valid_name s = true.
Proof.
  intros Hne Hns. unfold valid_name. rewrite Hns.
  destruct s; [now contradict Hne | reflexivity].
Qed.

Lemma startsWith_dot_chars (s : string) :
  startsWith_dot s = match chars s with c :: _ => is_dot c | [] => false end.
Proof. now destruct s. Qed.

Lemma joins_absolute (segs : list string) :
  segs <> [] -> forallb proper_portion segs = true ->
  joins EmptyString segs <> EmptyString /\ joins EmptyString segs <> "/".
Proof.
  intros Hne Hp. destruct segs as [|s0 segs]; [congruence|].
  cbn in Hp. apply andb_true_iff in Hp as [H0 _].
  apply proper_portion_chars in H0 as [Hc _].
  split; intros E; apply (f_equal chars) in E; rewrite chars_joins in E;
    cbn in E; [discriminate E|].
  injection E as E. now destruct (chars s0).
Qed.

(** The name [processVideo] gives a converted video is again a proper
    portion: a non-empty stem that does not start with a dot, then the
    format. *)
Lemma converted_name_proper (name stem fmt : string) :
  valid_name name = true -> startsWith_dot name = false ->
  no_slash (chars fmt) = true ->
  name = stem +:+ path_extname name ->
  proper_portion (stem +:+ "." +:+ fmt) = true.
Proof.
  intros Hv Hd Hfmt Hname.
  pose proof (valid_name_chars name Hv) as [Hne Hns].
  destruct (path_extname_tail name Hns) as (stem' & Hstem' & Hext).
  assert (Hchars : chars name = chars stem ++ chars (path_extname name)).
  { rewrite Hname at 1. apply chars_append. }
  assert (Es : chars stem = stem').
  { rewrite Hstem' in Hchars at 1. now apply app_inv_tail in Hchars. }
  assert (Hs : chars stem <> []).
  { rewrite Es. destruct (chars (path_extname name)) eqn:Ee.
    - rewrite app_nil_r in Hstem'. now rewrite <- Hstem'.
    - now apply Hext. }
  assert (Hss : no_slash (chars stem) = true).
  { rewrite Hchars in Hns. unfold no_slash in Hns |- *.
    rewrite forallb_app in Hns. now apply andb_true_iff in Hns as [? _]. }
  rewrite startsWith_dot_chars, Hchars in Hd.
  apply visible_name_proper.
  - apply valid_name_intro; rewrite !chars_append.
    + now destruct (chars stem).
    + unfold no_slash in *. rewrite !forallb_app, Hss, Hfmt. reflexivity.
  - rewrite startsWith_dot_chars, !chars_append.
    now destruct (chars stem).
Qed.

(** X5. The output file of a converted video, with [path.join] as Node has
    it.  For a target directory that is an absolute path of proper portions
    (as [path.resolve] gives it), a visible entry name and an output format
    without separator: the target [path.join(dir, name)] is [dir/name];
    with [video.preserveFormat] off, the file [ffmpeg] writes stays in
    [dir] and is the entry name with its extension replaced by
    [formats.outputFormat] ([name = stem ++ ext] with
    [ext = path.extname(name)], output [dir/stem.outputFormat]); with
    [preserveFormat] on, the output is the target itself. *)
Theorem converted_video_keeps_directory_and_stem
    (cfg : config) (segs : list string) (name : string) :
  segs <> [] -> forallb proper_portion segs = true ->
  valid_name name = true -> startsWith_dot name = false ->
  no_slash (chars (formats_outputFormat (video cfg))) = true ->
  let dir := joins EmptyString segs in
  let outputPath := posix_join [dir; name] in
  let stem := path_basename_suffix outputPath (path_extname outputPath) in
  let converted := stem +:+ "." +:+ formats_outputFormat (video cfg) in
  outputPath = path_join dir name
  /\ name = stem +:+ path_extname name
  /\ (preserveFormat (video cfg) = false ->
      Video.video_outputFile cfg outputPath
      = posix_join [path_dirname outputPath; converted]
      /\ Video.video_outputFile cfg outputPath = path_join dir converted)
  /\ (preserveFormat (video cfg) = true ->
      Video.video_outputFile cfg outputPath = outputPath).
Proof.
  intros Hne Hp Hv Hd Hfmt dir outputPath stem converted.
  assert (Hout : outputPath = path_join dir name).
  { apply posix_join_entry; auto using visible_name_proper. }
  destruct (joins_absolute segs Hne Hp) as [Hdir Hroot].
  assert (Hname : name = stem +:+ path_extname name).
  { subst stem. rewrite Hout. now apply path_basename_suffix_stem. }
  assert (Hconv : proper_portion converted = true).
  { now apply (converted_name_proper name). }
  assert (Hdirname : path_dirname outputPath = dir).
  { rewrite Hout. now apply path_dirname_join. }
  split; [exact Hout|]. split; [exact Hname|]. split.
  - intros Hpf. unfold Video.video_outputFile. rewrite Hpf.
    cbv zeta. fold stem. fold converted. rewrite Hdirname.
    split; [|reflexivity]. symmetry. now apply posix_join_entry.
  - intros Hpf. unfold Video.video_outputFile. now rewrite Hpf.
Qed.

Lemma converted_video_keeps_directory_and_stem_witness :
  posix_join ["/site/dist/assets"; "clip.final.webm"]
  = "/site/dist/assets/clip.final.webm"
  /\ Video.video_outputFile convert_config "/site/dist/assets/clip.final.webm"
     = "/site/dist/assets/clip.final.mp4".
Proof.
  destruct (converted_video_keeps_directory_and_stem convert_config
              ["site"; "dist"; "assets"] "clip.final.webm")
    as (Hout & _ & Hconv & _);
    [discriminate | reflexivity | reflexivity | reflexivity | reflexivity |].
  split; [exact Hout | exact (proj2 (Hconv eq_refl))].
Defined.

(** X6. The options [processVideo] hands to [ffmpeg]: [-crf] always; with
    the VP9 codec, [-b:v 0] and [-row-mt 1] and never a preset or a video
    bitrate, even when [quality.bitrate] is set; with any other codec, the
    preset, and the bitrate exactly when [quality.bitrate] is a non-empty
    string.  With [preserveFormat] on, the codec follows the lowercased
    extension of the input ([.webm]: VP9, [.mp4]: H.264, otherwise
    [formats.codec]); with it off, it is [formats.codec]. *)
Theorem ffmpeg_options_follow_codec
    (cfg : config) (inputPath outputPath : string)
    (originalWidth originalHeight : Z) :
  let command :=
    Video.video_command cfg inputPath outputPath originalWidth originalHeight in
  let crf := OptCrf (quality_crf (video cfg)) in
  let ext := toLowerCase (path_extname inputPath) in
  (cmd_videoCodec command = "libvpx-vp9" ->
   cmd_outputOptions command = [crf; OptBitrateZero; OptRowMt]
   /\ cmd_videoBitrate command = None)
  /\ (cmd_videoCodec command <> "libvpx-vp9" ->
      cmd_outputOptions command = [crf; OptPreset (quality_preset (video cfg))]
      /\ (quality_bitrate (video cfg) <> EmptyString ->
          cmd_videoBitrate command = Some (quality_bitrate (video cfg)))
      /\ (quality_bitrate (video cfg) = EmptyString ->
          cmd_videoBitrate command = None))
  /\ (preserveFormat (video cfg) = true ->
      (ext = ".webm" -> cmd_videoCodec command = "libvpx-vp9")
      /\ (ext = ".mp4" -> cmd_videoCodec command = "libx264")
      /\ (ext <> ".webm" -> ext <> ".mp4" ->
          cmd_videoCodec command = formats_codec (video cfg)))
  /\ (preserveFormat (video cfg) = false ->
      cmd_videoCodec command = formats_codec (video cfg)).
Proof.
  intros command crf ext. subst command.
  cbn [Video.video_command cmd_videoCodec cmd_outputOptions cmd_videoBitrate].
  fold ext. split; [|split; [|split]].
  - intros H. apply String.eqb_eq in H. rewrite H.
    split; [reflexivity | now rewrite andb_false_r].
  - intros H. apply String.eqb_neq in H. rewrite H.
    split; [reflexivity|]. unfold Video.bitrate_set. split; intros Hb.
    + apply String.eqb_neq in Hb. now rewrite Hb.
    + now rewrite Hb.
  - intros H. unfold Video.video_codec. rewrite H. split; [|split].
    + intros He. now rewrite He.
    + intros He. now rewrite He.
    + intros H1 H2. apply String.eqb_neq in H1, H2. now rewrite H1, H2.
  - intros H. unfold Video.video_codec. now rewrite H.
Qed.

Lemma ffmpeg_options_follow_codec_witness :
  cmd_outputOptions
    (Video.video_command sample_config "/site/assets/Clip.WEBM"
       "/site/dist/assets/Clip.WEBM" 3840 2160)
  = [OptCrf 28; OptBitrateZero; OptRowMt]
  /\ cmd_videoBitrate
       (Video.video_command sample_config "/site/assets/Clip.WEBM"
          "/site/dist/assets/Clip.WEBM" 3840 2160) = None.
Proof.
  apply (ffmpeg_options_follow_codec sample_config "/site/assets/Clip.WEBM"
           "/site/dist/assets/Clip.WEBM" 3840 2160).
  reflexivity.
Defined.

(** ** Where the effects of a walk come from *)

Lemma lookup_entry_distinct (entries : list (string * node)) (name : string)
    (child : node) :
  distinct (map fst entries) = true -> (name, child) ∈ entries ->
  lookup_entry name entries = Some child.
Proof.
  induction entries as [|[n c] l IH]; [intros _ H; now apply elem_of_nil in H|].
  cbn. intros [Hn Hd]%andb_true_iff [E|Hin]%elem_of_cons.
  - injection E as -> ->. now rewrite String.eqb_refl.
  - destruct (String.eqb name n) eqn:En; [|now apply IH].
    apply String.eqb_eq in En as ->. apply negb_true_iff in Hn.
    exfalso. apply not_true_iff_false in Hn. apply Hn, includes_elem_of.
    apply list_elem_of_fmap. now exists (n, child).
Qed.

Lemma resolve_entry (entries : list (string * node)) (file : string)
    (child : node) (rel : list string) :
  well_formed (Dir entries) = true -> (file, child) ∈ entries ->
  startsWith_dot file = false ->
  resolve (Dir entries) (file :: rel) = resolve child rel.
Proof.
  intros Hwf Hin Hh. cbn [resolve]. rewrite Hh.
  rewrite (lookup_entry_distinct entries file child); [reflexivity| |exact Hin].
  cbn in Hwf. now apply andb_true_iff in Hwf as [Hd _].
Qed.

Section Origins.

Context (cfg : config) (w : services).

Lemma mirrors_directory_entry (entries : list (string * node)) (file : string)
    (sub : list (string * node)) (target : string) :
  well_formed (Dir entries) = true -> (file, Dir sub) ∈ entries ->
  startsWith_dot file = false ->
  mirrors_directory (Dir entries) target (path_join target file).
Proof.
  intros Hwf Hin Hh. exists [file], sub. split; [discriminate|].
  split; [|reflexivity]. now rewrite (resolve_entry _ _ (Dir sub)).
Qed.

Lemma mirrors_directory_lift (entries : list (string * node)) (file : string)
    (child : node) (target p : string) :
  well_formed (Dir entries) = true -> (file, child) ∈ entries ->
  startsWith_dot file = false ->
  mirrors_directory child (path_join target file) p ->
  mirrors_directory (Dir entries) target p.
Proof.
  intros Hwf Hin Hh (rel & sub & Hne & Hr & ->).
  exists (file :: rel), sub. split; [discriminate|]. split; [|reflexivity].
  now rewrite (resolve_entry _ _ child).
Qed.

Lemma mirrors_file_lift (entries : list (string * node)) (file : string)
    (child : node) (source target src dst : string) (data : bytes) :
  well_formed (Dir entries) = true -> (file, child) ∈ entries ->
  startsWith_dot file = false ->
  mirrors_file child (path_join source file) (path_join target file)
    src dst data ->
  mirrors_file (Dir entries) source target src dst data.
Proof.
  intros Hwf Hin Hh (rel & Hr & -> & ->).
  exists (file :: rel). split; [|now split].
  now rewrite (resolve_entry _ _ child).
Qed.

Lemma wanted_file_lift (entries : list (string * node)) (file : string)
    (child : node) (source target src dst : string) (data : bytes) :
  well_formed (Dir entries) = true -> (file, child) ∈ entries ->
  startsWith_dot file = false ->
  shouldProcessFolder cfg (path_join source file) = true ->
  wanted_file cfg child (path_join source file) (path_join target file)
    src dst data ->
  wanted_file cfg (Dir entries) source target src dst data.
Proof.
  intros Hwf Hin Hh Hp (dirs & name & Hr & Ha & -> & -> & Hf).
  exists (file :: dirs), name. cbn [app folders_admitted].
  rewrite (resolve_entry _ _ child) by assumption.
  rewrite Hp, Ha. now repeat split.
Qed.

Lemma wanted_file_here (entries : list (string * node)) (file : string)
    (source target : string) (data : bytes) :
  well_formed (Dir entries) = true -> (file, File data) ∈ entries ->
  startsWith_dot file = false ->
  shouldProcessFile cfg (path_join source file) = true ->
  wanted_file cfg (Dir entries) source target (path_join source file)
    (path_join target file) data.
Proof.
  intros Hwf Hin Hh Hf. exists [], file. cbn [app folders_admitted].
  rewrite (resolve_entry _ _ (File data)) by assumption.
  now repeat split.
Qed.

(** The effects of the raw copy mirror the tree. *)
Lemma raw_copy_origin (n : node) :
  forall source target e,
    well_formed n = true ->
    e ∈ fst (Video.copyFolderContentsDirectly w n source target) ->
    match e with
    | Mkdir p => mirrors_directory n target p
    | Copied src dst data => mirrors_file n source target src dst data
    | _ => False
    end.
Proof.
  induction n as [data|entries IH] using node_induction;
    intros source target e Hwf He; [no_event He|].
  rewrite copyFolderContentsDirectly_Dir in He.
  apply forEach_events in He as ([file child] & Hin & He).
  rewrite Forall_forall in IH. specialize (IH _ Hin). cbn in IH.
  destruct (well_formed_entry _ _ _ Hwf Hin) as [_ Hwc].
  unfold Video.copy_entry in He.
  destruct (startsWith_dot file) eqn:Hh; [no_event He|].
  destruct child as [data|sub].
  - apply copyFile_events in He as ->. exists [file].
    now rewrite (resolve_entry _ _ (File data)).
  - apply seq_events_incl in He as [He|He].
    + apply mkdirp_events in He as ->.
      now apply (mirrors_directory_entry _ _ sub).
    + specialize (IH _ _ _ Hwc He). destruct e; try contradiction.
      * now apply (mirrors_directory_lift _ file (Dir sub)).
      * now apply (mirrors_file_lift _ file (Dir sub)).
Qed.

(** The effects of the file branch, with what each shape tells. *)
Lemma video_walk_file_effects (filePath outputFilePath : string)
    (data : bytes) (a p : bool) (e : event) :
  e ∈ fst (Video.walk_file cfg w filePath outputFilePath data a p) ->
  shouldProcessFile cfg filePath = true
  /\ match e with
     | Mkdir _ => False
     | Copied src dst d =>
         src = filePath /\ dst = outputFilePath /\ d = data
         /\ Video.getFileType cfg filePath <> Processable
     | ImageWritten job =>
         Video.getFileType cfg filePath = Processable
         /\ exists width,
              sharp_metadata w filePath = Some width
              /\ job = image_job cfg filePath outputFilePath
                         (Video.image_resize cfg width)
                         (a && p && shouldBlurFile cfg filePath)
     | VideoWritten cmd =>
         Video.getFileType cfg filePath = VideoType
         /\ enableProcessing (video cfg) = true
         /\ exists ow oh,
              ffprobe w filePath = ProbeStreams (Some (ow, oh))
              /\ cmd = Video.video_command cfg filePath outputFilePath ow oh
     | ConsoleError msg => msg <> ErrBuild
     end.
Proof.
  unfold Video.walk_file.
  destruct (shouldProcessFile cfg filePath); cbn [negb];
    [|intros He; no_event He].
  intros He. split; [reflexivity|].
  destruct (Video.getFileType cfg filePath) eqn:Ht.
  - unfold sharp_pipeline in He.
    destruct (sharp_metadata w filePath) as [width|] eqn:Hm.
    + destruct (sharp_toFile w _); one_event He; [|discriminate].
      split; [reflexivity|]. now exists width.
    + one_event He. discriminate.
  - unfold Video.processVideo in He.
    destruct (enableProcessing (video cfg)) eqn:Hen; cbn [negb] in He.
    + destruct (ffprobe w filePath) as [|[[ow oh]|]] eqn:Hpr.
      * rewrite in_callback_events in He.
        apply seq_events_incl in He as [He|He];
          [one_event He; discriminate|].
        apply copyFile_events in He as ->. now repeat split.
      * destruct (ffmpeg_run w _).
        -- one_event He. repeat split. now exists ow, oh.
        -- apply seq_events_incl in He as [He|He];
             [one_event He; discriminate|].
           destruct (fs_copyFileSync w filePath outputFilePath);
             one_event He; [now repeat split | discriminate].
      * rewrite in_callback_events in He.
        apply seq_events_incl in He as [He|He];
          [one_event He; discriminate|].
        apply copyFile_events in He as ->. now repeat split.
    + apply copyFile_events in He as ->. now repeat split.
  - apply copyFile_events in He as ->. now repeat split.
  - apply copyFile_events in He as ->. now repeat split.
Qed.

Lemma basic_walk_file_effects (filePath outputFilePath : string)
    (data : bytes) (a p : bool) (e : event) :
  e ∈ fst (Basic.walk_file cfg w filePath outputFilePath data a p) ->
  shouldProcessFile cfg filePath = true
  /\ match e with
     | Mkdir _ => False
     | Copied src dst d =>
         src = filePath /\ dst = outputFilePath /\ d = data
         /\ Basic.getFileType cfg filePath <> Processable
     | ImageWritten job =>
         Basic.getFileType cfg filePath = Processable
         /\ exists width,
              sharp_metadata w filePath = Some width
              /\ job = image_job cfg filePath outputFilePath
                         (Basic.image_resize cfg width)
                         (a && p && shouldBlurFile cfg filePath)
     | VideoWritten _ => False
     | ConsoleError msg => msg <> ErrBuild
     end.
Proof.
  unfold Basic.walk_file.
  destruct (shouldProcessFile cfg filePath); cbn [negb];
    [|intros He; no_event He].
  intros He. split; [reflexivity|].
  destruct (Basic.getFileType cfg filePath) eqn:Ht.
  - unfold sharp_pipeline in He.
    destruct (sharp_metadata w filePath) as [width|] eqn:Hm.
    + destruct (sharp_toFile w _); one_event He; [|discriminate].
      split; [reflexivity|]. now exists width.
    + one_event He. discriminate.
  - apply copyFile_events in He as ->. now repeat split.
  - apply copyFile_events in He as ->. now repeat split.
  - apply copyFile_events in He as ->. now repeat split.
Qed.

Lemma video_origin_lift (entries : list (string * node)) (file : string)
    (child : node) (source target : string) (a : bool) (e : event) :
  well_formed (Dir entries) = true -> (file, child) ∈ entries ->
  startsWith_dot file = false ->
  shouldProcessFolder cfg (path_join source file) = true ->
  video_origin cfg w child (path_join source file) (path_join target file) a e ->
  video_origin cfg w (Dir entries) source target a e.
Proof.
  intros Hwf Hin Hh Hp. destruct e; cbn.
  - now apply mirrors_directory_lift.
  - now apply mirrors_file_lift.
  - intros (data & width & b & Hw & H). exists data, width, b.
    split; [now apply (wanted_file_lift _ file child)|exact H].
  - intros (data & dst & ow & oh & Hw & H). exists data, dst, ow, oh.
    split; [now apply (wanted_file_lift _ file child)|exact H].
  - trivial.
Qed.

Lemma video_walk_origin (n : node) :
  forall source target a p e,
    well_formed n = true ->
    e ∈ fst (Video.optimizeAndBlurImages cfg w n source target a p) ->
    video_origin cfg w n source target a e.
Proof.
  induction n as [data|entries IH] using node_induction;
    intros source target a p e Hwf He; [no_event He|].
  rewrite video_walk_Dir in He.
  apply forEach_events in He as ([file child] & Hin & He).
  rewrite Forall_forall in IH. specialize (IH _ Hin). cbn in IH.
  destruct (well_formed_entry _ _ _ Hwf Hin) as [_ Hwc].
  unfold Video.walk_entry in He.
  destruct (startsWith_dot file) eqn:Hh; [no_event He|].
  destruct child as [data|sub].
  - apply video_walk_file_effects in He as [Hf He].
    pose proof (wanted_file_here _ _ source target _ Hwf Hin Hh Hf) as Hw.
    destruct e; cbn.
    + contradiction.
    + destruct He as (-> & -> & -> & _). exists [file].
      now rewrite (resolve_entry _ _ (File data)).
    + destruct He as (Ht & width & Hm & ->).
      exists data, width,
        (a && p && shouldBlurFile cfg (path_join source file)).
      cbn [image_job job_input job_output]. repeat split; try assumption.
      all: apply andb_true_iff in H as [[Ha _]%andb_true_iff Hb]; assumption.
    + destruct He as (Ht & Hen & ow & oh & Hpr & ->).
      exists data, (path_join target file), ow, oh.
      cbn [Video.video_command cmd_input]. now repeat split.
    + exact He.
  - unfold Video.walk_dir in He. apply seq_events_incl in He as [He|He].
    + apply mkdirp_events in He as ->.
      now apply (mirrors_directory_entry _ _ sub).
    + destruct (shouldProcessFolder cfg (path_join source file)) eqn:Hp;
        cbn [negb] in He.
      * apply (video_origin_lift _ file (Dir sub)); try assumption.
        now apply (IH _ _ _ _ _ Hwc He).
      * apply raw_copy_origin in He; [|exact Hwc].
        destruct e; try contradiction; cbn.
        -- now apply (mirrors_directory_lift _ file (Dir sub)).
        -- now apply (mirrors_file_lift _ file (Dir sub)).
Qed.

Lemma basic_walk_origin (n : node) :
  forall source target a p e,
    well_formed n = true ->
    e ∈ fst (Basic.optimizeAndBlurImages cfg w n source target a p) ->
    basic_origin cfg w n source target a e.
Proof.
  induction n as [data|entries IH] using node_induction;
    intros source target a p e Hwf He; [no_event He|].
  rewrite basic_walk_Dir in He.
  apply forEach_events in He as ([file child] & Hin & He).
  rewrite Forall_forall in IH. specialize (IH _ Hin). cbn in IH.
  destruct (well_formed_entry _ _ _ Hwf Hin) as [_ Hwc].
  unfold Basic.walk_entry in He.
  destruct (startsWith_dot file) eqn:Hh; [no_event He|].
  destruct child as [data|sub].
  - apply basic_walk_file_effects in He as [Hf He].
    pose proof (wanted_file_here _ _ source target _ Hwf Hin Hh Hf) as Hw.
    destruct e; cbn.
    + contradiction.
    + destruct He as (-> & -> & -> & Ht). now split.
    + destruct He as (Ht & width & Hm & ->).
      exists data, width,
        (a && p && shouldBlurFile cfg (path_join source file)).
      cbn [image_job job_input job_output]. repeat split; try assumption.
      all: apply andb_true_iff in H as [[Ha _]%andb_true_iff Hb]; assumption.
    + contradiction.
    + exact He.
  - unfold Basic.walk_dir in He.
    destruct (shouldProcessFolder cfg (path_join source file)) eqn:Hp;
      cbn [negb] in He; [|no_event He].
    apply seq_events_incl in He as [He|He].
    + apply mkdirp_events in He as ->. exists [file], sub.
      split; [discriminate|]. rewrite (resolve_entry _ _ (Dir sub)) by assumption.
      cbn. now rewrite Hp.
    + specialize (IH _ _ _ _ _ Hwc He). destruct e; cbn in IH |- *.
      * destruct IH as (rel & sub' & Hne & Hr & -> & Ha).
        exists (file :: rel), sub'. split; [discriminate|].
        rewrite (resolve_entry _ _ (Dir sub)) by assumption.
        cbn [folders_admitted]. rewrite Hp, Ha. now repeat split.
      * destruct IH as [Hw Ht]. split; [|exact Ht].
        now apply (wanted_file_lift _ file (Dir sub)).
      * destruct IH as (data & width & b & Hw & H). exists data, width, b.
        split; [now apply (wanted_file_lift _ file (Dir sub))|exact H].
      * contradiction.
      * exact IH.
Qed.

End Origins.

(** X7. Whatever the video-capable walk writes mirrors the source: on a
    well-formed tree, each created directory is the mirror of a visible
    directory, each copy is the mirror of a visible file with its bytes,
    and each image or video written is made from a visible file that
    passes the file policy inside folders that all pass the folder policy,
    and lands on the mirror of that file (for a video, on the output file
    derived from the mirror).  Hidden entries are never read or written. *)
Theorem video_walk_mirrors_source
    (cfg : config) (w : services) (n : node) (source target : string)
    (applyBlur parentBlurAllowed : bool) (e : event) :
  well_formed n = true ->
  e ∈ fst (Video.optimizeAndBlurImages cfg w n source target applyBlur
             parentBlurAllowed) ->
  video_effect_mirrors cfg n source target e.
Proof.
  intros Hwf He. apply (video_walk_origin cfg w) in He; [|exact Hwf].
  destruct e; cbn in He |- *; try exact He; try exact I.
  - destruct He as (data & _ & _ & Hw & _). now exists data.
  - destruct He as (data & dst & ow & oh & Hw & _ & _ & _ & ->).
    exists data, dst. now split.
Qed.

Lemma video_walk_mirrors_source_witness :
  video_effect_mirrors sample_config scenario_assets "/site/assets"
    "/site/dist/assets"
    (VideoWritten
       (Video.video_command sample_config "/site/assets/clip.webm"
          "/site/dist/assets/clip.webm" 3840 2160)).
Proof.
  apply (video_walk_mirrors_source sample_config sample_world scenario_assets
           "/site/assets" "/site/dist/assets" true true); [reflexivity|].
  apply list_elem_of_In. vm_compute.
  repeat first [left; reflexivity | right].
Defined.

(** X8. The walk of [optimize.js] writes nothing outside the policies: on a
    well-formed tree, every directory it creates mirrors a visible folder
    that passes the folder policy together with all the folders above it;
    every file it copies or optimises is a visible file that passes the
    file policy inside such folders, written to its mirror; and it never
    runs [ffmpeg]. *)
Theorem basic_walk_respects_policies
    (cfg : config) (w : services) (n : node) (source target : string)
    (applyBlur parentBlurAllowed : bool) (e : event) :
  well_formed n = true ->
  e ∈ fst (Basic.optimizeAndBlurImages cfg w n source target applyBlur
             parentBlurAllowed) ->
  basic_effect_mirrors cfg n source target e.
Proof.
  intros Hwf He. apply (basic_walk_origin cfg w) in He; [|exact Hwf].
  destruct e; cbn in He |- *; try exact He; try exact I.
  - now destruct He.
  - destruct He as (data & _ & _ & Hw & _). now exists data.
Qed.

Lemma basic_walk_respects_policies_witness :
  basic_effect_mirrors sample_config scenario_assets "/site/assets"
    "/site/dist/assets"
    (Copied "/site/assets/clip.webm" "/site/dist/assets/clip.webm" webm_bytes).
Proof.
  apply (basic_walk_respects_policies sample_config sample_world
           scenario_assets "/site/assets" "/site/dist/assets" true true);
    [reflexivity|].
  apply list_elem_of_In. vm_compute.
  repeat first [left; reflexivity | right].
Defined.

(** X9. Every image either walk writes carries the three configured
    encoder settings (JPEG, PNG and WebP together, whatever the format of
    the file); it is resized, if at all, to [image.maxWidth] and only when
    the width read is at least [image.maxWidth] (and, in the video-capable
    walk, [image.enableResize] is on); it is blurred, if at all, with
    [blur.strength]. *)
Theorem image_jobs_carry_configuration
    (cfg : config) (w : services) (n : node) (source target : string)
    (applyBlur parentBlurAllowed : bool) (job : sharp_job) :
  well_formed n = true ->
  let settings :=
    job_jpeg job = quality_jpeg (image cfg)
    /\ job_png job = quality_png (image cfg)
    /\ job_webp job = quality_webp (image cfg)
    /\ (job_blur job = None \/ job_blur job = Some (strength (blur cfg))) in
  let wide :=
    exists width,
      sharp_metadata w (job_input job) = Some width
      /\ image_maxWidth (image cfg) <= width in
  (ImageWritten job
     ∈ fst (Video.optimizeAndBlurImages cfg w n source target applyBlur
              parentBlurAllowed) ->
   settings
   /\ (job_resize job = None
       \/ (job_resize job = Some (image_maxWidth (image cfg))
           /\ image_enableResize (image cfg) = true /\ wide)))
  /\ (ImageWritten job
        ∈ fst (Basic.optimizeAndBlurImages cfg w n source target applyBlur
                 parentBlurAllowed) ->
      settings
      /\ (job_resize job = None
          \/ (job_resize job = Some (image_maxWidth (image cfg)) /\ wide))).
Proof.
  intros Hwf settings wide. subst settings wide. split; intros He.
  - apply (video_walk_origin cfg w) in He; [|exact Hwf].
    destruct He as (data & width & b & _ & _ & Hm & -> & _).
    cbn [image_job job_jpeg job_png job_webp job_blur job_resize job_input] in *.
    split.
    + repeat split. destruct b; [now right | now left].
    + unfold Video.image_resize.
      destruct (image_enableResize (image cfg)); [|now left].
      destruct (image_maxWidth (image cfg) <=? width) eqn:E; [|now left].
      right. repeat split. exists width. split; [exact Hm|].
      now apply Z.leb_le.
  - apply (basic_walk_origin cfg w) in He; [|exact Hwf].
    destruct He as (data & width & b & _ & _ & Hm & -> & _).
    cbn [image_job job_jpeg job_png job_webp job_blur job_resize job_input] in *.
    split.
    + repeat split. destruct b; [now right | now left].
    + unfold Basic.image_resize.
      destruct (image_maxWidth (image cfg) <=? width) eqn:E; [|now left].
      right. split; [reflexivity|]. exists width. split; [exact Hm|].
      now apply Z.leb_le.
Qed.

Lemma image_jobs_carry_configuration_witness :
  job_jpeg (image_job sample_config "/site/assets/web/photo.jpg"
              "/site/dist/assets/web/photo.jpg" true true) = 80
  /\ job_png (image_job sample_config "/site/assets/web/photo.jpg"
                "/site/dist/assets/web/photo.jpg" true true) = 9
  /\ job_webp (image_job sample_config "/site/assets/web/photo.jpg"
                 "/site/dist/assets/web/photo.jpg" true true) = 80.
Proof.
  destruct (image_jobs_carry_configuration sample_config sample_world
              scenario_assets "/site/assets" "/site/dist/assets" true true
              (image_job sample_config "/site/assets/web/photo.jpg"
                 "/site/dist/assets/web/photo.jpg" true true))
    as [HV _]; [reflexivity|].
  destruct HV as [(Hj & Hp & Hw & _) _].
  - apply list_elem_of_In. vm_compute.
    repeat first [left; reflexivity | right].
  - now repeat split.
Defined.

(** X10. The video-capable walk runs [ffmpeg] to its end only on a file
    classified video, with [video.enableProcessing] on, for which the probe
    found a video stream; the command is the one [processVideo] builds from
    that stream's width and height, reading the file and writing the output
    file derived from its mirror. *)
Theorem transcodes_only_probed_videos
    (cfg : config) (w : services) (n : node) (source target : string)
    (applyBlur parentBlurAllowed : bool) (cmd : ffmpeg_command) :
  well_formed n = true ->
  VideoWritten cmd
    ∈ fst (Video.optimizeAndBlurImages cfg w n source target applyBlur
             parentBlurAllowed) ->
  enableProcessing (video cfg) = true
  /\ Video.getFileType cfg (cmd_input cmd) = VideoType
  /\ shouldProcessFile cfg (cmd_input cmd) = true
  /\ exists rel originalWidth originalHeight,
       ffprobe w (cmd_input cmd)
       = ProbeStreams (Some (originalWidth, originalHeight))
       /\ cmd_input cmd = joins source rel
       /\ cmd = Video.video_command cfg (joins source rel) (joins target rel)
                  originalWidth originalHeight.
Proof.
  intros Hwf He. apply (video_walk_origin cfg w) in He; [|exact Hwf].
  destruct He as (data & dst & ow & oh & Hw & Ht & Hen & Hpr & Hcmd).
  destruct Hw as (dirs & name & _ & _ & Hsrc & -> & Hf).
  repeat split; try assumption.
  exists (dirs ++ [name]), ow, oh. rewrite <- Hsrc. now repeat split.
Qed.

Lemma transcodes_only_probed_videos_witness :
  Video.getFileType sample_config "/site/assets/clip.webm" = VideoType
  /\ shouldProcessFile sample_config "/site/assets/clip.webm" = true.
Proof.
  destruct (transcodes_only_probed_videos sample_config sample_world
              scenario_assets "/site/assets" "/site/dist/assets" true true
              (Video.video_command sample_config "/site/assets/clip.webm"
                 "/site/dist/assets/clip.webm" 3840 2160))
    as (_ & Ht & Hf & _); [reflexivity | |now split].
  apply list_elem_of_In. vm_compute.
  repeat first [left; reflexivity | right].
Defined.

(** ** No file is lost *)

Lemma video_walk_file_accounts (cfg : config) (w : services)
    (filePath outputFilePath : string) (data : bytes) (a p : bool) :
  shouldProcessFile cfg filePath = true ->
  completed (Video.walk_file cfg w filePath outputFilePath data a p) ->
  exists e,
    e ∈ fst (Video.walk_file cfg w filePath outputFilePath data a p)
    /\ event_source e = Some filePath.
Proof.
  intros Hf. unfold Video.walk_file. rewrite Hf. cbn [negb].
  destruct (Video.getFileType cfg filePath).
  - intros _. unfold sharp_pipeline.
    destruct (sharp_metadata w filePath) as [width|].
    + destruct (sharp_toFile w _); eexists; (split; [left|reflexivity]).
    + eexists. split; [left|reflexivity].
  - unfold Video.processVideo, copyFile.
    destruct (enableProcessing (video cfg)); cbn [negb].
    + destruct (ffprobe w filePath) as [|[[ow oh]|]].
      * destruct (fs_copyFileSync w filePath outputFilePath);
          [|discriminate].
        intros _. eexists. split; [right; left|reflexivity].
      * destruct (ffmpeg_run w _); intros _; eexists;
          (split; [left|reflexivity]).
      * intros _.
        exists (ConsoleError (ErrNoVideoStream filePath)).
        split; [|reflexivity].
        destruct (fs_copyFileSync w filePath outputFilePath); left.
    + destruct (fs_copyFileSync w filePath outputFilePath); [|discriminate].
      intros _. eexists. split; [left|reflexivity].
  - intros ->%copyFile_completed. eexists. split; [left|reflexivity].
  - intros ->%copyFile_completed. eexists. split; [left|reflexivity].
Qed.

Lemma basic_walk_file_accounts (cfg : config) (w : services)
    (filePath outputFilePath : string) (data : bytes) (a p : bool) :
  shouldProcessFile cfg filePath = true ->
  completed (Basic.walk_file cfg w filePath outputFilePath data a p) ->
  exists e,
    e ∈ fst (Basic.walk_file cfg w filePath outputFilePath data a p)
    /\ event_source e = Some filePath.
Proof.
  intros Hf. unfold Basic.walk_file. rewrite Hf. cbn [negb].
  destruct (Basic.getFileType cfg filePath).
  - intros _. unfold sharp_pipeline.
    destruct (sharp_metadata w filePath) as [width|].
    + destruct (sharp_toFile w _); eexists; (split; [left|reflexivity]).
    + eexists. split; [left|reflexivity].
  - intros ->%copyFile_completed. eexists. split; [left|reflexivity].
  - intros ->%copyFile_completed. eexists. split; [left|reflexivity].
  - intros ->%copyFile_completed. eexists. split; [left|reflexivity].
Qed.

Lemma resolve_file_nil (data data' : bytes) (rel : list string) :
  resolve (File data) rel = Some (File data') -> rel = [] /\ data = data'.
Proof.
  destruct rel as [|x rel]; cbn.
  - now intros [= ->].
  - now destruct (startsWith_dot x).
Qed.

Lemma video_walk_accounts (cfg : config) (w : services) (rel : list string) :
  forall n source target a p data,
    completed (Video.optimizeAndBlurImages cfg w n source target a p) ->
    resolve n rel = Some (File data) ->
    shouldProcessFile cfg (joins source rel) = true ->
    exists e,
      e ∈ fst (Video.optimizeAndBlurImages cfg w n source target a p)
      /\ event_source e = Some (joins source rel).
Proof.
  induction rel as [|name rel IH]; intros n source target a p data Hc Hr Hf.
  - cbn in Hr. injection Hr as ->. discriminate Hc.
  - cbn in Hr. destruct (startsWith_dot name) eqn:Hh; [discriminate|].
    destruct n as [d|entries]; [discriminate|].
    destruct (lookup_entry name entries) as [child|] eqn:Hl; [|discriminate].
    apply lookup_entry_split in Hl as (l1 & l2 & ->).
    rewrite video_walk_Dir in *.
    assert (Hin : (name, child) ∈ l1 ++ (name, child) :: l2).
    { apply elem_of_app. right. left. }
    pose proof Hc as Hall. rewrite forEach_completed, Forall_forall in Hall.
    specialize (Hall _ Hin). cbn in Hall.
    assert (Hentry : exists e,
               e ∈ fst (Video.walk_entry cfg w source target a p name child)
               /\ event_source e = Some (joins source (name :: rel))).
    { unfold Video.walk_entry in *. rewrite Hh in *.
      destruct child as [d|sub].
      - apply resolve_file_nil in Hr as [-> ->].
        now apply video_walk_file_accounts.
      - unfold Video.walk_dir in *.
        apply seq_completed in Hall as [Hm Hrest].
        rewrite seq_events_completed by exact Hm.
        destruct (shouldProcessFolder cfg (path_join source name));
          cbn [negb] in *.
        + destruct (IH _ _ _ _ _ _ Hrest Hr Hf) as (e & He & Hs).
          exists e. split; [apply elem_of_app; now right | exact Hs].
        + exists (Copied (joins (path_join source name) rel)
                    (joins (path_join target name) rel) data).
          split; [|reflexivity]. apply elem_of_app. right.
          exact (raw_copy_copies w rel (Dir sub) _ _ data Hrest Hr). }
    destruct Hentry as (e & He & Hs). exists e. split; [|exact Hs].
    now apply (forEach_events_intro _ _ (name, child)).
Qed.

Lemma basic_walk_accounts (cfg : config) (w : services) (dirs : list string) :
  forall n source target a p name data,
    completed (Basic.optimizeAndBlurImages cfg w n source target a p) ->
    resolve n (dirs ++ [name]) = Some (File data) ->
    folders_admitted cfg source dirs = true ->
    shouldProcessFile cfg (joins source (dirs ++ [name])) = true ->
    exists e,
      e ∈ fst (Basic.optimizeAndBlurImages cfg w n source target a p)
      /\ event_source e = Some (joins source (dirs ++ [name])).
Proof.
  induction dirs as [|dir dirs IH];
    intros n source target a p name data Hc Hr Ha Hf.
  - cbn [app] in *. cbn in Hr.
    destruct (startsWith_dot name) eqn:Hh; [discriminate|].
    destruct n as [d|entries]; [discriminate|].
    destruct (lookup_entry name entries) as [child|] eqn:Hl; [|discriminate].
    apply lookup_entry_split in Hl as (l1 & l2 & ->).
    rewrite basic_walk_Dir in *.
    assert (Hin : (name, child) ∈ l1 ++ (name, child) :: l2).
    { apply elem_of_app. right. left. }
    pose proof Hc as Hall. rewrite forEach_completed, Forall_forall in Hall.
    specialize (Hall _ Hin). cbn in Hall.
    destruct child as [d|sub]; [|discriminate Hr]. injection Hr as ->.
    unfold Basic.walk_entry in Hall. rewrite Hh in Hall.
    destruct (basic_walk_file_accounts _ _ _ _ _ _ _ Hf Hall) as (e & He & Hs).
    exists e. split; [|exact Hs].
    apply (forEach_events_intro _ _ (name, File data)); [exact Hc|exact Hin|].
    cbn. unfold Basic.walk_entry. now rewrite Hh.
  - cbn [app] in *. cbn in Hr, Ha.
    destruct (startsWith_dot dir) eqn:Hh; [discriminate|].
    destruct n as [d|entries]; [discriminate|].
    destruct (lookup_entry dir entries) as [child|] eqn:Hl; [|discriminate].
    apply lookup_entry_split in Hl as (l1 & l2 & ->).
    apply andb_true_iff in Ha as [Hp Ha].
    rewrite basic_walk_Dir in *.
    assert (Hin : (dir, child) ∈ l1 ++ (dir, child) :: l2).
    { apply elem_of_app. right. left. }
    pose proof Hc as Hall. rewrite forEach_completed, Forall_forall in Hall.
    specialize (Hall _ Hin). cbn in Hall.
    destruct child as [d|sub].
    { apply resolve_file_nil in Hr as [Hr _]. now destruct dirs. }
    unfold Basic.walk_entry, Basic.walk_dir in Hall.
    rewrite Hh, Hp in Hall. cbn [negb] in Hall.
    apply seq_completed in Hall as [Hm Hrest].
    destruct (IH _ _ _ _ _ _ _ Hrest Hr Ha Hf) as (e & He & Hs).
    exists e. split; [|exact Hs].
    apply (forEach_events_intro _ _ (dir, Dir sub)); [exact Hc|exact Hin|].
    cbn. unfold Basic.walk_entry, Basic.walk_dir. rewrite Hh, Hp.
    cbn [negb]. rewrite seq_events_completed by exact Hm.
    apply elem_of_app. now right.
Qed.

(** X11. No wanted file is dropped silently.  For a visible file of the
    tree that passes the file policy: when the video-capable walk runs to
    its end, some effect speaks of that file (a copy, an image or a video
    made from it, or an error line naming it); the same holds for the walk
    of [optimize.js] when the folders above the file all pass the folder
    policy. *)
Theorem wanted_files_are_accounted_for
    (cfg : config) (w : services) (n : node) (source target : string)
    (applyBlur parentBlurAllowed : bool) (dirs : list string)
    (name : string) (data : bytes) :
  resolve n (dirs ++ [name]) = Some (File data) ->
  shouldProcessFile cfg (joins source (dirs ++ [name])) = true ->
  (completed (Video.optimizeAndBlurImages cfg w n source target applyBlur
                parentBlurAllowed) ->
   exists e,
     e ∈ fst (Video.optimizeAndBlurImages cfg w n source target applyBlur
                parentBlurAllowed)
     /\ event_source e = Some (joins source (dirs ++ [name])))
  /\ (folders_admitted cfg source dirs = true ->
      completed (Basic.optimizeAndBlurImages cfg w n source target applyBlur
                   parentBlurAllowed) ->
      exists e,
        e ∈ fst (Basic.optimizeAndBlurImages cfg w n source target applyBlur
                   parentBlurAllowed)
        /\ event_source e = Some (joins source (dirs ++ [name]))).
Proof.
  intros Hr Hf. split.
  - intros Hc. now apply (video_walk_accounts cfg w _ _ _ _ _ _ data).
  - intros Ha Hc. now apply (basic_walk_accounts cfg w _ _ _ _ _ _ _ data).
Qed.

Lemma wanted_files_are_accounted_for_witness :
  exists e,
    e ∈ fst (Video.optimizeAndBlurImages sample_config no_probe_world
               scenario_assets "/site/assets" "/site/dist/assets" true true)
    /\ event_source e = Some "/site/assets/clip.webm".
Proof.
  destruct (wanted_files_are_accounted_for sample_config no_probe_world
              scenario_assets "/site/assets" "/site/dist/assets" true true
              [] "clip.webm" webm_bytes) as [HV _];
    [reflexivity | reflexivity |].
  apply HV. reflexivity.
Defined.

(** ** The blur flag *)

Lemma forEach_ext_in {A} (f g : A -> run) (l : list A) :
  (forall x, x ∈ l -> f x = g x) -> forEach f l = forEach g l.
Proof.
  induction l as [|x l IH]; intros H; [reflexivity|].
  rewrite !forEach_cons, (H x) by now left.
  rewrite IH; [reflexivity|]. intros y Hy. apply H. now right.
Qed.

Lemma video_build_events (cfg : config) (w : services) (b : bool)
    (sourceDir targetDir : string) (assets : node) (e : event) :
  e ∈ fst (Video.build cfg w b sourceDir targetDir assets) ->
  e = Mkdir targetDir \/ e = ConsoleError ErrBuild
  \/ e ∈ fst (Video.optimizeAndBlurImages cfg w assets
                (path_join sourceDir "assets") (path_join targetDir "assets")
                b true).
Proof.
  unfold Video.build. cbn zeta.
  destruct (mkdirp w targetDir ;;; _) as [t s] eqn:E.
  assert (Ht : e ∈ t -> e = Mkdir targetDir
               \/ e ∈ fst (Video.optimizeAndBlurImages cfg w assets
                             (path_join sourceDir "assets")
                             (path_join targetDir "assets") b true)).
  { intros He. change t with (fst (t, s)) in He. rewrite <- E in He.
    apply seq_events_incl in He as [He|He]; [left|now right].
    now apply mkdirp_events in He. }
  destruct s; cbn [fst]; intros He.
  - destruct (Ht He); auto.
  - apply elem_of_app in He as [He|He].
    + destruct (Ht He); auto.
    + one_event He. auto.
  - destruct (Ht He); auto.
Qed.

Lemma basic_build_events (cfg : config) (w : services) (b : bool)
    (sourceDir targetDir : string) (assets : node) (e : event) :
  e ∈ fst (Basic.build cfg w b sourceDir targetDir assets) ->
  e = Mkdir targetDir \/ e = ConsoleError ErrBuild
  \/ e ∈ fst (Basic.optimizeAndBlurImages cfg w assets
                (path_join sourceDir "assets") (path_join targetDir "assets")
                b true).
Proof.
  unfold Basic.build. cbn zeta.
  destruct (mkdirp w targetDir ;;; _) as [t s] eqn:E.
  assert (Ht : e ∈ t -> e = Mkdir targetDir
               \/ e ∈ fst (Basic.optimizeAndBlurImages cfg w assets
                             (path_join sourceDir "assets")
                             (path_join targetDir "assets") b true)).
  { intros He. change t with (fst (t, s)) in He. rewrite <- E in He.
    apply seq_events_incl in He as [He|He]; [left|now right].
    now apply mkdirp_events in He. }
  destruct s; cbn [fst]; intros He.
  - destruct (Ht He); auto.
  - apply elem_of_app in He as [He|He].
    + destruct (Ht He); auto.
    + one_event He. auto.
  - destruct (Ht He); auto.
Qed.

(** Without the flag, the walks of two configurations that differ only in
    their [blur] section are the same. *)
Lemma video_walk_without_flag (cfg cfg' : config) (w : services) (n : node) :
  same_but_blur cfg cfg' ->
  forall source target p p',
    Video.optimizeAndBlurImages cfg w n source target false p
    = Video.optimizeAndBlurImages cfg' w n source target false p'.
Proof.
  destruct cfg as [f fi ex im vi bl], cfg' as [f' fi' ex' im' vi' bl'].
  unfold same_but_blur. cbn. intros (<- & <- & <- & <- & <-).
  induction n as [data|entries IH] using node_induction;
    intros source target p p'; [reflexivity|].
  rewrite !video_walk_Dir. apply forEach_ext_in. intros [file child] Hin.
  rewrite Forall_forall in IH. specialize (IH _ Hin). cbn in IH.
  unfold Video.walk_entry. destruct (startsWith_dot file); [reflexivity|].
  destruct child as [data|sub]; [reflexivity|].
  unfold Video.walk_dir. cbn [andb].
  now rewrite (IH (path_join source file) (path_join target file) false false).
Qed.

Lemma basic_walk_without_flag (cfg cfg' : config) (w : services) (n : node) :
  same_but_blur cfg cfg' ->
  forall source target p p',
    Basic.optimizeAndBlurImages cfg w n source target false p
    = Basic.optimizeAndBlurImages cfg' w n source target false p'.
Proof.
  destruct cfg as [f fi ex im vi bl], cfg' as [f' fi' ex' im' vi' bl'].
  unfold same_but_blur. cbn. intros (<- & <- & <- & <- & <-).
  induction n as [data|entries IH] using node_induction;
    intros source target p p'; [reflexivity|].
  rewrite !basic_walk_Dir. apply forEach_ext_in. intros [file child] Hin.
  rewrite Forall_forall in IH. specialize (IH _ Hin). cbn in IH.
  unfold Basic.walk_entry. destruct (startsWith_dot file); [reflexivity|].
  destruct child as [data|sub]; [reflexivity|].
  unfold Basic.walk_dir. cbn [andb].
  now rewrite (IH (path_join source file) (path_join target file) false false).
Qed.

Lemma shouldBlur_false (args : list string) :
  "--blur" ∉ args -> "--with-blur" ∉ args -> shouldBlur args = false.
Proof.
  intros H1 H2. unfold shouldBlur. apply orb_false_iff.
  split; apply not_true_iff_false; now rewrite includes_elem_of.
Qed.

(** X12. Blur is opt-in.  When the command line holds neither [--blur] nor
    [--with-blur], no effect of either [build] applies a blur, and the
    [blur] section of the configuration has no influence at all: two
    configurations that differ only there give the same effects and the
    same exit code. *)
Theorem no_blur_without_flag
    (cfg cfg' : config) (w : services) (args : list string)
    (sourceDir targetDir : string) (assets : node) :
  "--blur" ∉ args ->
  "--with-blur" ∉ args ->
  same_but_blur cfg cfg' ->
  Video.build cfg w (shouldBlur args) sourceDir targetDir assets
  = Video.build cfg' w (shouldBlur args) sourceDir targetDir assets
  /\ Basic.build cfg w (shouldBlur args) sourceDir targetDir assets
     = Basic.build cfg' w (shouldBlur args) sourceDir targetDir assets
  /\ Forall (fun e => blur_of e = None)
       (fst (Video.build cfg w (shouldBlur args) sourceDir targetDir assets))
  /\ Forall (fun e => blur_of e = None)
       (fst (Basic.build cfg w (shouldBlur args) sourceDir targetDir assets)).
Proof.
  intros H1 H2 Hsame. rewrite (shouldBlur_false args H1 H2).
  split; [|split; [|split]].
  - unfold Video.build.
    now rewrite (video_walk_without_flag cfg cfg' w assets Hsame _ _ true true).
  - unfold Basic.build.
    now rewrite (basic_walk_without_flag cfg cfg' w assets Hsame _ _ true true).
  - apply Forall_forall. intros e [->|[->|He]]%video_build_events;
      [reflexivity | reflexivity |].
    apply video_walk_images in He.
    apply (image_effect_no_blur _ _ _ _ _ He). now left.
  - apply Forall_forall. intros e [->|[->|He]]%basic_build_events;
      [reflexivity | reflexivity |].
    apply basic_walk_images in He.
    apply (image_effect_no_blur _ _ _ _ _ He). now left.
Qed.

Lemma no_blur_without_flag_witness :
  Video.build sample_config sample_world (shouldBlur ["--verbose"]) "/site"
    "/site/dist" scenario_assets
  = Video.build other_blur_config sample_world (shouldBlur ["--verbose"])
      "/site" "/site/dist" scenario_assets.
Proof.
  apply (no_blur_without_flag sample_config other_blur_config sample_world
           ["--verbose"] "/site" "/site/dist" scenario_assets).
  - intros H. apply list_elem_of_In in H. cbn in H.
    destruct H as [H|[]]. discriminate H.
  - intros H. apply list_elem_of_In in H. cbn in H.
    destruct H as [H|[]]. discriminate H.
  - repeat split.
Defined.

(** ** How a run ends *)

Lemma seq_crashed (a b : run) (x : exn) :
  snd (a ;;; b) = Crashed x -> snd a = Crashed x \/ snd b = Crashed x.
Proof. destruct a as [t [| |]], b as [t' s']; cbn; auto. Qed.

Lemma forEach_crashed {A} (f : A -> run) (l : list A) (x : exn) :
  snd (forEach f l) = Crashed x -> exists y, y ∈ l /\ snd (f y) = Crashed x.
Proof.
  induction l as [|y l IH]; [discriminate|].
  rewrite forEach_cons. intros [H|H]%seq_crashed.
  - exists y. split; [left | exact H].
  - destruct (IH H) as (z & Hz & Hc). exists z. split; [now right | exact Hc].
Qed.

Lemma mkdirp_not_crashed (w : services) (p : string) (x : exn) :
  snd (mkdirp w p) <> Crashed x.
Proof. unfold mkdirp. now destruct (mkdirp_sync w p). Qed.

Lemma copyFile_not_crashed (w : services) (src dst : string) (data : bytes)
    (x : exn) :
  snd (copyFile w src dst data) <> Crashed x.
Proof. unfold copyFile. now destruct (fs_copyFileSync w src dst). Qed.

Lemma sharp_pipeline_not_crashed (cfg : config) (w : services)
    (filePath outputFilePath : string) (resize : Z -> bool) (b : bool)
    (x : exn) :
  snd (sharp_pipeline cfg w filePath outputFilePath resize b) <> Crashed x.
Proof.
  pose proof (sharp_pipeline_completed cfg w filePath outputFilePath resize b)
    as H. unfold completed in H. now rewrite H.
Qed.

Lemma raw_copy_not_crashed (w : services) (n : node) :
  forall source target x,
    snd (Video.copyFolderContentsDirectly w n source target) <> Crashed x.
Proof.
  induction n as [data|entries IH] using node_induction;
    intros source target x; [discriminate|].
  rewrite copyFolderContentsDirectly_Dir.
  intros ([file child] & Hin & H)%forEach_crashed.
  rewrite Forall_forall in IH. specialize (IH _ Hin). cbn in IH.
  unfold Video.copy_entry in H.
  destruct (startsWith_dot file); [discriminate|].
  destruct child as [data|sub].
  - now apply copyFile_not_crashed in H.
  - apply seq_crashed in H as [H|H].
    + now apply mkdirp_not_crashed in H.
    + now apply IH in H.
Qed.

(** The only uncaught exception of [processVideo]: the copy that follows a
    failed probe. *)
Lemma processVideo_crashed (cfg : config) (w : services)
    (inputPath outputPath : string) (data : bytes) (x : exn) :
  snd (Video.processVideo cfg w inputPath outputPath data) = Crashed x ->
  enableProcessing (video cfg) = true
  /\ (ffprobe w inputPath = ProbeError
      \/ ffprobe w inputPath = ProbeStreams None)
  /\ fs_copyFileSync w inputPath outputPath = false
  /\ x = CopyFailed inputPath outputPath.
Proof.
  unfold Video.processVideo, copyFile.
  destruct (enableProcessing (video cfg)); cbn [negb].
  - destruct (ffprobe w inputPath) as [|[[ow oh]|]].
    + destruct (fs_copyFileSync w inputPath outputPath); [discriminate|].
      cbn. intros [= <-]. auto.
    + destruct (ffmpeg_run w _); [discriminate|].
      now destruct (fs_copyFileSync w inputPath outputPath).
    + destruct (fs_copyFileSync w inputPath outputPath); [discriminate|].
      cbn. intros [= <-]. auto.
  - now destruct (fs_copyFileSync w inputPath outputPath).
Qed.

Lemma basic_walk_not_crashed (cfg : config) (w : services) (n : node) :
  forall source target a p x,
    snd (Basic.optimizeAndBlurImages cfg w n source target a p) <> Crashed x.
Proof.
  induction n as [data|entries IH] using node_induction;
    intros source target a p x; [discriminate|].
  rewrite basic_walk_Dir.
  intros ([file child] & Hin & H)%forEach_crashed.
  rewrite Forall_forall in IH. specialize (IH _ Hin). cbn in IH.
  unfold Basic.walk_entry in H.
  destruct (startsWith_dot file); [discriminate|].
  destruct child as [data|sub].
  - unfold Basic.walk_file in H.
    destruct (shouldProcessFile cfg _); cbn [negb] in H; [|discriminate].
    destruct (Basic.getFileType cfg _);
      first [now apply sharp_pipeline_not_crashed in H
            | now apply copyFile_not_crashed in H].
  - unfold Basic.walk_dir in H.
    destruct (shouldProcessFolder cfg _); cbn [negb] in H; [|discriminate].
    apply seq_crashed in H as [H|H].
    + now apply mkdirp_not_crashed in H.
    + now apply IH in H.
Qed.

Lemma video_walk_crashed (cfg : config) (w : services) (n : node) :
  forall source target a p x,
    snd (Video.optimizeAndBlurImages cfg w n source target a p) = Crashed x ->
    exists src dst,
      x = CopyFailed src dst
      /\ enableProcessing (video cfg) = true
      /\ Video.getFileType cfg src = VideoType
      /\ (ffprobe w src = ProbeError \/ ffprobe w src = ProbeStreams None)
      /\ fs_copyFileSync w src dst = false.
Proof.
  induction n as [data|entries IH] using node_induction;
    intros source target a p x; [discriminate|].
  rewrite video_walk_Dir.
  intros ([file child] & Hin & H)%forEach_crashed.
  rewrite Forall_forall in IH. specialize (IH _ Hin). cbn in IH.
  unfold Video.walk_entry in H.
  destruct (startsWith_dot file); [discriminate|].
  destruct child as [data|sub].
  - unfold Video.walk_file in H.
    destruct (shouldProcessFile cfg _); cbn [negb] in H; [|discriminate].
    destruct (Video.getFileType cfg _) eqn:Ht.
    + now apply sharp_pipeline_not_crashed in H.
    + apply processVideo_crashed in H as (Hen & Hpr & Hc & ->).
      exists (path_join source file), (path_join target file).
      now repeat split.
    + now apply copyFile_not_crashed in H.
    + now apply copyFile_not_crashed in H.
  - unfold Video.walk_dir in H. apply seq_crashed in H as [H|H].
    + now apply mkdirp_not_crashed in H.
    + destruct (shouldProcessFolder cfg _); cbn [negb] in H.
      * now apply IH in H.
      * now apply raw_copy_not_crashed in H.
Qed.

(** X13. Exit codes.  [build] of [optimize.js] always ends with exit code
    0: every exception of the walk reaches its [catch].  For a
    configuration whose video size [fluent-ffmpeg] accepts (resizing off,
    or a [video.maxHeight] that is not negative; [command.size] throws on
    any other, in the [ffprobe] callback), [build] of the video-capable
    script ends with 0 or 1, and with 1 only when, for some file classified
    video with processing on, the probe failed (or found no video stream)
    and the copy that follows it threw: that copy runs in the [ffprobe]
    callback too, outside every [try]. *)
Theorem build_exit_codes
    (cfg : config) (w : services) (b : bool) (sourceDir targetDir : string)
    (assets : node) :
  snd (Basic.build cfg w b sourceDir targetDir assets) = 0
  /\ (size_accepted cfg = true ->
      (snd (Video.build cfg w b sourceDir targetDir assets) = 0
       \/ snd (Video.build cfg w b sourceDir targetDir assets) = 1)
      /\ (snd (Video.build cfg w b sourceDir targetDir assets) = 1 ->
          exists src dst,
            enableProcessing (video cfg) = true
            /\ Video.getFileType cfg src = VideoType
            /\ (ffprobe w src = ProbeError
                \/ ffprobe w src = ProbeStreams None)
            /\ fs_copyFileSync w src dst = false)).
Proof.
  split; [|intros _; split].
  - unfold Basic.build. cbn zeta.
    destruct (mkdirp w targetDir ;;; _) as [t s] eqn:E.
    destruct s as [|x|x]; try reflexivity.
    exfalso. apply (f_equal snd) in E. cbn in E.
    apply seq_crashed in E as [E|E].
    + now apply mkdirp_not_crashed in E.
    + now apply basic_walk_not_crashed in E.
  - unfold Video.build. cbn zeta.
    destruct (mkdirp w targetDir ;;; _) as [t [|x|x]]; cbn; auto.
  - unfold Video.build. cbn zeta.
    destruct (mkdirp w targetDir ;;; _) as [t s] eqn:E.
    destruct s as [|x|x]; try discriminate. intros _.
    apply (f_equal snd) in E. cbn in E.
    apply seq_crashed in E as [E|E].
    + now apply mkdirp_not_crashed in E.
    + apply video_walk_crashed in E as (src & dst & _ & H).
      now exists src, dst.
Qed.

Lemma build_exit_codes_witness :
  exists src dst,
    enableProcessing (video sample_config) = true
    /\ Video.getFileType sample_config src = VideoType
    /\ (ffprobe fresh_checkout_world src = ProbeError
        \/ ffprobe fresh_checkout_world src = ProbeStreams None)
    /\ fs_copyFileSync fresh_checkout_world src dst = false.
Proof.
  destruct (build_exit_codes sample_config fresh_checkout_world false "/site"
              "/site/dist" fresh_checkout_assets) as [_ H].
  destruct (H eq_refl) as [_ Hone]. apply Hone. reflexivity.
Defined.

(** ** The two scripts side by side *)

Lemma all_folders_processed (cfg : config) (p : string) :
  include_items (folders cfg) = [] -> exclude (folders cfg) = [] ->
  shouldProcessFolder cfg p = true.
Proof.
  intros Hi He. unfold shouldProcessFolder.
  apply has_items_false in Hi. now rewrite Hi, He.
Qed.

Lemma agree_up_to_sharp_refl (t : list event) : agree_up_to_sharp t t.
Proof. repeat split; intros job Hj; now left. Qed.

Lemma same_image_or_error_app (a b c d : list event) :
  same_image_or_error a b -> same_image_or_error c d ->
  same_image_or_error (a ++ c) (b ++ d).
Proof.
  intros Hab Hcd job [H|H]%elem_of_app.
  - destruct (Hab job H); [left | right]; apply elem_of_app; now left.
  - destruct (Hcd job H); [left | right]; apply elem_of_app; now right.
Qed.

Lemma agree_up_to_sharp_app (a b c d : list event) :
  agree_up_to_sharp a b -> agree_up_to_sharp c d ->
  agree_up_to_sharp (a ++ c) (b ++ d).
Proof.
  intros (Hs & H1 & H2) (Hs' & H1' & H2'). split; [|split].
  - now rewrite !List.filter_app, Hs, Hs'.
  - now apply same_image_or_error_app.
  - now apply same_image_or_error_app.
Qed.

Lemma forEach_agree {A} (f g : A -> run) (l : list A) :
  (forall y, y ∈ l -> completed (f y) -> completed (g y) ->
             agree_up_to_sharp (fst (f y)) (fst (g y))) ->
  completed (forEach f l) -> completed (forEach g l) ->
  agree_up_to_sharp (fst (forEach f l)) (fst (forEach g l)).
Proof.
  induction l as [|y l IH]; intros H; [intros _ _; apply agree_up_to_sharp_refl|].
  rewrite !forEach_cons. intros [Hf Hfl]%seq_completed [Hg Hgl]%seq_completed.
  rewrite !seq_events_completed by assumption.
  apply agree_up_to_sharp_app.
  - apply H; [left | exact Hf | exact Hg].
  - apply IH; [|exact Hfl | exact Hgl].
    intros z Hz. apply H. now right.
Qed.

(** Two runs of the image pipeline on the same file, the same width read,
    and any outcome of [toFile]. *)
Lemma sharp_pipeline_agree (cfg : config) (w1 w2 : services)
    (filePath outputFilePath : string) (r1 r2 : Z -> bool) (b : bool) :
  sharp_metadata w1 filePath = sharp_metadata w2 filePath ->
  (forall width, r1 width = r2 width) ->
  agree_up_to_sharp
    (fst (sharp_pipeline cfg w1 filePath outputFilePath r1 b))
    (fst (sharp_pipeline cfg w2 filePath outputFilePath r2 b)).
Proof.
  intros Hm Hr. unfold sharp_pipeline. rewrite <- Hm.
  destruct (sharp_metadata w1 filePath) as [width|];
    [|apply agree_up_to_sharp_refl].
  rewrite <- Hr.
  destruct (sharp_toFile w1 _), (sharp_toFile w2 _);
    try apply agree_up_to_sharp_refl;
    (split; [reflexivity|]; split; intros job Hj; cbn in Hj;
     apply list_elem_of_singleton in Hj; [try discriminate Hj..]);
    injection Hj as ->; right; cbn; apply list_elem_of_singleton; reflexivity.
Qed.

(** X14. What the video-capable script adds to [optimize.js] is video
    handling, the raw copy of excluded folders and the resize switch.  When
    no folder is excluded or singled out, [image.enableResize] is on and
    videos are not processed ([video.enableProcessing] off, or no extension
    declared as video), two walks of the same tree that both run to their
    end make the same directories and the same copies in the same order,
    and hand [sharp] the same pipelines: an image one of them writes is
    written by the other with the same settings, or [toFile] failed there
    and left its error line.  The two runs may meet different outcomes of
    [toFile], [mkdirp.sync] and [fs.copyFileSync] (the image pipelines of
    [optimize.js] are not awaited and complete later than those of the
    other script); the width read from a source image is the same for
    both. *)
Theorem scripts_agree_up_to_sharp_outcome
    (cfg : config) (w1 w2 : services) (n : node) (source target : string)
    (applyBlur parentBlurAllowed : bool) :
  include_items (folders cfg) = [] ->
  exclude (folders cfg) = [] ->
  image_enableResize (image cfg) = true ->
  enableProcessing (video cfg) = false
  \/ videoProcessable (extensions cfg) = [] ->
  (forall filePath, sharp_metadata w1 filePath = sharp_metadata w2 filePath) ->
  let video_run :=
    Video.optimizeAndBlurImages cfg w1 n source target applyBlur
      parentBlurAllowed in
  let basic_run :=
    Basic.optimizeAndBlurImages cfg w2 n source target applyBlur
      parentBlurAllowed in
  completed video_run -> completed basic_run ->
  List.filter synchronous (fst video_run) = List.filter synchronous (fst basic_run)
  /\ (forall job,
        ImageWritten job ∈ fst video_run ->
        ImageWritten job ∈ fst basic_run
        \/ ConsoleError (ErrProcessing (job_input job)) ∈ fst basic_run)
  /\ (forall job,
        ImageWritten job ∈ fst basic_run ->
        ImageWritten job ∈ fst video_run
        \/ ConsoleError (ErrProcessing (job_input job)) ∈ fst video_run).
Proof.
  intros Hi He Hr Hv Hm. cbv zeta.
  change (completed
            (Video.optimizeAndBlurImages cfg w1 n source target applyBlur
               parentBlurAllowed) ->
          completed
            (Basic.optimizeAndBlurImages cfg w2 n source target applyBlur
               parentBlurAllowed) ->
          agree_up_to_sharp
            (fst (Video.optimizeAndBlurImages cfg w1 n source target
                    applyBlur parentBlurAllowed))
            (fst (Basic.optimizeAndBlurImages cfg w2 n source target
                    applyBlur parentBlurAllowed))).
  revert source target applyBlur parentBlurAllowed.
  induction n as [data|entries IH] using node_induction;
    intros source target a p; [intros Hc; discriminate Hc|].
  rewrite video_walk_Dir, basic_walk_Dir. apply forEach_agree.
  intros [file child] Hin.
  rewrite Forall_forall in IH. specialize (IH _ Hin). cbn in IH.
  unfold Video.walk_entry, Basic.walk_entry.
  destruct (startsWith_dot file); [intros _ _; apply agree_up_to_sharp_refl|].
  destruct child as [data|sub].
  - unfold Video.walk_file, Basic.walk_file.
    destruct (shouldProcessFile cfg _);
      [|intros _ _; apply agree_up_to_sharp_refl].
    cbn [negb]. unfold Video.getFileType, Basic.getFileType.
    destruct (includes (processable (extensions cfg)) _).
    { intros _ _. apply sharp_pipeline_agree; [apply Hm|].
      intros width. unfold Video.image_resize, Basic.image_resize.
      now rewrite Hr. }
    assert (Hcopy :
              completed (copyFile w1 (path_join source file)
                           (path_join target file) data) ->
              completed (copyFile w2 (path_join source file)
                           (path_join target file) data) ->
              agree_up_to_sharp
                (fst (copyFile w1 (path_join source file)
                        (path_join target file) data))
                (fst (copyFile w2 (path_join source file)
                        (path_join target file) data))).
    { intros H1 H2. rewrite (copyFile_completed w1 _ _ _ H1).
      rewrite (copyFile_completed w2 _ _ _ H2). apply agree_up_to_sharp_refl. }
    destruct (includes (videoProcessable (extensions cfg)) _) eqn:Ev.
    + destruct Hv as [Hv|Hv]; [|now rewrite Hv in Ev].
      unfold Video.processVideo. rewrite Hv. cbn [negb].
      now destruct (includes (copyOnly (extensions cfg)) _).
    + now destruct (includes (copyOnly (extensions cfg)) _).
  - unfold Video.walk_dir, Basic.walk_dir.
    rewrite (all_folders_processed cfg _ Hi He). cbn [negb].
    intros [Hm1 Hc1]%seq_completed [Hm2 Hc2]%seq_completed.
    rewrite !seq_events_completed by assumption.
    rewrite (mkdirp_completed w1 _ Hm1), (mkdirp_completed w2 _ Hm2).
    apply agree_up_to_sharp_app; [apply agree_up_to_sharp_refl|].
    now apply IH.
Qed.

Lemma scripts_agree_up_to_sharp_outcome_witness :
  List.filter synchronous
    (fst (Video.optimizeAndBlurImages common_config sample_world
            scenario_assets "/site/assets" "/site/dist/assets" true true))
  = List.filter synchronous
      (fst (Basic.optimizeAndBlurImages common_config no_toFile_world
              scenario_assets "/site/assets" "/site/dist/assets" true true))
  /\ (forall job,
        ImageWritten job
          ∈ fst (Video.optimizeAndBlurImages common_config sample_world
                   scenario_assets "/site/assets" "/site/dist/assets" true
                   true) ->
        ConsoleError (ErrProcessing (job_input job))
          ∈ fst (Basic.optimizeAndBlurImages common_config no_toFile_world
                   scenario_assets "/site/assets" "/site/dist/assets" true
                   true)).
Proof.
  destruct (scripts_agree_up_to_sharp_outcome common_config sample_world
              no_toFile_world scenario_assets "/site/assets"
              "/site/dist/assets" true true)
    as (Hsync & Himg & _);
    [reflexivity | reflexivity | reflexivity | now left
    | intros filePath; reflexivity | reflexivity | reflexivity |].
  split; [exact Hsync|]. intros job Hj.
  destruct (Himg job Hj) as [Hw|He]; [|exact He].
  exfalso. apply list_elem_of_In in Hw. vm_compute in Hw.
  repeat (destruct Hw as [Hw|Hw]; [discriminate Hw|]). exact Hw.
Defined.

(** ** Hidden entries *)

Lemma forEach_flat_map {A B} (f : B -> run) (g : A -> list B) (l : list A) :
  forEach f (flat_map g l) = forEach (fun x => forEach f (g x)) l.
Proof.
  induction l as [|x l IH]; [reflexivity|].
  cbn [flat_map]. now rewrite forEach_app, forEach_cons, IH.
Qed.

Lemma prune_Dir (entries : list (string * node)) :
  exists pruned, prune (Dir entries) = Dir pruned.
Proof. cbn. eauto. Qed.

(** X15. Hidden entries have no influence, at any depth: removing every
    entry whose name starts with a dot from the source tree changes
    neither walk nor the raw copy of an excluded folder: same effects,
    same order, same ending. *)
Theorem hidden_entries_have_no_influence
    (cfg : config) (w : services) (n : node) (source target : string)
    (applyBlur parentBlurAllowed : bool) :
  Video.optimizeAndBlurImages cfg w (prune n) source target applyBlur
    parentBlurAllowed
  = Video.optimizeAndBlurImages cfg w n source target applyBlur
      parentBlurAllowed
  /\ Basic.optimizeAndBlurImages cfg w (prune n) source target applyBlur
       parentBlurAllowed
     = Basic.optimizeAndBlurImages cfg w n source target applyBlur
         parentBlurAllowed
  /\ Video.copyFolderContentsDirectly w (prune n) source target
     = Video.copyFolderContentsDirectly w n source target.
Proof.
  revert source target applyBlur parentBlurAllowed.
  induction n as [data|entries IH] using node_induction;
    intros source target a p; [now repeat split|].
  cbn [prune].
  rewrite !video_walk_Dir, !basic_walk_Dir, !copyFolderContentsDirectly_Dir.
  rewrite !forEach_flat_map.
  repeat split; apply forEach_ext_in; intros [file child] Hin;
    rewrite Forall_forall in IH; specialize (IH _ Hin); cbn in IH.
  - unfold Video.walk_entry.
    destruct (startsWith_dot file) eqn:Hh; [reflexivity|].
    cbn [forEach]. rewrite seq_done_r, Hh.
    destruct child as [data|sub]; [reflexivity|].
    destruct (prune_Dir sub) as [pruned E]. rewrite E.
    destruct (IH (path_join source file) (path_join target file) a
                (a && p && shouldBlurFolder cfg (path_join source file)))
      as (HV & _ & HR).
    unfold Video.walk_dir. rewrite <- E.
    destruct (shouldProcessFolder cfg _); cbn [negb]; [now rewrite HV|].
    now rewrite HR.
  - unfold Basic.walk_entry.
    destruct (startsWith_dot file) eqn:Hh; [reflexivity|].
    cbn [forEach]. rewrite seq_done_r, Hh.
    destruct child as [data|sub]; [reflexivity|].
    destruct (prune_Dir sub) as [pruned E]. rewrite E.
    destruct (IH (path_join source file) (path_join target file) a
                (a && p && shouldBlurFolder cfg (path_join source file)))
      as (_ & HB & _).
    unfold Basic.walk_dir. rewrite <- E.
    destruct (shouldProcessFolder cfg _); cbn [negb]; [|reflexivity].
    now rewrite HB.
  - unfold Video.copy_entry.
    destruct (startsWith_dot file) eqn:Hh; [reflexivity|].
    cbn [forEach]. rewrite seq_done_r, Hh.
    destruct child as [data|sub]; [reflexivity|].
    destruct (prune_Dir sub) as [pruned E]. rewrite E.
    destruct (IH (path_join source file) (path_join target file) a p)
      as (_ & _ & HR).
    rewrite <- E. now rewrite HR.
Qed.
